(** * Response recovery, Moonshot extraction and path history

    A shallow embedding of the parts of the PRD generator that decide
    what is recovered from a model response:

    - [OpenRouterClient.save_project_files] (openrouter_client.py), the
      three recovery methods and the file-writing loop;
    - [MoonshotClient.send_prd_request] (moonshot_client.py), the
      extraction, validation and README fallback of lines 145-176;
    - the parse performed by [generate_code] (app.py, lines 325-357);
    - [ConfigManager] (config_manager.py): the three files,
      [_load_json], [_save_json], the keys and the settings, the path
      history, [clear_all_data];
    - [OpenRouterClient.send_prd_request], the token usage of the
      Moonshot client and what [generate_code] answers (app.py);
    - the project name of [generate_code] and the Alibaba client
      (alibaba-cloud-client.py).

    The Python standard library pieces these functions call ([re],
    [json.loads], [json.dumps], [str.strip]) are embedded as executable
    definitions as well, so every statement below can be evaluated on
    concrete texts. *)

From Stdlib Require Import String Ascii DecimalString.
From Stdlib Require Import NArith ZArith Bool Arith Lia List.
From Stdlib Require DecimalPos.
Import ListNotations.

Set Implicit Arguments.
Set Warnings "-register-all".

(** ** Python strings *)

(** A Python [str] is a sequence of Unicode code points. *)
Definition char := N.
Definition str := list char.

Module Chr.
Open Scope N_scope.
Definition TAB : char := 9.
Definition LF : char := 10.
Definition CR : char := 13.
Definition SPACE : char := 32.
Definition DQUOTE : char := 34.
Definition PLUS : char := 43.
Definition COMMA : char := 44.
Definition MINUS : char := 45.
Definition DOT : char := 46.
Definition ZERO : char := 48.
Definition COLON : char := 58.
Definition LBRACKET : char := 91.
Definition BACKSLASH : char := 92.
Definition RBRACKET : char := 93.
Definition LBRACE : char := 123.
Definition RBRACE : char := 125.
End Chr.

(** [tx] writes a text in the file: every apostrophe of the Rocq literal
    stands for a double quote of the Python text, every other character
    for itself. *)
Definition tx_char (a : Ascii.ascii) : char :=
  let n := Ascii.N_of_ascii a in if N.eqb n 39 then Chr.DQUOTE else n.

Definition tx (s : String.string) : str :=
  map tx_char (String.list_ascii_of_string s).
Arguments tx s%_string.

Definition orelse {A} (x y : option A) : option A :=
  match x with Some _ => x | None => y end.

Definition only (c : char) : char -> bool := N.eqb c.

(** [Py_UNICODE_ISSPACE]: what [str.strip()] removes and what [\s]
    matches in a [str] pattern. *)
Definition is_space (c : char) : bool :=
  ((9 <=? c) && (c <=? 13) || (28 <=? c) && (c <=? 32)
   || (c =? 133) || (c =? 160) || (c =? 5760)
   || (8192 <=? c) && (c <=? 8202)
   || (c =? 8232) || (c =? 8233) || (c =? 8239) || (c =? 8287)
   || (c =? 12288))%N.

(** [s.count(c)] for a one-character [c]. *)
Fixpoint count (c : char) (s : str) : nat :=
  match s with
  | [] => 0
  | x :: s' => (if N.eqb x c then 1 else 0) + count c s'
  end.

Fixpoint lstrip (s : str) : str :=
  match s with
  | c :: s' => if is_space c then lstrip s' else s
  | [] => []
  end.

Definition rstrip (s : str) : str := rev (lstrip (rev s)).

(** [s.strip()] *)
Definition strip (s : str) : str := rstrip (lstrip s).

(** [s.startswith(p)] and the rest of [s] after [p]. *)
Fixpoint strip_prefix (p s : str) : option str :=
  match p, s with
  | [], _ => Some s
  | a :: p', b :: s' => if N.eqb a b then strip_prefix p' s' else None
  | _ :: _, [] => None
  end.

Definition startswith (s p : str) : bool :=
  match strip_prefix p s with Some _ => true | None => false end.

(** [all_from P x n]: [P] holds on the [n] numbers from [x] on. *)
Fixpoint all_from (P : N -> bool) (x : N) (n : nat) : bool :=
  match n with
  | 0 => true
  | S n' => P x && all_from P (N.succ x) n'
  end.

(** ** Regular expressions: the backtracking matcher of [re]

    The patterns of the source use literals, character classes,
    greedy and lazy repetition, optional non-capturing groups, capturing
    groups, [$] under [re.MULTILINE] and a one-character negative
    lookbehind.  The matcher tries alternatives in the priority order of
    [re]: a greedy repetition first tries one more iteration, a lazy
    one first tries to stop. *)
Module Re.

Inductive regex : Type :=
| Eps : regex
| Cls (f : char -> bool) : regex
| Seq (a b : regex) : regex
| Alt (a b : regex) : regex
| Star (greedy : bool) (a : regex) : regex
| Group (n : nat) (a : regex) : regex
| Eol : regex
| NotBehind (f : char -> bool) : regex.

(** A position in the subject: the characters already passed, last
    one first, and the characters still ahead. *)
Record pos : Type := Pos { behind : str; ahead : str }.

Definition captures := list (nat * str).

Fixpoint group (n : nat) (caps : captures) : option str :=
  match caps with
  | [] => None
  | (m, t) :: caps' => if Nat.eqb n m then Some t else group n caps'
  end.

(** The text between two positions of one subject. *)
Definition between (p q : pos) : str :=
  firstn (length (ahead p) - length (ahead q)) (ahead p).

Definition result := (pos * captures)%type.

Section Matcher.
Variable A : Type.

(** The loop of a repetition: [step] matches one iteration and [n]
    bounds the number of iterations by the number of characters ahead;
    an iteration has to move forward, so [n] is never used up before
    the text is. *)
Fixpoint star_loop (step : pos -> captures -> (pos -> captures -> option A) -> option A)
         (greedy : bool) (k : pos -> captures -> option A)
         (n : nat) (p : pos) (caps : captures) {struct n} : option A :=
  match n with
  | 0 => k p caps
  | S n' =>
      let more :=
        step p caps
          (fun q caps' =>
             if length (ahead q) <? length (ahead p)
             then star_loop step greedy k n' q caps' else None) in
      if greedy then orelse more (k p caps)
      else orelse (k p caps) more
  end.

(** [rmatch r p caps k]: match [r] at [p], then go on with [k]; the
    first success in priority order is the result. *)
Fixpoint rmatch (r : regex) (p : pos) (caps : captures)
         (k : pos -> captures -> option A) {struct r} : option A :=
  match r with
  | Eps => k p caps
  | Cls f =>
      match ahead p with
      | c :: rest => if f c then k (Pos (c :: behind p) rest) caps else None
      | [] => None
      end
  | Seq a b => rmatch a p caps (fun q caps' => rmatch b q caps' k)
  | Alt a b => orelse (rmatch a p caps k) (rmatch b p caps k)
  | Star greedy a => star_loop (rmatch a) greedy k (length (ahead p)) p caps
  | Group n a =>
      rmatch a p caps (fun q caps' => k q ((n, between p q) :: caps'))
  | Eol =>
      match ahead p with
      | [] => k p caps
      | c :: _ => if N.eqb c Chr.LF then k p caps else None
      end
  | NotBehind f =>
      match behind p with
      | c :: _ => if f c then None else k p caps
      | [] => k p caps
      end
  end.
End Matcher.

(** [pattern.match] at one position. *)
Definition match_at (r : regex) (p : pos) : option result :=
  rmatch r p [] (fun q caps => Some (q, caps)).

(** [re.search]: the leftmost position where the pattern matches. *)
Fixpoint search_from (r : regex) (b a : str) : option (pos * result) :=
  match match_at r (Pos b a) with
  | Some res => Some (Pos b a, res)
  | None =>
      match a with
      | [] => None
      | c :: a' => search_from r (c :: b) a'
      end
  end.

Definition search (r : regex) (s : str) : option (pos * result) :=
  search_from r [] s.

(** The matched text, [m.group()]. *)
Definition group0 (m : pos * result) : str := between (fst m) (fst (snd m)).

(** [m.group(n)] *)
Definition groupn (n : nat) (m : pos * result) : option str :=
  group n (snd (snd m)).

(** The scan shared by [re.sub] and [re.findall]: matches are taken
    leftmost first and do not overlap.  [skip] counts the characters
    of the last match that are still to be passed.  None of the
    patterns of the source matches the empty string. *)
Fixpoint scan (r : regex) (skip : nat) (b a : str) {struct a}
  : list (str + result * str) :=
  match skip with
  | S skip' =>
      match a with
      | [] => []
      | c :: a' => scan r skip' (c :: b) a'
      end
  | 0 =>
      match match_at r (Pos b a) with
      | Some (q, caps) =>
          let m := between (Pos b a) q in
          inr (q, caps, m) ::
          match a with
          | [] => []
          | c :: a' =>
              match length m with
              | 0 => inl [c] :: scan r 0 (c :: b) a'
              | S l => scan r l (c :: b) a'
              end
          end
      | None =>
          match a with
          | [] => []
          | c :: a' => inl [c] :: scan r 0 (c :: b) a'
          end
      end
  end.

Definition pieces_text (repl : result -> str) (l : list (str + result * str)) : str :=
  concat (map (fun x => match x with inl t => t | inr (res, _) => repl res end) l).

(** [re.sub(r, repl, s)], the template [repl] given as a function of
    the match. *)
Definition sub (r : regex) (repl : result -> str) (s : str) : str :=
  pieces_text repl (scan r 0 [] s).

(** [re.findall(r, s)] for a pattern with one group: the texts of
    group 1, in the order of the matches. *)
Definition findall (r : regex) (s : str) : list str :=
  concat (map (fun x =>
                 match x with
                 | inl _ => []
                 | inr (res, _) =>
                     match group 1 (snd res) with Some g => [g] | None => [[]] end
                 end) (scan r 0 [] s)).

(** The texts a pattern can match, whatever the priorities and the
    context: [$] and the lookbehind match the empty text. *)
Fixpoint lang (r : regex) (w : str) {struct r} : Prop :=
  match r with
  | Eps | Eol | NotBehind _ => w = []
  | Cls f => exists c, w = [c] /\ f c = true
  | Seq a b => exists u v, w = u ++ v /\ lang a u /\ lang b v
  | Alt a b => lang a w \/ lang b w
  | Star _ a => exists l, w = concat l /\ Forall (lang a) l
  | Group _ a => lang a w
  end.

(** [q] is reached from [p] by passing the text [w]. *)
Definition steps (p : pos) (w : str) (q : pos) : Prop :=
  ahead p = w ++ ahead q /\ behind q = rev w ++ behind p.

(** What a successful match tells: the continuation succeeded at a
    position reached through a text of the pattern. *)
Definition sound_at (A : Type) (r : regex) : Prop :=
  forall (p : pos) (caps : captures) (k : pos -> captures -> option A) (res : A),
    rmatch r p caps k = Some res ->
    exists w q caps', lang r w /\ steps p w q /\ k q caps' = Some res.

(** The text ahead does not start with white space. *)
Definition no_space_ahead (rest : str) : Prop :=
  match rest with
  | [] => True
  | d :: _ => is_space d = false
  end.

(** Pattern building blocks. *)
Definition chr (c : char) : regex := Cls (only c).
Fixpoint lit (s : str) : regex :=
  match s with
  | [] => Eps
  | c :: s' => Seq (chr c) (lit s')
  end.
Definition any : regex := Cls (fun _ => true).          (* [\s\S] *)
Definition dot : regex := Cls (fun c => negb (N.eqb c Chr.LF)).   (* . *)
Definition ws : regex := Star true (Cls is_space).      (* \s* *)
Definition plus (a : regex) : regex := Seq a (Star true a).   (* a+ *)
Definition opt (a : regex) : regex := Alt a Eps.         (* (?:a)? *)

Fixpoint seqs (l : list regex) : regex :=
  match l with
  | [] => Eps
  | [a] => a
  | a :: l' => Seq a (seqs l')
  end.
End Re.

(** ** The patterns of the source *)
Module Pat.
Import Re.

Definition fence : regex := lit (tx "```").

(** In the comments of this module an apostrophe stands for the double
    quote of the source pattern, as in [tx].

    [('(?:[^'\\]|\\.)*?)(?<!\\)$] with [re.MULTILINE]
    (openrouter_client.py, lines 160 and 192). *)
Definition unterminated : regex :=
  seqs [ Group 1 (Seq (chr Chr.DQUOTE)
                    (Star false
                       (Alt (Cls (fun c => negb (N.eqb c Chr.DQUOTE || N.eqb c Chr.BACKSLASH)))
                            (Seq (chr Chr.BACKSLASH) dot))));
         NotBehind (only Chr.BACKSLASH);
         Eol ].

(** Its template, [\1']. *)
Definition close_quote (res : result) : str :=
  match group 1 (snd res) with Some g => g | None => [] end ++ [Chr.DQUOTE].

(** [,\s*}] and [,\s*\]] (lines 163-164 and 195-196). *)
Definition comma_brace : regex := seqs [chr Chr.COMMA; ws; chr Chr.RBRACE].
Definition comma_bracket : regex := seqs [chr Chr.COMMA; ws; chr Chr.RBRACKET].

(** [```(?:json)?\s*([\s\S]*?)\s*```] (line 184). *)
Definition code_block : regex :=
  seqs [fence; opt (lit (tx "json")); ws; Group 1 (Star false any); ws; fence].

(** ['project_name'\s*:\s*'([^']+)'] (line 216). *)
Definition project_name_field : regex :=
  seqs [lit (tx "'project_name'"); ws; chr Chr.COLON; ws; chr Chr.DQUOTE;
        Group 1 (plus (Cls (fun c => negb (N.eqb c Chr.DQUOTE))));
        chr Chr.DQUOTE].

(** ['files'\s*:\s*\[([\s\S]+)\]] (line 220). *)
Definition files_field : regex :=
  seqs [lit (tx "'files'"); ws; chr Chr.COLON; ws; chr Chr.LBRACKET;
        Group 1 (plus any); chr Chr.RBRACKET].

(** [```json\s*([\s\S]*?)\s*```] (moonshot_client.py, line 150). *)
Definition json_block : regex :=
  seqs [lit (tx "```json"); ws; Group 1 (Star false any); ws; fence].

(** [\{[\s\S]*\}] (moonshot_client.py line 155, app.py line 329). *)
Definition braces : regex :=
  seqs [chr Chr.LBRACE; Star true any; chr Chr.RBRACE].
End Pat.


(** ** JSON values as Python objects *)
Module Json.

(** A [float] read by [json.loads]: the decimal text it was read from
    (the three groups of the number pattern of [json.scanner]), or one
    of the constants [NaN], [Infinity], [-Infinity]. *)
Inductive pyfloat : Type :=
| FDec (integer frac exp : str)
| FNaN
| FInf (negative : bool).

(** What [json.loads] returns: [None], [bool], [int], [float], [str],
    [list], and [dict] with its keys in insertion order. *)
Inductive value : Type :=
| Null
| Bool (b : bool)
| Int (z : Z)
| Float (f : pyfloat)
| Str (s : str)
| Arr (l : list value)
| Obj (d : list (str * value)).

Fixpoint str_eqb (a b : str) : bool :=
  match a, b with
  | [], [] => true
  | x :: a', y :: b' => N.eqb x y && str_eqb a' b'
  | _, _ => false
  end.

(** [d[k] = v] on a dict: an existing key keeps its place. *)
Fixpoint dict_set (k : str) (v : value) (d : list (str * value)) : list (str * value) :=
  match d with
  | [] => [(k, v)]
  | (k', v') :: d' =>
      if str_eqb k k' then (k, v) :: d' else (k', v') :: dict_set k v d'
  end.

(** [dict(pairs)] *)
Definition dict_of_pairs (pairs : list (str * value)) : list (str * value) :=
  fold_left (fun d kv => dict_set (fst kv) (snd kv) d) pairs [].

(** [d.get(k)] *)
Fixpoint dict_get (k : str) (d : list (str * value)) : option value :=
  match d with
  | [] => None
  | (k', v) :: d' => if str_eqb k k' then Some v else dict_get k d'
  end.

(** *** Numbers *)

Definition is_digit (c : char) : bool := ((48 <=? c) && (c <=? 57))%N.

Fixpoint span_digits (s : str) : str * str :=
  match s with
  | c :: s' =>
      if is_digit c then let (d, r) := span_digits s' in (c :: d, r) else ([], s)
  | [] => ([], [])
  end.

(** The value of a run of decimal digits. *)
Definition digits_value (d : str) : N :=
  fold_left (fun acc c => (10 * acc + (c - 48))%N) d 0%N.

(** The parts of [_match_number_unicode] of [_json.c], each returning
    what it read and the rest of the text: an optional minus sign; *)
Definition number_sign (s : str) : str * str :=
  match s with
  | c :: s' => if N.eqb c Chr.MINUS then ([c], s') else ([], s)
  | [] => ([], s)
  end.

(** either [0] or a run of digits that does not start with [0]; *)
Definition number_int (s : str) : option (str * str) :=
  match s with
  | c :: s' =>
      if N.eqb c Chr.ZERO then Some ([c], s')
      else if is_digit c then let (d, r) := span_digits s' in Some (c :: d, r)
      else None
  | [] => None
  end.

(** if present, a dot and at least one digit; *)
Definition number_frac (s : str) : str * str :=
  match s with
  | p :: d :: s' =>
      if N.eqb p Chr.DOT && is_digit d
      then let (ds, r) := span_digits s' in (p :: d :: ds, r)
      else ([], s)
  | _ => ([], s)
  end.

(** if present, [e] or [E], an optional sign and at least one digit. *)
Definition number_exp (s : str) : str * str :=
  match s with
  | e :: s' =>
      if N.eqb e 101 || N.eqb e 69 then
        let (sg, s'') :=
          match s' with
          | g :: t => if N.eqb g Chr.MINUS || N.eqb g Chr.PLUS
                      then ([g], t) else ([], s')
          | [] => ([], s')
          end in
        match span_digits s'' with
        | ([], _) => ([], s)
        | (ds, r) => (e :: sg ++ ds, r)
        end
      else ([], s)
  | [] => ([], s)
  end.

(** [_match_number_unicode], the number pattern of [json.scanner]:
    the three groups (an absent group is empty) and the rest of the
    text. *)
Definition match_number (s : str) : option (str * str * str * str) :=
  let (sign, s1) := number_sign s in
  match number_int s1 with
  | None => None
  | Some (digits, s2) =>
      let (frac, s3) := number_frac s2 in
      let (exp, s4) := number_exp s3 in
      Some (sign ++ digits, frac, exp, s4)
  end.

(** [int(text)] for the integer group. *)
Definition int_of_text (t : str) : Z :=
  match t with
  | c :: t' => if N.eqb c Chr.MINUS then (- Z.of_N (digits_value t'))%Z
               else Z.of_N (digits_value t)
  | [] => 0%Z
  end.

(** [float(text) == 0.0] for the text [integer + frac + exp].  The
    conversion rounds to nearest, so the result is zero exactly when
    the decimal value is at most [2^-1075] in magnitude. *)
Definition float_is_zero (integer frac exp : str) : bool :=
  let int_digits :=
    match integer with
    | c :: t => if N.eqb c Chr.MINUS then t else integer
    | [] => []
    end in
  let frac_digits := tl frac in
  let mantissa := Z.of_N (digits_value (int_digits ++ frac_digits)) in
  let e :=
    match exp with
    | _ :: g :: t =>
        if N.eqb g Chr.MINUS then (- Z.of_N (digits_value t))%Z
        else if N.eqb g Chr.PLUS then Z.of_N (digits_value t)
        else Z.of_N (digits_value (g :: t))
    | _ => 0%Z
    end in
  let e10 := (e - Z.of_nat (length frac_digits))%Z in
  (mantissa =? 0)%Z
  || ((e10 <? 0)%Z && (mantissa * 2 ^ 1075 <=? 10 ^ (- e10))%Z).

(** Truth value of an object, as tested by [if not project_data]. *)
Definition truthy (v : value) : bool :=
  match v with
  | Null => false
  | Bool b => b
  | Int z => negb (z =? 0)%Z
  | Float (FDec i f e) => negb (float_is_zero i f e)
  | Float _ => true
  | Str s => match s with [] => false | _ => true end
  | Arr l => match l with [] => false | _ => true end
  | Obj d => match d with [] => false | _ => true end
  end.

(** *** [json.loads] *)

Definition is_json_space (c : char) : bool :=
  N.eqb c Chr.SPACE || N.eqb c Chr.TAB || N.eqb c Chr.LF || N.eqb c Chr.CR.

(** [WHITESPACE.match(s, idx).end()] *)
Fixpoint skip_ws (s : str) : str :=
  match s with
  | c :: s' => if is_json_space c then skip_ws s' else s
  | [] => []
  end.

Definition hex_digit (c : char) : option N :=
  (if (48 <=? c) && (c <=? 57) then Some (c - 48)
   else if (97 <=? c) && (c <=? 102) then Some (c - 87)
   else if (65 <=? c) && (c <=? 70) then Some (c - 55)
   else None)%N.

(** The four hexadecimal digits of a [\uXXXX] escape. *)
Definition hex4 (a b c d : char) : option N :=
  match hex_digit a, hex_digit b, hex_digit c, hex_digit d with
  | Some x, Some y, Some z, Some w => Some (((x * 16 + y) * 16 + z) * 16 + w)%N
  | _, _, _, _ => None
  end.

Definition is_high_surrogate (c : N) : bool := ((55296 <=? c) && (c <=? 56319))%N.
Definition is_low_surrogate (c : N) : bool := ((56320 <=? c) && (c <=? 57343))%N.
Definition join_surrogates (hi lo : N) : N :=
  (65536 + (hi - 55296) * 1024 + (lo - 56320))%N.

(** The [BACKSLASH] table of [json.decoder]. *)
Definition unescape (c : char) : option char :=
  (if c =? 34 then Some 34          (* quote *)
   else if c =? 92 then Some 92     (* backslash *)
   else if c =? 47 then Some 47     (* / *)
   else if c =? 98 then Some 8      (* b *)
   else if c =? 102 then Some 12    (* f *)
   else if c =? 110 then Some 10    (* n *)
   else if c =? 114 then Some 13    (* r *)
   else if c =? 116 then Some 9     (* t *)
   else None)%N.

(** [scanstring] in strict mode, from the character after the opening
    quote: the decoded string and the text after the closing quote.
    [acc] holds the decoded characters, last one first. *)
Fixpoint scanstring (s : str) (acc : str) {struct s} : option (str * str) :=
  match s with
  | [] => None
  | c :: s' =>
      if N.eqb c Chr.DQUOTE then Some (rev acc, s')
      else if N.eqb c Chr.BACKSLASH then
        match s' with
        | [] => None
        | e :: s'' =>
            if N.eqb e 117 then
              match s'' with
              | h1 :: h2 :: h3 :: h4 :: t =>
                  match hex4 h1 h2 h3 h4 with
                  | None => None
                  | Some u =>
                      if is_high_surrogate u then
                        match t with
                        | b :: u' :: g1 :: g2 :: g3 :: g4 :: t' =>
                            if N.eqb b Chr.BACKSLASH && N.eqb u' 117 then
                              match hex4 g1 g2 g3 g4 with
                              | None => None
                              | Some u2 =>
                                  if is_low_surrogate u2
                                  then scanstring t' (join_surrogates u u2 :: acc)
                                  else scanstring t (u :: acc)
                              end
                            else scanstring t (u :: acc)
                        | _ => scanstring t (u :: acc)
                        end
                      else scanstring t (u :: acc)
                  end
              | _ => None
              end
            else
              match unescape e with
              | Some x => scanstring s'' (x :: acc)
              | None => None
              end
        end
      else if (c <=? 31)%N then None
      else scanstring s' (c :: acc)
  end.

(** Outcome of a scanning function: a value and the text after it, a
    [JSONDecodeError], or exhaustion of the recursion budget of this
    model ([decode_has_fuel] shows [decode] never meets it). *)
Inductive scanned (A : Type) : Type :=
| Scanned (a : A) (rest : str)
| DecodeError
| NoFuel.
Arguments DecodeError {A}.
Arguments NoFuel {A}.

Definition literal (word : str) (v : value) (s : str) : scanned value :=
  match strip_prefix word s with
  | Some rest => Scanned v rest
  | None => DecodeError
  end.

(** A number or one of the constants [NaN], [Infinity], [-Infinity]. *)
Definition scan_number (s : str) : scanned value :=
  match match_number s with
  | Some (integer, frac, exp, rest) =>
      match frac, exp with
      | [], [] => Scanned (Int (int_of_text integer)) rest
      | _, _ => Scanned (Float (FDec integer frac exp)) rest
      end
  | None =>
      match strip_prefix (tx "NaN") s with
      | Some rest => Scanned (Float FNaN) rest
      | None =>
          match strip_prefix (tx "Infinity") s with
          | Some rest => Scanned (Float (FInf false)) rest
          | None => literal (tx "-Infinity") (Float (FInf true)) s
          end
      end
  end.

(** [scan_once], [JSONArray] and [JSONObject] of [json.decoder].
    [array_items] is the loop of [JSONArray], entered at the first
    character of an element with the elements read so far (last one
    first); [object_items] is the loop of [JSONObject], entered after
    the opening quote of a key with the pairs read so far. *)
Fixpoint scan_once (fuel : nat) (s : str) {struct fuel} : scanned value :=
  match fuel with
  | 0 => NoFuel
  | S fuel' =>
      match s with
      | [] => DecodeError
      | c :: s' =>
          if N.eqb c Chr.DQUOTE then
            match scanstring s' [] with
            | Some (t, rest) => Scanned (Str t) rest
            | None => DecodeError
            end
          else if N.eqb c Chr.LBRACE then
            match skip_ws s' with
            | d :: s'' =>
                if N.eqb d Chr.RBRACE then Scanned (Obj []) s''
                else if N.eqb d Chr.DQUOTE then object_items fuel' s'' []
                else DecodeError
            | [] => DecodeError
            end
          else if N.eqb c Chr.LBRACKET then
            match skip_ws s' with
            | d :: s'' =>
                if N.eqb d Chr.RBRACKET then Scanned (Arr []) s''
                else array_items fuel' (d :: s'') []
            | [] => DecodeError
            end
          else if N.eqb c 110 then literal (tx "null") Null s
          else if N.eqb c 116 then literal (tx "true") (Bool true) s
          else if N.eqb c 102 then literal (tx "false") (Bool false) s
          else scan_number s
      end
  end
with array_items (fuel : nat) (s : str) (acc : list value) {struct fuel}
     : scanned value :=
  match fuel with
  | 0 => NoFuel
  | S fuel' =>
      match scan_once fuel' s with
      | Scanned v rest =>
          match skip_ws rest with
          | d :: rest' =>
              if N.eqb d Chr.RBRACKET then Scanned (Arr (rev (v :: acc))) rest'
              else if N.eqb d Chr.COMMA
              then array_items fuel' (skip_ws rest') (v :: acc)
              else DecodeError
          | [] => DecodeError
          end
      | DecodeError => DecodeError
      | NoFuel => NoFuel
      end
  end
with object_items (fuel : nat) (s : str) (acc : list (str * value)) {struct fuel}
     : scanned value :=
  match fuel with
  | 0 => NoFuel
  | S fuel' =>
      match scanstring s [] with
      | None => DecodeError
      | Some (key, rest) =>
          match skip_ws rest with
          | c :: rest1 =>
              if N.eqb c Chr.COLON then
                match scan_once fuel' (skip_ws rest1) with
                | Scanned v rest2 =>
                    match skip_ws rest2 with
                    | d :: rest3 =>
                        if N.eqb d Chr.RBRACE
                        then Scanned (Obj (dict_of_pairs (rev ((key, v) :: acc)))) rest3
                        else if N.eqb d Chr.COMMA then
                          match skip_ws rest3 with
                          | q :: rest4 =>
                              if N.eqb q Chr.DQUOTE
                              then object_items fuel' rest4 ((key, v) :: acc)
                              else DecodeError
                          | [] => DecodeError
                          end
                        else DecodeError
                    | [] => DecodeError
                    end
                | DecodeError => DecodeError
                | NoFuel => NoFuel
                end
              else DecodeError
          | [] => DecodeError
          end
      end
  end.

(** [json.loads(s)] for a [str]: [JSONDecoder.decode]. *)
Definition decode (s : str) : scanned value :=
  match scan_once (2 * length s + 1) (skip_ws s) with
  | Scanned v rest =>
      match skip_ws rest with
      | [] => Scanned v []
      | _ :: _ => DecodeError
      end
  | other => other
  end.

(** [Some v] when [json.loads(s)] returns [v], [None] when it raises
    [JSONDecodeError].  The interpreter's limits on the depth of
    recursion and on the number of digits of an [int] are not
    modelled. *)
Definition loads (s : str) : option value :=
  match decode s with
  | Scanned v _ => Some v
  | _ => None
  end.

(** *** [json.dumps] *)

Definition hex_char (d : N) : char := (if d <? 10 then 48 + d else 87 + d)%N.

(** [format(n, '04x')] *)
Definition hex4_text (n : N) : str :=
  [hex_char (N.shiftr n 12 mod 16); hex_char (N.shiftr n 8 mod 16);
   hex_char (N.shiftr n 4 mod 16); hex_char (n mod 16)]%N.

Definition u_escape (n : N) : str := Chr.BACKSLASH :: 117%N :: hex4_text n.

(** The surrogate pair written for a character above [0xFFFF]:
    [0xd800 | ((n >> 10) & 0x3ff)] and [0xdc00 | (n & 0x3ff)] for
    [n = c - 0x10000]. *)
Definition high_of (c : char) : N :=
  N.lor 55296 (N.land (N.shiftr (c - 65536) 10) 1023).
Definition low_of (c : char) : N := N.lor 56320 (N.land (c - 65536) 1023).

(** The replacement of one character by [py_encode_basestring_ascii]:
    [ESCAPE_DCT], a [\uXXXX] escape, or a surrogate pair.
    Characters from space to [~] other than the quote and the backslash
    are kept. *)
Definition escape_char (c : char) : str :=
  (if c =? 92 then [92; 92]
   else if c =? 34 then [92; 34]
   else if c =? 8 then [92; 98]
   else if c =? 12 then [92; 102]
   else if c =? 10 then [92; 110]
   else if c =? 13 then [92; 114]
   else if c =? 9 then [92; 116]
   else if (32 <=? c) && (c <=? 126) then [c]
   else if c <? 65536 then u_escape c
   else u_escape (high_of c) ++ u_escape (low_of c))%N.

Definition escape_body (s : str) : str := flat_map escape_char s.

(** [encode_basestring_ascii(s)] *)
Definition encode_basestring_ascii (s : str) : str :=
  Chr.DQUOTE :: escape_body s ++ [Chr.DQUOTE].

Definition hex4_of_text (t : str) : option N :=
  match t with
  | [a; b; c; d] => hex4 a b c d
  | _ => None
  end.

(** The text starts with a backslash and [u]. *)
Definition starts_u (t : str) : bool :=
  match t with
  | b :: u :: _ => N.eqb b Chr.BACKSLASH && N.eqb u 117
  | _ => false
  end.

(** The string [json.loads] reads back from [json.dumps(s)]: a
    character from the supplementary planes comes back from its pair,
    and so does a high surrogate followed by a low surrogate. *)
Fixpoint read_back (s : str) : str :=
  match s with
  | [] => []
  | c :: s' =>
      if (c <? 65536)%N then
        if is_high_surrogate c then
          match s' with
          | c2 :: s'' =>
              if is_low_surrogate c2
              then join_surrogates c c2 :: read_back s''
              else c :: read_back s'
          | [] => [c]
          end
        else c :: read_back s'
      else join_surrogates (high_of c) (low_of c) :: read_back s'
  end.

(** Unicode scalar values: code points below [0x110000] that are not
    surrogates. *)
Definition is_scalar (c : char) : bool :=
  ((c <? 55296) || (57343 <? c) && (c <? 1114112))%N.

(** [str(z)] for an [int]. *)
Definition int_text (z : Z) : str :=
  map N_of_ascii
    (list_ascii_of_string (DecimalString.NilZero.string_of_int (Z.to_int z))).

(** A float prints as the text it was read from: [float.__repr__] is
    not modelled.  The one object the source serializes (the README
    fallback of moonshot_client.py) has no float in it. *)
Definition float_text (f : pyfloat) : str :=
  match f with
  | FDec i fr e => i ++ fr ++ e
  | FNaN => tx "NaN"
  | FInf false => tx "Infinity"
  | FInf true => tx "-Infinity"
  end.

(** ['\n' + ' ' * (indent * level)], empty without [indent]. *)
Definition newline_indent (indent : option nat) (level : nat) : str :=
  match indent with
  | None => []
  | Some n => Chr.LF :: repeat Chr.SPACE (n * level)
  end.

Definition item_separator (indent : option nat) (level : nat) : str :=
  match indent with
  | None => tx ", "
  | Some _ => Chr.COMMA :: newline_indent indent level
  end.

Fixpoint join (sep : str) (l : list str) : str :=
  match l with
  | [] => []
  | [x] => x
  | x :: l' => x ++ sep ++ join sep l'
  end.

(** [_iterencode] of [json.encoder] with the default separators, at
    nesting level [level]. *)
Fixpoint encode (indent : option nat) (level : nat) (v : value) {struct v} : str :=
  match v with
  | Null => tx "null"
  | Bool true => tx "true"
  | Bool false => tx "false"
  | Int z => int_text z
  | Float f => float_text f
  | Str s => encode_basestring_ascii s
  | Arr [] => tx "[]"
  | Arr l =>
      [Chr.LBRACKET] ++ newline_indent indent (S level)
      ++ join (item_separator indent (S level))
           ((fix items (l : list value) : list str :=
               match l with
               | [] => []
               | x :: l' => encode indent (S level) x :: items l'
               end) l)
      ++ newline_indent indent level ++ [Chr.RBRACKET]
  | Obj [] => tx "{}"
  | Obj d =>
      [Chr.LBRACE] ++ newline_indent indent (S level)
      ++ join (item_separator indent (S level))
           ((fix items (d : list (str * value)) : list str :=
               match d with
               | [] => []
               | (k, x) :: d' =>
                   (encode_basestring_ascii k ++ tx ": " ++ encode indent (S level) x)
                   :: items d'
               end) d)
      ++ newline_indent indent level ++ [Chr.RBRACE]
  end.

(** [json.dumps(v)] and [json.dumps(v, indent=n)]. *)
Definition dumps (indent : option nat) (v : value) : str := encode indent 0 v.
End Json.

(** ** Exceptions and the body of a function *)
Module Py.

(** The exceptions the modelled code can raise besides
    [json.JSONDecodeError], which [Json.loads] reports as [None]. *)
Inductive exn : Type :=
| UnboundLocalError
| AttributeError
| KeyError
| TypeError
| UnicodeEncodeError.

Inductive outcome (A : Type) : Type :=
| Return (a : A)
| Raise (e : exn).
Arguments Raise {A}.

(** The local names of a function body that matter here: whether the
    local [re] is bound yet.  A name that is assigned anywhere in a
    function body, [import re] included, is a local of the whole
    body. *)
Record locals : Type := Locals { re_bound : bool }.

(** Statements: they read and write the locals and may raise. *)
Definition M (A : Type) : Type := locals -> outcome (A * locals).

Definition ret {A} (a : A) : M A := fun l => Return (a, l).
Definition bind {A B} (m : M A) (f : A -> M B) : M B :=
  fun l => match m l with
           | Return (a, l') => f a l'
           | Raise e => Raise e
           end.

(** [import re] inside the function. *)
Definition import_re : M unit := fun _ => Return (tt, Locals true).

(** Evaluating the name [re]. *)
Definition load_re : M unit :=
  fun l => if re_bound l then Return (tt, l) else Raise UnboundLocalError.

(** A call entered with no local bound. *)
Definition call {A} (m : M A) : outcome A :=
  match m (Locals false) with
  | Return (a, _) => Return a
  | Raise e => Raise e
  end.
End Py.

Declare Scope py_scope.
Delimit Scope py_scope with py.
Notation "x <- m ;; k" := (Py.bind m (fun x => k))
  (at level 61, m at next level, right associativity) : py_scope.
Notation "m ;; k" := (Py.bind m (fun _ => k))
  (at level 61, right associativity) : py_scope.

(** ** openrouter_client.py: [OpenRouterClient.save_project_files] *)
Module OpenRouter.
Import Json Py.
Local Open Scope py_scope.

(** [s + c * n] when [n > 0] (lines 167-173 and 199-205). *)
Definition close_open (opening closing : char) (s : str) : str :=
  let n := (Z.of_nat (count opening s) - Z.of_nat (count closing s))%Z in
  if (0 <? n)%Z then s ++ repeat closing (Z.to_nat n) else s.

(** The fixes of lines 157-173, repeated at lines 189-205: close an
    unterminated string, drop trailing commas, append the closing
    braces and then the closing brackets that are missing. *)
Definition fix_strings_and_commas (content : str) : str :=
  let fixed := Re.sub Pat.unterminated Pat.close_quote content in
  let fixed := Re.sub Pat.comma_brace (fun _ => [Chr.RBRACE]) fixed in
  Re.sub Pat.comma_bracket (fun _ => [Chr.RBRACKET]) fixed.

Definition fix_common_issues (content : str) : str :=
  let fixed := fix_strings_and_commas content in
  let fixed := close_open Chr.LBRACE Chr.RBRACE fixed in
  close_open Chr.LBRACKET Chr.RBRACKET fixed.

(** Method 1 (lines 154-178).  [re.sub] is the first call of the [try];
    the handler is for [json.JSONDecodeError] only, so the error of an
    unbound [re] leaves the method. *)
Definition method1 (content : str) (project_data : value) : M value :=
  if startswith (strip content) [Chr.LBRACE] then
    load_re ;;
    ret match loads (fix_common_issues content) with
        | Some v => v
        | None => project_data
        end
  else ret project_data.

(** The loop of lines 186-211: the first block that parses after the
    fixes. *)
Fixpoint first_block (json_matches : list str) : option value :=
  match json_matches with
  | [] => None
  | m :: rest =>
      match loads (fix_common_issues m) with
      | Some v => Some v
      | None => first_block rest
      end
  end.

(** Method 2 (lines 181-211). *)
Definition method2 (content : str) (project_data : value) : M value :=
  if negb (truthy project_data) then
    import_re ;;
    load_re ;;
    ret match first_block (Re.findall Pat.code_block content) with
        | Some v => v
        | None => project_data
        end
  else ret project_data.

Definition generated_project : str := tx "generated_project".

(** Method 3 (lines 214-232); the bare [except] swallows every error
    of [json.loads]. *)
Definition method3 (content : str) (project_data : value) : M value :=
  if negb (truthy project_data) then
    load_re ;;
    let project_name :=
      match Re.search Pat.project_name_field content with
      | Some m => match Re.groupn 1 m with Some g => g | None => [] end
      | None => generated_project
      end in
    ret match Re.search Pat.files_field content with
        | Some m =>
            let g := match Re.groupn 1 m with Some g => g | None => [] end in
            match loads ([Chr.LBRACKET] ++ g ++ [Chr.RBRACKET]) with
            | Some files_array =>
                Obj [(tx "project_name", Str project_name);
                     (tx "files", files_array)]
            | None => project_data
            end
        | None => project_data
        end
  else ret project_data.

(** Lines 150-236: [Some project_data] when the function goes on to
    write files, [None] when it returns [False] at line 236. *)
Definition parse_response (content : str) : M (option value) :=
  project_data <- method1 content Null ;;
  project_data <- method2 content project_data ;;
  project_data <- method3 content project_data ;;
  ret (if negb (truthy project_data) then None else Some project_data).

(** [recover]: the three methods as one function of the raw text. *)
Definition recover (content : str) : outcome (option value) :=
  call (parse_response content).

(** [d[key]] on an arbitrary object with a [str] key. *)
Definition subscript (v : value) (key : str) : outcome value :=
  match v with
  | Obj d => match dict_get key d with
             | Some x => Return x
             | None => Raise KeyError
             end
  | _ => Raise TypeError
  end.

(** A [str] where a path or a text to write is required
    ([os.path.join], [f.write]). *)
Definition as_str (v : value) : outcome str :=
  match v with
  | Str s => Return s
  | _ => Raise TypeError
  end.

(** The file is opened with [encoding='utf-8']: writing a text with a
    surrogate code point raises. *)
Definition write_text (content : str) : outcome unit :=
  if forallb is_scalar content then Return tt else Raise UnicodeEncodeError.

(** One iteration of the loop of lines 246-259: the path and the
    content of the file it writes.  The directory and the file are
    taken to be created by the operating system; the write itself
    raises on a content that has no UTF-8 encoding. *)
Definition file_entry (file_info : value) : outcome (str * str) :=
  match subscript file_info (tx "path") with
  | Raise e => Raise e
  | Return p =>
      match as_str p with
      | Raise e => Raise e
      | Return path =>
          match subscript file_info (tx "content") with
          | Raise e => Raise e
          | Return c =>
              match as_str c with
              | Raise e => Raise e
              | Return content =>
                  match write_text content with
                  | Raise e => Raise e
                  | Return _ => Return (path, content)
                  end
              end
          end
      end
  end.

Fixpoint file_entries (l : list value) : outcome (list (str * str)) :=
  match l with
  | [] => Return []
  | file_info :: l' =>
      match file_entry file_info with
      | Raise e => Raise e
      | Return f =>
          match file_entries l' with
          | Raise e => Raise e
          | Return fs => Return (f :: fs)
          end
      end
  end.

(** What [for file_info in x] iterates over. *)
Definition iterate (x : value) : outcome (list value) :=
  match x with
  | Arr l => Return l
  | Str s => Return (map (fun c => Str [c]) s)
  | Obj d => Return (map (fun kv => Str (fst kv)) d)
  | _ => Raise TypeError
  end.

(** What [save_project_files] does with a response text and no
    [token_info]. *)
Inductive saved : Type :=
| NoProjectData                    (* line 236, [return False] *)
| Failed (e : exn)                 (* handler of line 290, [return False] *)
| Written (project_name : str) (files : list (str * str)).
                                   (* the loop of lines 246-259 completed *)

(** Lines 239-259: the project directory name and, in order, the files
    written, when the operating system carries out every directory and
    file operation; an error of one of them also ends in the handler of
    line 290. *)
Definition write_plan (project_data : value) : saved :=
  match project_data with
  | Obj d =>
      let name := match dict_get (tx "project_name") d with
                  | Some v => v
                  | None => Str generated_project
                  end in
      match as_str name with
      | Raise e => Failed e
      | Return project_name =>
          let files := match dict_get (tx "files") d with
                       | Some v => v
                       | None => Arr []
                       end in
          match iterate files with
          | Raise e => Failed e
          | Return l =>
              match file_entries l with
              | Raise e => Failed e
              | Return fs => Written project_name fs
              end
          end
      end
  | _ => Failed AttributeError
  end.



Definition save_project_files (content : str) : saved :=
  match recover content with
  | Raise e => Failed e
  | Return None => NoProjectData
  | Return (Some project_data) => write_plan project_data
  end.
End OpenRouter.

(** ** moonshot_client.py: [MoonshotClient.send_prd_request] *)
Module Moonshot.
Import Json.

(** Lines 150-159: the text of the first fenced [json] block, else the
    span from the first opening brace to the last closing brace, else
    the whole content. *)
Definition json_content (content : str) : str :=
  match Re.search Pat.json_block content with
  | Some m => match Re.groupn 1 m with Some g => g | None => [] end
  | None =>
      match Re.search Pat.braces content with
      | Some m => Re.group0 m
      | None => content
      end
  end.

(** Lines 167-175. *)
Definition fallback_response (project_name content : str) : value :=
  Obj [(tx "project_name", Str project_name);
       (tx "files", Arr [Obj [(tx "path", Str (tx "README.md"));
                              (tx "content", Str content)]])].

(** The text of [json.dumps(fallback_response, indent=2)]. *)
Definition fallback_middle (project_name content : str) : str :=
  [Chr.LF]
  ++ tx "  'project_name': '" ++ escape_body project_name ++ tx "'," ++ [Chr.LF]
  ++ tx "  'files': [" ++ [Chr.LF]
  ++ tx "    {" ++ [Chr.LF]
  ++ tx "      'path': 'README.md'," ++ [Chr.LF]
  ++ tx "      'content': '" ++ escape_body content ++ tx "'" ++ [Chr.LF]
  ++ tx "    }" ++ [Chr.LF]
  ++ tx "  ]" ++ [Chr.LF].

Definition fallback_text (project_name content : str) : str :=
  tx "{" ++ fallback_middle project_name content ++ tx "}".

(** Lines 161-176: the string returned for a response content; the
    bare [except] turns every failure of [json.loads] into the
    fallback. *)
Definition extract (content project_name : str) : str :=
  let json_content := json_content content in
  match loads json_content with
  | Some _ => json_content
  | None => dumps (Some 2) (fallback_response project_name content)
  end.

(** Lines 118-190, first component of the result.  [response] is the
    decoded body of the HTTP reply, [None] when the request, its
    status check or the decoding of the body raised.  Every exception
    raised while the reply is taken apart ends in a handler that
    returns [None]. *)
Definition send_prd_request (response : option value) (project_name : str)
  : option str :=
  match response with
  | Some (Obj result) =>
      match dict_get (tx "choices") result with
      | Some (Arr (Obj choice :: _)) =>
          match dict_get (tx "message") choice with
          | Some (Obj message) =>
              match dict_get (tx "content") message with
              | Some content =>
                  match dict_get (tx "usage") result with
                  | None | Some (Obj _) =>
                      match content with
                      | Str content => Some (extract content project_name)
                      | _ => None
                      end
                  | Some _ => None
                  end
              | None => None
              end
          | _ => None
          end
      | _ => None
      end
  | _ => None
  end.
End Moonshot.

(** ** app.py: the parse of a client result in [generate_code] *)
Module App.
Import Json Py.

Inductive parsed : Type :=
| InvalidFormat            (* line 333: no brace span in the response *)
| ParseFailure             (* line 339: [json.JSONDecodeError] *)
| ResponseData (response_data : value).

(** Lines 326-339. *)
Definition parse_response (response : str) : parsed :=
  match Re.search Pat.braces response with
  | Some m =>
      match loads (Re.group0 m) with
      | Some v => ResponseData v
      | None => ParseFailure
      end
  | None => InvalidFormat
  end.

(** One iteration of the loop of lines 343-357: both subscripts are
    evaluated before the path is joined and the content written.  The
    directory and the file are taken to be created by the operating
    system; the write of line 355, to a file opened with
    [encoding='utf-8'], raises on a content with a surrogate code
    point. *)
Definition file_entry (file_info : value) : outcome (str * str) :=
  match OpenRouter.subscript file_info (tx "path") with
  | Raise e => Raise e
  | Return p =>
      match OpenRouter.subscript file_info (tx "content") with
      | Raise e => Raise e
      | Return c =>
          match OpenRouter.as_str p with
          | Raise e => Raise e
          | Return path =>
              match OpenRouter.as_str c with
              | Raise e => Raise e
              | Return content =>
                  match OpenRouter.write_text content with
                  | Raise e => Raise e
                  | Return _ => Return (path, content)
                  end
              end
          end
      end
  end.

Fixpoint created_files (l : list value) : outcome (list (str * str)) :=
  match l with
  | [] => Return []
  | file_info :: l' =>
      match file_entry file_info with
      | Raise e => Raise e
      | Return f =>
          match created_files l' with
          | Raise e => Raise e
          | Return fs => Return (f :: fs)
          end
      end
  end.
End App.

(** ** config_manager.py: the path history *)
Module ConfigManager.
Import Json Py.

(** What [json.load] makes of a configuration file: [Some data] when
    the file holds the JSON document [data], [None] when reading or
    decoding it fails. *)
Definition file := option value.

(** [_load_json] *)
Definition load_json (f : file) : value :=
  match f with
  | Some data => data
  | None => Obj []
  end.

(** [default_paths], written by [_initialize_files]. *)
Definition default_paths : value :=
  Obj [(tx "recent_paths", Arr []); (tx "max_paths", Int 20)].

(** [p in s] for two [str]: [p] occurs in [s]. *)
Fixpoint is_infix (p s : str) : bool :=
  startswith s p
  || match s with
     | [] => false
     | _ :: s' => is_infix p s'
     end.

(** [v == path] for a [str] [path]. *)
Definition eq_path (path : str) (v : value) : bool :=
  match v with
  | Str s => str_eqb s path
  | _ => false
  end.

(** [path in paths] *)
Definition contains (path : str) (paths : list value) : bool :=
  existsb (eq_path path) paths.

(** [paths.remove(path)]: the first equal element goes. *)
Fixpoint remove_first (path : str) (paths : list value) : list value :=
  match paths with
  | [] => []
  | v :: paths' => if eq_path path v then paths' else v :: remove_first path paths'
  end.

(** [paths[:n]] for an [int] [n]. *)
Definition slice_to (n : Z) (paths : list value) : list value :=
  if (n <? 0)%Z
  then firstn (Z.to_nat (Z.of_nat (length paths) + n)) paths
  else firstn (Z.to_nat n) paths.

(** [data.get(key, default)]; only a [dict] has [get]. *)
Definition get (data : value) (key : str) (default : value) : outcome value :=
  match data with
  | Obj d => Return match dict_get key d with Some v => v | None => default end
  | _ => Raise AttributeError
  end.

(** [data[key] = v] *)
Definition set_item (data : value) (key : str) (v : value) : outcome value :=
  match data with
  | Obj d => Return (Obj (dict_set key v d))
  | _ => Raise TypeError
  end.

(** [get_path_history] *)
Definition get_path_history (f : file) : outcome value :=
  get (load_json f) (tx "recent_paths") (Arr []).

(** [paths[:max_paths]] for the values [max_paths] can have. *)
Definition slice_paths (max_paths : value) (paths : list value)
  : outcome (list value) :=
  match max_paths with
  | Int n => Return (slice_to n paths)
  | Bool b => Return (slice_to (if b then 1 else 0) paths)
  | Null => Return paths
  | _ => Raise TypeError
  end.

(** Lines 112-125 of [add_path_to_history]: the dict handed to
    [_save_json] for the dict [data] that was loaded. *)
Definition with_path (path : str) (data : value) : outcome value :=
  match get data (tx "recent_paths") (Arr []) with
  | Raise e => Raise e
  | Return paths =>
      match get data (tx "max_paths") (Int 20) with
      | Raise e => Raise e
      | Return max_paths =>
          match paths with
          | Arr paths =>
              let paths := if contains path paths
                           then remove_first path paths else paths in
              match slice_paths max_paths (Str path :: paths) with
              | Raise e => Raise e
              | Return paths => set_item data (tx "recent_paths") (Arr paths)
              end
          | Str _ | Obj _ => Raise AttributeError   (* no [remove], no [insert] *)
          | _ => Raise TypeError                    (* [path in paths] *)
          end
      end
  end.

(** Lines 131-135 of [remove_path_from_history]: the dict handed to
    [_save_json], [None] when the path is not in the list and nothing
    is written. *)
Definition without_path (path : str) (data : value) : outcome (option value) :=
  match get data (tx "recent_paths") (Arr []) with
  | Raise e => Raise e
  | Return (Arr paths) =>
      if contains path paths then
        match set_item data (tx "recent_paths") (Arr (remove_first path paths)) with
        | Raise e => Raise e
        | Return data' => Return (Some data')
        end
      else Return None
  | Return (Str t) =>
      if is_infix path t then Raise AttributeError else Return None
  | Return (Obj d) =>
      if existsb (fun kv => str_eqb (fst kv) path) d
      then Raise AttributeError else Return None
  | Return _ => Raise TypeError
  end.
End ConfigManager.

(** ** Texts and objects used in the statements *)
Module Texts.
Import Json.

(** A descriptor with one file entry. *)
Definition entry (path content : str) : value :=
  Obj [(tx "path", Str path); (tx "content", Str content)].

Definition descriptor (project_name : str) (files : list value) : value :=
  Obj [(tx "project_name", Str project_name); (tx "files", Arr files)].

Definition demo : value := descriptor (tx "demo") [entry (tx "a.py") (tx "print(1)")].

(** Its JSON document. *)
Definition demo_document : str :=
  tx "{'project_name': 'demo', 'files': [{'path': 'a.py', 'content': 'print(1)'}]}".

(** The truncated document of the specification's example. *)
Definition demo_truncated : str :=
  tx "{'project_name': 'demo', 'files': [{'path': 'a.py', 'content': 'print(1)'".

(** The same document cut inside its last string. *)
Definition demo_cut_in_string : str :=
  tx "{'project_name': 'demo', 'files': [{'path': 'a.py', 'content': 'print(1)".

(** Prose, then a fenced [json] block holding a document. *)
Definition fenced (document : str) : str :=
  tx "Here is the project:" ++ [Chr.LF] ++ tx "```json" ++ [Chr.LF]
  ++ document ++ [Chr.LF] ++ tx "```".

Definition empty_project_document : str := tx "{'project_name': 'demo', 'files': []}".

(** Only a files array. *)
Definition files_only : str := tx "'files': [{'path': 'a.py', 'content': 'print(1)'}]".

(** A reply of the chat completion API with one choice. *)
Definition reply (content : str) : value :=
  Obj [(tx "choices", Arr [Obj [(tx "message", Obj [(tx "content", Str content)])]])].

Definition two_objects : str := tx "[{'a': 1}, {'b': 2}]".


End Texts.

(** ** More replies *)
Module Replies.
Import Json.

(** A reply of the chat completion API with one choice and its usage. *)
Definition usage_reply (content : str) (prompt completion total : Z) : value :=
  Obj [(tx "choices", Arr [Obj [(tx "message", Obj [(tx "content", Str content)])]]);
       (tx "usage", Obj [(tx "prompt_tokens", Int prompt);
                         (tx "completion_tokens", Int completion);
                         (tx "total_tokens", Int total)])].
End Replies.

(** ** openrouter_client.py: [OpenRouterClient.send_prd_request] *)
Module OpenRouterRequest.
Import Json Py.

(** Lines 105-131.  [response] is the decoded body of the HTTP reply,
    [None] when the request, its status check or the decoding of the
    body raised a [RequestException]; the handler of line 126 then
    returns [None, None].  Any other exception leaves the function.
    The result is the pair of the decoded body itself and the token
    usage. *)
Definition send_prd_request (response : option value) (input_tokens : Z)
  : outcome (value * value) :=
  match response with
  | None => Return (Null, Null)
  | Some result =>
      match ConfigManager.get result (tx "usage") (Obj []) with
      | Raise e => Raise e
      | Return usage =>
          match ConfigManager.get usage (tx "prompt_tokens") (Int 0) with
          | Raise e => Raise e
          | Return actual_input =>
              match ConfigManager.get usage (tx "completion_tokens") (Int 0) with
              | Raise e => Raise e
              | Return output =>
                  match ConfigManager.get usage (tx "total_tokens") (Int 0) with
                  | Raise e => Raise e
                  | Return total =>
                      Return (result,
                              Obj [(tx "estimated_input", Int input_tokens);
                                   (tx "actual_input", actual_input);
                                   (tx "output", output);
                                   (tx "total", total)])
                  end
              end
          end
      end
  end.
End OpenRouterRequest.

(** ** moonshot_client.py: the token usage returned by [send_prd_request] *)
Module MoonshotUsage.
Import Json Py.

(** The second component of every [return None, ...] (lines 179-191). *)
Definition no_usage (input_tokens : Z) : value :=
  Obj [(tx "actual_input", Int input_tokens);
       (tx "output", Int 0);
       (tx "total", Int input_tokens)].

(** Lines 136-141, for a [usage] that is a dict. *)
Definition usage_info (usage : list (str * value)) (input_tokens : Z) : value :=
  let get key default :=
    match dict_get key usage with Some v => v | None => default end in
  Obj [(tx "actual_input", get (tx "prompt_tokens") (Int input_tokens));
       (tx "output", get (tx "completion_tokens") (Int 0));
       (tx "total", get (tx "total_tokens") (Int input_tokens))].

(** The second component of the result of [send_prd_request]: the usage
    of the reply when the first component is a text, the estimate
    otherwise. *)
Definition token_info (response : option value) (input_tokens : Z) : value :=
  match Moonshot.send_prd_request response [], response with
  | Some _, Some (Obj result) =>
      match dict_get (tx "usage") result with
      | Some (Obj usage) => usage_info usage input_tokens
      | _ => usage_info [] input_tokens
      end
  | _, _ => no_usage input_tokens
  end.
End MoonshotUsage.

(** ** app.py: [generate_code] *)
Module Generate.
Import Json Py.

(** [s.strip(chars)] for a set of characters. *)
Fixpoint lstrip_chars (chars : char -> bool) (s : str) : str :=
  match s with
  | c :: s' => if chars c then lstrip_chars chars s' else s
  | [] => []
  end.

Definition strip_chars (chars : char -> bool) (s : str) : str :=
  rev (lstrip_chars chars (rev (lstrip_chars chars s))).

(** [s.replace(old, new)] for two one-character strings. *)
Definition replace (old new : char) (s : str) : str :=
  map (fun c => if N.eqb c old then new else c) s.

Definition APOSTROPHE : char := 39%N.
Definition SLASH : char := 47%N.
Definition UNDERSCORE : char := 95%N.

(** Lines 198-213: the output directory the request goes on with, or
    the refusal of line 208. *)
Definition output_dir (outputDir : str) : option str :=
  let output_dir :=
    strip (strip_chars (only APOSTROPHE) (strip_chars (only Chr.DQUOTE) outputDir)) in
  let output_dir := replace SLASH Chr.BACKSLASH output_dir in
  if ConfigManager.is_infix [Chr.DOT; Chr.DOT] output_dir then None
  else Some match output_dir with
            | [] => tx "output"
            | _ => output_dir
            end.

(** What the directory operations of lines 299-323 come to.  With
    [Ready] the operating system is taken to carry out every later
    directory and file operation of the request as well. *)
Inductive directories : Type :=
| Ready                        (* both directories exist *)
| NoOutputDir                  (* line 312, status 400 *)
| NoProjectDir (e : exn).      (* an exception of line 323 *)

(** The answers of [generate_code] once a client has been called. *)
Inductive answer : Type :=
| NoApiResponse                (* line 297, status 500 *)
| InvalidOutputDir             (* line 312, status 400 *)
| InvalidFormat                (* line 333, status 500 *)
| ParseFailure                 (* line 339, status 500 *)
| ServerError (e : exn)        (* handler of line 388, status 500 *)
| Created (files : list (str * str)) (tokenInfo : value).   (* line 376 *)

(** [tokenInfo] of lines 381-385; lines 366-368 evaluate the same three
    calls first. *)
Definition tokenInfo (token_info : value) (estimated_input_tokens : Z) : outcome value :=
  match ConfigManager.get token_info (tx "input_tokens") (Int estimated_input_tokens) with
  | Raise e => Raise e
  | Return actual_input =>
      match ConfigManager.get token_info (tx "output_tokens") (Int 0) with
      | Raise e => Raise e
      | Return output =>
          match ConfigManager.get token_info (tx "total_tokens")
                  (Int estimated_input_tokens) with
          | Raise e => Raise e
          | Return total =>
              Return (Obj [(tx "actual_input", actual_input);
                           (tx "output", output);
                           (tx "total", total)])
          end
      end
  end.

(** Lines 294-386 for the pair a client returned.  [re.search] takes a
    [str]; the handler of line 334 is for [json.JSONDecodeError] only.
    The files are written in the order of the loop; a content that has
    no UTF-8 encoding makes the write of line 355 raise, which ends in
    the handler of line 388. *)
Definition respond (response token_info : value) (dirs : directories)
           (estimated_input_tokens : Z) : answer :=
  if negb (truthy response) then NoApiResponse
  else
    match dirs with
    | NoOutputDir => InvalidOutputDir
    | NoProjectDir e => ServerError e
    | Ready =>
        match response with
        | Str text =>
            match App.parse_response text with
            | App.InvalidFormat => InvalidFormat
            | App.ParseFailure => ParseFailure
            | App.ResponseData response_data =>
                match ConfigManager.get response_data (tx "files") (Arr []) with
                | Raise e => ServerError e
                | Return files =>
                    match OpenRouter.iterate files with
                    | Raise e => ServerError e
                    | Return l =>
                        match App.created_files l with
                        | Raise e => ServerError e
                        | Return created =>
                            match tokenInfo token_info estimated_input_tokens with
                            | Raise e => ServerError e
                            | Return t => Created created t
                            end
                        end
                    end
                end
            end
        | _ => ServerError TypeError
        end
    end.

(** Lines 287-392 with the OpenRouter client ([model] is none of
    [kimi], [qwen], [qwen235]): an exception of the client ends in the
    handler of line 388. *)
Definition with_openrouter (reply : option value) (input_tokens : Z)
           (dirs : directories) (estimated_input_tokens : Z) : answer :=
  match OpenRouterRequest.send_prd_request reply input_tokens with
  | Raise e => ServerError e
  | Return (response, token_info) =>
      respond response token_info dirs estimated_input_tokens
  end.

(** The same with the Moonshot client ([model] is [kimi]), which
    handles every exception itself. *)
Definition with_moonshot (reply : option value) (project_name : str)
           (input_tokens : Z) (dirs : directories) (estimated_input_tokens : Z)
  : answer :=
  let response := match Moonshot.send_prd_request reply project_name with
                  | Some text => Str text
                  | None => Null
                  end in
  respond response (MoonshotUsage.token_info reply input_tokens) dirs
    estimated_input_tokens.
End Generate.

(** ** [json.dump] with [ensure_ascii=False] *)
Module JsonFile.
Import Json.

(** The replacement of one character by [encode_basestring]: the short
    escapes of [ESCAPE_DCT], a [\u00XX] escape for the other control
    characters; every other character is kept. *)
Definition escape_char (c : char) : str :=
  (if c =? 92 then [92; 92]
   else if c =? 34 then [92; 34]
   else if c =? 8 then [92; 98]
   else if c =? 12 then [92; 102]
   else if c =? 10 then [92; 110]
   else if c =? 13 then [92; 114]
   else if c =? 9 then [92; 116]
   else if c <? 32 then u_escape c
   else [c])%N.

Definition escape_body (s : str) : str := flat_map escape_char s.

(** [encode_basestring(s)] *)
Definition encode_basestring (s : str) : str :=
  Chr.DQUOTE :: escape_body s ++ [Chr.DQUOTE].

(** [_iterencode] of [json.encoder] with the default separators and
    [encode_basestring] for the strings, at nesting level [level]. *)
Fixpoint encode (indent : option nat) (level : nat) (v : value) {struct v} : str :=
  match v with
  | Null => tx "null"
  | Bool true => tx "true"
  | Bool false => tx "false"
  | Int z => int_text z
  | Float f => float_text f
  | Str s => encode_basestring s
  | Arr [] => tx "[]"
  | Arr l =>
      [Chr.LBRACKET] ++ newline_indent indent (S level)
      ++ join (item_separator indent (S level))
           ((fix items (l : list value) : list str :=
               match l with
               | [] => []
               | x :: l' => encode indent (S level) x :: items l'
               end) l)
      ++ newline_indent indent level ++ [Chr.RBRACKET]
  | Obj [] => tx "{}"
  | Obj d =>
      [Chr.LBRACE] ++ newline_indent indent (S level)
      ++ join (item_separator indent (S level))
           ((fix items (d : list (str * value)) : list str :=
               match d with
               | [] => []
               | (k, x) :: d' =>
                   (encode_basestring k ++ tx ": " ++ encode indent (S level) x)
                   :: items d'
               end) d)
      ++ newline_indent indent level ++ [Chr.RBRACE]
  end.

(** The text of [json.dump(data, f, indent=2, ensure_ascii=False)]. *)
Definition dump (data : value) : str := encode (Some 2) 0 data.

(** The digits of a decimal number, as characters. *)
Fixpoint digits (d : Decimal.uint) : str :=
  match d with
  | Decimal.Nil => []
  | Decimal.D0 d => 48%N :: digits d
  | Decimal.D1 d => 49%N :: digits d
  | Decimal.D2 d => 50%N :: digits d
  | Decimal.D3 d => 51%N :: digits d
  | Decimal.D4 d => 52%N :: digits d
  | Decimal.D5 d => 53%N :: digits d
  | Decimal.D6 d => 54%N :: digits d
  | Decimal.D7 d => 55%N :: digits d
  | Decimal.D8 d => 56%N :: digits d
  | Decimal.D9 d => 57%N :: digits d
  end.

(** The text ahead does not start with a digit. *)
Definition not_digit_ahead (rest : str) : Prop :=
  match rest with
  | [] => True
  | c :: _ => is_digit c = false
  end.

(** The text after a number does not go on as a number. *)
Definition ends_number (rest : str) : Prop :=
  match rest with
  | [] => True
  | c :: _ => is_digit c = false /\ c <> Chr.DOT /\ c <> 101%N /\ c <> 69%N
  end.

(** The text of one pair of a dict. *)
Definition item (indent : option nat) (level : nat) (kv : str * value) : str :=
  encode_basestring (fst kv) ++ tx ": " ++ encode indent level (snd kv).

(** What follows the first text of a joined list. *)
Definition more (sep : str) (l : list str) : str :=
  match l with
  | [] => []
  | _ => sep ++ join sep l
  end.

(** The scanner reads [v] back from every text written for it,
    whatever follows the text. *)
Definition reads (v : value) : Prop :=
  forall (indent : option nat) (level : nat) (rest : str),
    ends_number rest ->
    exists f0, forall f, f0 <= f ->
      scan_once f (encode indent level v ++ rest) = Scanned v rest.

(** The keys of a dict are distinct. *)
Fixpoint distinct_keys (d : list (str * value)) : bool :=
  match d with
  | [] => true
  | (k, _) :: d' =>
      match dict_get k d' with Some _ => false | None => distinct_keys d' end
  end.

(** Python objects that hold no [float], with the keys of every dict
    distinct. *)
Fixpoint plain (v : value) {struct v} : bool :=
  match v with
  | Float _ => false
  | Arr l =>
      (fix all (l : list value) : bool :=
         match l with
         | [] => true
         | x :: l' => plain x && all l'
         end) l
  | Obj d =>
      distinct_keys d
      && (fix all (d : list (str * value)) : bool :=
            match d with
            | [] => true
            | (_, x) :: d' => plain x && all d'
            end) d
  | _ => true
  end.
End JsonFile.

(** ** config_manager.py: the configuration files *)
Module ConfigFiles.
Import Json Py JsonFile.

(** The text of a configuration file as [open(filepath, 'r',
    encoding='utf-8')] reads it, [None] when the file does not exist. *)
Definition content := option str.

(** What [json.load] makes of a file; [None] is every failure. *)
Definition read (f : content) : ConfigManager.file :=
  match f with
  | Some text => loads text
  | None => None
  end.

(** [_load_json] *)
Definition load_json (f : content) : value := ConfigManager.load_json (read f).

(** [_save_json]: the text of the file after the write.  A text with a
    surrogate code point cannot be encoded as UTF-8: the write raises,
    the handler logs the error, and [None] stands for what is left of
    the file, which is not modelled. *)
Definition save_json (data : value) : option str :=
  let text := dump data in
  if forallb is_scalar text then Some text else None.

(** The three files of [__init__]. *)
Record files : Type :=
  Files { api_keys_file : content; settings_file : content; path_history_file : content }.

Definition default_api_keys : value :=
  Obj [(tx "openrouter_api_key", Str []); (tx "moonshot_api_key", Str [])].

Definition default_settings : value :=
  Obj [(tx "selected_model", Str (tx "kimi"));
       (tx "max_tokens", Int 100000);
       (tx "temperature", Float (FDec (tx "0") (tx ".6") []));
       (tx "output_dir", Str (tx "output"))].

(** One [if not file.exists(): self._save_json(file, default)] of
    [_initialize_files]; the three default texts are ASCII. *)
Definition initialize (f : content) (default : value) : content :=
  match f with
  | Some text => Some text
  | None => Some (dump default)
  end.

(** [_initialize_files] *)
Definition initialize_files (fs : files) : files :=
  Files (initialize (api_keys_file fs) default_api_keys)
        (initialize (settings_file fs) default_settings)
        (initialize (path_history_file fs) ConfigManager.default_paths).

(** [clear_all_data] *)
Definition clear_all_data (fs : files) : files := initialize_files fs.

(** The body shared by [save_api_key] and [save_setting]: load the
    file, assign the item, save the file.  The assignment raises on
    anything but a dict. *)
Definition save_item (name : str) (v : value) (f : content) : outcome (option str) :=
  match ConfigManager.set_item (load_json f) name v with
  | Raise e => Raise e
  | Return data => Return (save_json data)
  end.

(** The body shared by [get_api_key] and [get_setting]:
    [data.get(name)]. *)
Definition get_item (name : str) (f : content) : outcome value :=
  ConfigManager.get (load_json f) name Null.

(** [get_api_keys], [save_api_key], [get_api_key] *)
Definition get_api_keys (fs : files) : value := load_json (api_keys_file fs).

Definition save_api_key (key_name : str) (key_value : value) (fs : files)
  : outcome (option files) :=
  match save_item key_name key_value (api_keys_file fs) with
  | Raise e => Raise e
  | Return None => Return None
  | Return (Some text) =>
      Return (Some (Files (Some text) (settings_file fs) (path_history_file fs)))
  end.

Definition get_api_key (key_name : str) (fs : files) : outcome value :=
  get_item key_name (api_keys_file fs).

(** [get_settings], [save_setting], [get_setting] *)
Definition get_settings (fs : files) : value := load_json (settings_file fs).

Definition save_setting (setting_name : str) (v : value) (fs : files)
  : outcome (option files) :=
  match save_item setting_name v (settings_file fs) with
  | Raise e => Raise e
  | Return None => Return None
  | Return (Some text) =>
      Return (Some (Files (api_keys_file fs) (Some text) (path_history_file fs)))
  end.

Definition get_setting (setting_name : str) (fs : files) : outcome value :=
  get_item setting_name (settings_file fs).

(** [get_path_history] on the file. *)
Definition get_path_history (fs : files) : outcome value :=
  ConfigManager.get_path_history (read (path_history_file fs)).

(** [get_path_history] on the text of the history file. *)
Definition path_history (f : content) : outcome value :=
  ConfigManager.get_path_history (read f).

(** What a call leaves of the history file: [Some f'] is the file after
    a call that wrote nothing or whose write went through; [None] is a
    call whose write raised, where [open(filepath, 'w')] has emptied the
    file and [json.dump] has written a part of the text only (see
    [save_json]). *)
Definition written (text : option str) : option content :=
  match text with
  | Some t => Some (Some t)
  | None => None
  end.

(** [add_path_to_history], for a [str] path as the signature has it. *)
Definition add_path_to_history (path : str) (f : content) : outcome (option content) :=
  if negb (truthy (Str path)) || str_eqb path (tx "output") then Return (Some f)
  else
    match ConfigManager.with_path path (load_json f) with
    | Raise e => Raise e
    | Return data => Return (written (save_json data))
    end.

(** [remove_path_from_history] *)
Definition remove_path_from_history (path : str) (f : content)
  : outcome (option content) :=
  match ConfigManager.without_path path (load_json f) with
  | Raise e => Raise e
  | Return None => Return (Some f)
  | Return (Some data) => Return (written (save_json data))
  end.

(** app.py, [save_api_keys] and [save_settings]: the loop
    [for key, value in data.items(): save(key, value)] over the posted
    dict.  Only a dict has [items]; the loop is followed as long as the
    writes succeed. *)
Fixpoint save_items (save : str -> value -> files -> outcome (option files))
         (items : list (str * value)) (fs : files) : outcome (option files) :=
  match items with
  | [] => Return (Some fs)
  | (key, v) :: items' =>
      match save key v fs with
      | Raise e => Raise e
      | Return None => Return None
      | Return (Some fs') => save_items save items' fs'
      end
  end.

Definition save_api_keys (data : value) (fs : files) : outcome (option files) :=
  match data with
  | Obj d => save_items save_api_key d fs
  | _ => Raise AttributeError
  end.

Definition save_settings (data : value) (fs : files) : outcome (option files) :=
  match data with
  | Obj d => save_items save_setting d fs
  | _ => Raise AttributeError
  end.
End ConfigFiles.

(** ** app.py: the project name of [generate_code] *)
Module ProjectName.
Import Re Generate.

Definition HASH : char := 35%N.

(** [s.rfind(c)]: the last index of [c], -1 when there is none. *)
Fixpoint rfind_from (c : char) (s : str) (i found : Z) : Z :=
  match s with
  | [] => found
  | x :: s' => rfind_from c s' (i + 1) (if N.eqb x c then i else found)
  end.

Definition rfind (c : char) (s : str) : Z := rfind_from c s 0 (-1).

(** [p[i:j]] for [0 <= i]. *)
Definition slice (p : str) (i j : Z) : str :=
  firstn (Z.to_nat (j - i)) (skipn (Z.to_nat i) p).

(** [os.path.splitext(p)[0]].  Both [posixpath] and [ntpath] call
    [genericpath._splitext], with the separators [/] and, on Windows
    ([nt]), also the backslash: the extension starts at the last dot
    when that dot is after the last separator and some character
    between the two is not a dot. *)
Definition splitext_root (nt : bool) (p : str) : str :=
  let sepIndex :=
    if nt then Z.max (rfind Chr.BACKSLASH p) (rfind SLASH p) else rfind SLASH p in
  let dotIndex := rfind Chr.DOT p in
  if (sepIndex <? dotIndex)%Z
     && negb (forallb (only Chr.DOT) (slice p (sepIndex + 1) dotIndex))
  then firstn (Z.to_nat dotIndex) p
  else p.

(** What [re.IGNORECASE] lets a lower-case letter of the pattern match
    in a [str]: the letter, its upper case and, for [i] and [s], the
    characters U+0130, U+0131 and U+017F.  (Of the letters with such
    extra characters the pattern has these two only.) *)
Definition ignorecase (c : char) : char -> bool :=
  fun d => (N.eqb d c || N.eqb d (c - 32)
            || N.eqb c 105 && (N.eqb d 304 || N.eqb d 305)
            || N.eqb c 115 && N.eqb d 383)%N.

Fixpoint ilit (s : str) : regex :=
  match s with
  | [] => Eps
  | c :: s' => Seq (Cls (ignorecase c)) (ilit s')
  end.

(** [#\s*(?:Project|App|Application|System)(?:\s*Name)?:\s*(.+)] with
    [re.IGNORECASE] (line 256). *)
Definition header : regex :=
  seqs [chr HASH; ws;
        Alt (ilit (tx "project"))
          (Alt (ilit (tx "app"))
             (Alt (ilit (tx "application")) (ilit (tx "system"))));
        opt (Seq ws (ilit (tx "name")));
        chr Chr.COLON; ws; Group 1 (plus dot)].

(** The headers as the comment of line 254 writes them. *)
Definition keywords : list str :=
  [tx "Project"; tx "App"; tx "Application"; tx "System";
   tx "Project Name"; tx "App Name"; tx "Application Name"; tx "System Name"].

(** The text ahead is at the end of a line. *)
Definition line_end (rest : str) : Prop :=
  match rest with
  | [] => True
  | d :: _ => d = Chr.LF
  end.

(** The two [replace] calls of lines 241 and 259. *)
Definition clean (project_name : str) : str :=
  replace Chr.MINUS UNDERSCORE (replace Chr.SPACE UNDERSCORE project_name).

(** An uploaded file: its name as the client sent it and its bytes
    decoded as UTF-8, [None] when they are not UTF-8. *)
Record upload : Type := Upload { filename : str; text : option str }.

(** [not project_name] *)
Definition unset (project_name : option str) : bool :=
  match project_name with
  | None | Some [] => true
  | Some _ => false
  end.

(** The loop of lines 233-241; [None] is the [UnicodeDecodeError] of
    line 235. *)
Fixpoint read_uploads (nt : bool) (files : list upload)
         (combined_content : list str) (project_name : option str)
  : option (list str * option str) :=
  match files with
  | [] => Some (combined_content, project_name)
  | file :: files' =>
      match filename file with
      | [] => read_uploads nt files' combined_content project_name
      | _ =>
          match text file with
          | None => None
          | Some content =>
              read_uploads nt files'
                (combined_content
                   ++ [tx "=== File: " ++ filename file ++ tx " ===" ++ [Chr.LF] ++ content])
                (if unset project_name
                 then Some (clean (splitext_root nt (filename file)))
                 else project_name)
          end
      end
  end.

(** Lines 253-262: the name found in the content, or the default with
    the time stamp [now]. *)
Definition from_content (full_prd_content now : str) : str :=
  match search header full_prd_content with
  | Some name_match =>
      clean (strip match groupn 1 name_match with Some g => g | None => [] end)
  | None => tx "generated_project_" ++ now
  end.

Inductive naming : Type :=
| NoContent                    (* line 248, status 400 *)
| Undecodable                  (* line 235 raises, status 500 *)
| Named (full_prd_content project_name : str).

(** Lines 225-262. *)
Definition name_project (nt : bool) (files : list upload) (prd_text now : str)
  : naming :=
  match read_uploads nt files [] None with
  | None => Undecodable
  | Some (combined_content, project_name) =>
      let combined_content :=
        match combined_content, prd_text with
        | [], _ :: _ => [prd_text]
        | _, _ => combined_content
        end in
      match combined_content with
      | [] => NoContent
      | _ =>
          let full_prd_content := Json.join [Chr.LF; Chr.LF] combined_content in
          Named full_prd_content
            match project_name with
            | Some (c :: name) => c :: name
            | _ => from_content full_prd_content now
            end
      end
  end.
End ProjectName.

(** ** alibaba-cloud-client.py: [AlibabCloudClient] *)
Module Alibaba.
Import Json Py Generate.

Record model_config : Type :=
  ModelConfig { name : str; model_id : str; max_tokens : Z; supports_thinking : bool }.

Definition qwen_plus : model_config :=
  ModelConfig (tx "Qwen-Plus") (tx "qwen-plus-2025-04-28") 131072 true.

(** [self.models] *)
Definition models : list (str * model_config) :=
  [ (tx "qwen-max",
     ModelConfig (tx "Qwen-Max") (tx "qwen-max-2025-01-25") 32768 false);
    (tx "qwen-plus", qwen_plus);
    (tx "qwen-turbo",
     ModelConfig (tx "Qwen-Turbo") (tx "qwen-turbo-2025-04-28") 131072 true);
    (tx "qwen3-coder-480b-a35b-instruct",
     ModelConfig (tx "Qwen3-Coder-480B") (tx "qwen3-coder-480b-a35b-instruct") 131072 true);
    (tx "qwen3-turbo",
     ModelConfig (tx "Qwen3-Turbo") (tx "qwen3-turbo") 131072 true);
    (tx "qwen-long",
     ModelConfig (tx "Qwen-Long") (tx "qwen-long") 1000000 false) ].

Fixpoint lookup (key : str) (l : list (str * model_config)) : option model_config :=
  match l with
  | [] => None
  | (k, m) :: l' => if str_eqb key k then Some m else lookup key l'
  end.

(** The fields of a client that its methods read or write. *)
Record client : Type := Client { model : str; enable_thinking : bool }.

(** [__init__] *)
Definition new : client := Client (tx "qwen-plus") false.

(** [set_model] *)
Definition set_model (model_key : str) (c : client) : client :=
  match lookup model_key models with
  | Some _ => Client model_key (enable_thinking c)
  | None => c
  end.

(** [self.models.get(self.model, self.models['qwen-plus'])] *)
Definition config (c : client) : model_config :=
  match lookup (model c) models with
  | Some m => m
  | None => qwen_plus
  end.

(** [use_thinking] of [send_completion] (lines 95-98). *)
Definition use_thinking (c : client) (enable_thinking_arg : option bool) : bool :=
  let use := match enable_thinking_arg with
             | Some b => b
             | None => enable_thinking c
             end in
  if use && negb (supports_thinking (config c)) then false else use.

(** The body of the request of [send_completion] (lines 103-115). *)
Definition payload (c : client) (messages : value) (requested : Z)
           (enable_thinking_arg : option bool) : value :=
  let model_config := config c in
  let use := use_thinking c enable_thinking_arg in
  Obj ([(tx "model", Str (model_id model_config));
        (tx "messages", messages);
        (tx "temperature", Float (FDec (tx "0") (tx ".6") []));
        (tx "max_tokens", Int (Z.min requested (max_tokens model_config)));
        (tx "stream", Bool false)]
       ++ (if use && supports_thinking model_config
           then [(tx "extra_body", Obj [(tx "enable_thinking", Bool true)])]
           else [])).

(** The request [send_prd_request] makes (lines 183-185); [messages]
    are the two messages built from the PRD. *)
Definition prd_payload (c : client) (messages : value) (requested : Z) : value :=
  payload c messages requested
    (Some (supports_thinking (config c) && enable_thinking c)).

(** What a caller does to a client between [__init__] and a request:
    [set_model] and the assignment [client.enable_thinking = b]. *)
Inductive op : Type :=
| SetModel (model_key : str)
| EnableThinking (b : bool).

Definition apply_op (c : client) (o : op) : client :=
  match o with
  | SetModel model_key => set_model model_key c
  | EnableThinking b => Client (model c) b
  end.

Definition run (ops : list op) : client := fold_left apply_op ops new.

(** The clients of [generate_code] (app.py, lines 268-276) for the
    models [qwen] and [qwen235]. *)
Definition qwen_client : client :=
  run [SetModel (tx "qwen-plus"); EnableThinking true].
Definition qwen235_client : client := run [SetModel (tx "qwen-max")].

(** [v[key]] for a [str] key and [v[0]]; every failure is an exception
    the handler of line 142 catches. *)
Definition subscript (v : value) (key : str) : option value :=
  match v with
  | Obj d => dict_get key d
  | _ => None
  end.

Definition first_item (v : value) : option value :=
  match v with
  | Arr (x :: _) => Some x
  | Str (c :: _) => Some (Str [c])
  | _ => None
  end.

(** [d.get(key, default)], [None] for the [AttributeError]. *)
Definition get (v : value) (key : str) (default : value) : option value :=
  match ConfigManager.get v key default with
  | Return x => Some x
  | Raise _ => None
  end.

(** What [send_completion] returns for a reply (lines 117-144).  The
    reply is the status code and the decoded body, [None] when
    [requests.post] raised and a body [None] when it is not JSON.
    The result [None] stands for every [return None, {'error': ...}];
    the text of the error is not modelled. *)
Definition send_completion (c : client) (enable_thinking_arg : option bool)
           (reply : option (Z * option value)) : option (value * value) :=
  match reply with
  | Some (status_code, body) =>
      if Z.eqb status_code 200 then
        match body with
        | Some result =>
            match subscript result (tx "choices") with
            | Some choices =>
                match first_item choices with
                | Some choice =>
                    match subscript choice (tx "message") with
                    | Some message =>
                        match subscript message (tx "content") with
                        | Some content =>
                            match get result (tx "usage") (Obj []) with
                            | Some usage =>
                                match get usage (tx "prompt_tokens") (Int 0),
                                      get usage (tx "completion_tokens") (Int 0),
                                      get usage (tx "total_tokens") (Int 0) with
                                | Some input, Some output, Some total =>
                                    Some (content,
                                          Obj [(tx "input_tokens", input);
                                               (tx "output_tokens", output);
                                               (tx "total_tokens", total);
                                               (tx "model", Str (model_id (config c)));
                                               (tx "thinking_enabled",
                                                Bool (use_thinking c enable_thinking_arg))])
                                | _, _, _ => None
                                end
                            | None => None
                            end
                        | None => None
                        end
                    | None => None
                    end
                | None => None
                end
            | None => None
            end
        | None => None
        end
      else None
  | None => None
  end.

(** [usage.get(key, 0)] *)
Definition usage_count (usage : list (str * value)) (key : str) : value :=
  match dict_get key usage with
  | Some v => v
  | None => Int 0
  end.

(** [send_prd_request] *)
Definition send_prd_request (c : client) (reply : option (Z * option value))
  : option (value * value) :=
  send_completion c (Some (supports_thinking (config c) && enable_thinking c)) reply.

(** app.py, lines 287-392 with an Alibaba client. *)
Definition with_alibaba (c : client) (reply : option (Z * option value))
           (dirs : directories) (estimated_input_tokens : Z) : answer :=
  match send_prd_request c reply with
  | Some (response, token_info) =>
      respond response token_info dirs estimated_input_tokens
  | None => NoApiResponse
  end.
End Alibaba.

(** ** Quotes in a JSON text

    Where a position of a text is with respect to the strings of a
    JSON document: outside a string, inside one, after a backslash
    inside one, or [Dead] once the text cannot be a JSON document any
    more: a backslash outside a string, a line feed inside one. *)
Module Quotes.

Inductive qstate : Type := Out | In | Esc | Dead.

Definition qstep (s : qstate) (c : char) : qstate :=
  match s with
  | Out => if N.eqb c Chr.DQUOTE then In
           else if N.eqb c Chr.BACKSLASH then Dead else Out
  | In => if N.eqb c Chr.DQUOTE then Out
          else if N.eqb c Chr.BACKSLASH then Esc
          else if N.eqb c Chr.LF then Dead else In
  | Esc => if N.eqb c Chr.LF then Dead else In
  | Dead => Dead
  end.

Definition qrun (s : qstate) (w : str) : qstate := fold_left qstep w s.

(** Neither a quote nor a backslash. *)
Definition is_quiet (c : char) : bool :=
  negb (N.eqb c Chr.DQUOTE) && negb (N.eqb c Chr.BACKSLASH).

(** From [s] the text [r] is left after a text that leads from the
    state [s0] to the state [s1]. *)
Definition passes (s0 s1 : qstate) (s r : str) : Prop :=
  exists w, s = w ++ r /\ qrun s0 w = s1.

(** The closing characters the fixes put in or append. *)
Definition is_closing (c : char) : Prop := c = Chr.RBRACE \/ c = Chr.RBRACKET.
End Quotes.

(** * Properties *)

(** ** Strings *)

Lemma str_eqb_eq (a b : str) : Json.str_eqb a b = true <-> a = b.
Proof.
  revert b; induction a as [|x a IH]; intros [|y b]; simpl;
    try (split; [discriminate | congruence]).
  - split; reflexivity.
  - rewrite andb_true_iff, N.eqb_eq, IH. split; [intros [-> ->]; reflexivity | ].
    intros H; injection H; auto.
Qed.

Lemma str_eqb_refl (a : str) : Json.str_eqb a a = true.
Proof. apply str_eqb_eq; reflexivity. Qed.

Lemma str_eqb_neq (a b : str) : a <> b -> Json.str_eqb a b = false.
Proof.
  intros H; destruct (Json.str_eqb a b) eqn:E; [|reflexivity].
  apply str_eqb_eq in E; contradiction.
Qed.

Lemma count_app (c : char) (s t : str) : count c (s ++ t) = count c s + count c t.
Proof. induction s as [|x s IH]; simpl; [reflexivity | rewrite IH; lia]. Qed.

Lemma count_repeat_same (c : char) (n : nat) : count c (repeat c n) = n.
Proof. induction n; simpl; [reflexivity | rewrite N.eqb_refl, IHn; reflexivity]. Qed.

Lemma count_repeat_other (c d : char) (n : nat) : d <> c -> count c (repeat d n) = 0.
Proof.
  intros H; induction n; simpl; [reflexivity|].
  destruct (N.eqb_spec d c); [contradiction | assumption].
Qed.

(** ** The path history *)
Module PathHistory.
Import Json Py ConfigManager.

Lemma eq_path_true (path : str) (v : value) : eq_path path v = true <-> v = Str path.
Proof.
  destruct v; simpl; try (split; [discriminate | congruence]).
  rewrite str_eqb_eq. split; [intros ->; reflexivity | intros H; injection H; auto].
Qed.

Lemma contains_In (path : str) (paths : list value) :
  contains path paths = true <-> In (Str path) paths.
Proof.
  unfold contains. rewrite existsb_exists. split.
  - intros (v & Hin & Hv). apply eq_path_true in Hv. subst; assumption.
  - intros Hin. exists (Str path). split; [assumption | apply eq_path_true; reflexivity].
Qed.

Lemma remove_first_subset (path : str) (paths : list value) (v : value) :
  In v (remove_first path paths) -> In v paths.
Proof.
  induction paths as [|w paths IH]; simpl; [tauto|].
  destruct (eq_path path w); simpl; intuition.
Qed.

Lemma remove_first_NoDup (path : str) (paths : list value) :
  NoDup paths -> NoDup (remove_first path paths).
Proof.
  induction 1 as [|w paths Hw Hnd IH]; simpl; [constructor|].
  destruct (eq_path path w); [assumption|].
  constructor; [|assumption].
  intros Hin. apply Hw. eapply remove_first_subset; eassumption.
Qed.

Lemma remove_first_not_In (path : str) (paths : list value) :
  NoDup paths -> ~ In (Str path) (remove_first path paths).
Proof.
  induction 1 as [|w paths Hw Hnd IH]; simpl; [tauto|].
  destruct (eq_path path w) eqn:E.
  - apply eq_path_true in E. subst. assumption.
  - simpl. intros [H|H]; [|contradiction].
    subst. rewrite (proj2 (eq_path_true path (Str path)) eq_refl) in E. discriminate.
Qed.

Lemma remove_first_length (path : str) (paths : list value) :
  length (remove_first path paths) <= length paths.
Proof.
  induction paths as [|w paths IH]; simpl; [lia|].
  destruct (eq_path path w); simpl; lia.
Qed.

Lemma firstn_subset {A} (n : nat) (l : list A) (x : A) :
  In x (firstn n l) -> In x l.
Proof.
  revert n; induction l as [|y l IH]; intros [|n]; simpl; try tauto.
  intros [H|H]; [left; assumption | right; eapply IH; eassumption].
Qed.

Lemma firstn_NoDup {A} (n : nat) (l : list A) : NoDup l -> NoDup (firstn n l).
Proof.
  intros H; revert n; induction H as [|x l Hx Hnd IH]; intros [|n]; simpl;
    try constructor; auto.
  intros Hin. apply Hx. eapply firstn_subset; eassumption.
Qed.

End PathHistory.

(** ** Recovery on concrete responses *)
Module Recovery.
Import Json Py OpenRouter Texts.

(** Whenever the stripped text starts with an opening brace, method 1
    evaluates the unbound local [re] and the call ends in the handler of
    line 290. *)
Lemma method1_unbound_local (content : str) :
  startswith (strip content) [Chr.LBRACE] = true ->
  recover content = Raise UnboundLocalError
  /\ save_project_files content = Failed UnboundLocalError.
Proof.
  intros H. unfold save_project_files, recover, call, parse_response, method1, bind.
  rewrite H. split; reflexivity.
Qed.

(** C2.  The document of a well-formed descriptor is not returned: the
    call raises [UnboundLocalError] in method 1 and returns [False]. *)
Theorem well_formed_document_raises :
  loads demo_document = Some demo
  /\ recover demo_document = Raise UnboundLocalError
  /\ save_project_files demo_document = Failed UnboundLocalError.
Proof. vm_compute. repeat split. Qed.

(** C3.  On the truncated example the call raises [UnboundLocalError];
    the fixes themselves give a text that is not JSON, both for the
    example as printed and for the document cut inside its string. *)
Theorem truncated_example_raises :
  recover demo_truncated = Raise UnboundLocalError
  /\ fix_common_issues demo_truncated
     = tx "{'project_name': 'demo', 'files': [{'path': 'a.py', 'content': 'print(1)''}}]"
  /\ loads (fix_common_issues demo_truncated) = None
  /\ fix_common_issues demo_cut_in_string
     = tx "{'project_name': 'demo', 'files': [{'path': 'a.py', 'content': 'print(1)'}}]"
  /\ loads (fix_common_issues demo_cut_in_string) = None.
Proof. vm_compute. repeat split. Qed.

(** C7.  The repair of stage 1 never produces a text.  Stage 1 is
    entered when the stripped text starts with an opening brace, and
    on every such text, whatever its counts of braces and brackets,
    method 1 raises [UnboundLocalError] at the first [re.sub], before
    any closing character is appended; the error is not a
    [JSONDecodeError], so the call ends in the handler of line 290 and
    returns [False]. *)
Theorem stage1_repair_never_runs (content : str) :
  startswith (strip content) [Chr.LBRACE] = true ->
  call (method1 content Null) = Raise UnboundLocalError
  /\ recover content = Raise UnboundLocalError
  /\ save_project_files content = Failed UnboundLocalError.
Proof.
  intros H. unfold save_project_files, recover, call, parse_response, method1, bind.
  rewrite H. repeat split.
Qed.

(** The document cut inside its last string has more opening than
    closing braces and brackets, and stage 1 is entered on it. *)
Lemma stage1_repair_never_runs_witness :
  (count Chr.RBRACE demo_cut_in_string < count Chr.LBRACE demo_cut_in_string
   /\ count Chr.RBRACKET demo_cut_in_string < count Chr.LBRACKET demo_cut_in_string)
  /\ call (method1 demo_cut_in_string Null) = Raise UnboundLocalError
  /\ recover demo_cut_in_string = Raise UnboundLocalError
  /\ save_project_files demo_cut_in_string = Failed UnboundLocalError.
Proof.
  split; [vm_compute; split; repeat constructor|].
  apply (@stage1_repair_never_runs demo_cut_in_string). reflexivity.
Defined.

(** C5.  A fenced block holding a well-formed descriptor is found by
    method 2 and spoiled by the fixes: the quote pattern also matches
    at the last quote of a closed string.  With a non-empty files array
    method 3 rebuilds the descriptor; with an empty one nothing is
    recovered. *)
Theorem fenced_descriptor_not_extracted :
  Re.findall Pat.code_block (fenced demo_document) = [demo_document]
  /\ loads demo_document = Some demo
  /\ fix_common_issues demo_document = demo_document ++ [Chr.DQUOTE]
  /\ first_block [demo_document] = None
  /\ recover (fenced demo_document) = Return (Some demo)
  /\ loads empty_project_document = Some (descriptor (tx "demo") [])
  /\ recover (fenced empty_project_document) = Return None
  /\ save_project_files (fenced empty_project_document) = NoProjectData.
Proof. vm_compute. repeat split. Qed.

(** C8.  The descriptor recovered from a files array serializes to a
    text that starts with a brace; running the routine on that text
    raises in method 1. *)
Theorem rerun_on_serialized_output_raises :
  recover files_only
  = Return (Some (descriptor generated_project [entry (tx "a.py") (tx "print(1)")]))
  /\ dumps None (descriptor generated_project [entry (tx "a.py") (tx "print(1)")])
     = tx "{'project_name': 'generated_project', 'files': [{'path': 'a.py', 'content': 'print(1)'}]}"
  /\ recover (dumps None (descriptor generated_project
                            [entry (tx "a.py") (tx "print(1)")]))
     = Raise UnboundLocalError.
Proof. vm_compute. repeat split. Qed.




(** Counterexample to C9: a Moonshot result that is valid JSON and is
    rejected by the parse of [generate_code]. *)
Lemma moonshot_result_rejected_by_caller :
  Moonshot.send_prd_request (Some (reply (fenced two_objects))) (tx "MyProject")
  = Some two_objects
  /\ loads two_objects
     = Some (Arr [Obj [(tx "a", Int 1)]; Obj [(tx "b", Int 2)]])
  /\ App.parse_response two_objects = App.ParseFailure.
Proof. vm_compute. repeat split. Qed.




End Recovery.

(** ** The matcher finds only texts of the pattern *)
Module ReFacts.
Import Re.

Lemma orelse_Some {A} (x y : option A) (v : A) :
  orelse x y = Some v -> x = Some v \/ y = Some v.
Proof. destruct x; simpl; auto. Qed.

Lemma steps_refl (p : pos) : steps p [] p.
Proof. split; reflexivity. Qed.

Lemma steps_trans (p q r : pos) (u v : str) :
  steps p u q -> steps q v r -> steps p (u ++ v) r.
Proof.
  intros [H1 H2] [H3 H4]. split.
  - rewrite H1, H3, app_assoc. reflexivity.
  - rewrite H4, H2, rev_app_distr, app_assoc. reflexivity.
Qed.

Lemma steps_between (p q : pos) (w : str) : steps p w q -> between p q = w.
Proof.
  intros [H _]. unfold between. rewrite H, length_app.
  replace (length w + length (ahead q) - length (ahead q)) with (length w + 0) by lia.
  rewrite firstn_app_2. simpl. apply app_nil_r.
Qed.

Section Sound.
Variable A : Type.

Lemma star_loop_sound (a : regex) (greedy : bool) :
  sound_at A a ->
  forall (k : pos -> captures -> option A) (n : nat) (p : pos) (caps : captures) (res : A),
    star_loop (rmatch a) greedy k n p caps = Some res ->
    exists w q caps', lang (Star greedy a) w /\ steps p w q /\ k q caps' = Some res.
Proof.
  intros Ha k n. induction n as [|n IH]; intros p caps res H; simpl in H.
  - exists [], p, caps. split; [exists []; split; [reflexivity | constructor]|].
    split; [apply steps_refl | assumption].
  - assert (Hcases :
      rmatch a p caps
        (fun q caps' => if length (ahead q) <? length (ahead p)
                        then star_loop (rmatch a) greedy k n q caps' else None)
      = Some res \/ k p caps = Some res).
    { destruct greedy; apply orelse_Some in H; tauto. }
    destruct Hcases as [Hmore | Hstop].
    + apply Ha in Hmore. destruct Hmore as (u & q & caps1 & Hu & Hs & Hk).
      destruct (length (ahead q) <? length (ahead p)); [|discriminate].
      apply IH in Hk. destruct Hk as (v & q' & caps2 & (l & -> & Hl) & Hs' & Hk).
      exists (u ++ concat l), q', caps2.
      split; [exists (u :: l); split; [reflexivity | constructor; assumption]|].
      split; [eapply steps_trans; eassumption | assumption].
    + exists [], p, caps. split; [exists []; split; [reflexivity | constructor]|].
      split; [apply steps_refl | assumption].
Qed.

Lemma rmatch_sound (r : regex) : sound_at A r.
Proof.
  induction r as [| f | a IHa b IHb | a IHa b IHb | greedy a IHa | n a IHa | | f];
    intros p caps k res H; simpl in H.
  - exists [], p, caps. repeat split; assumption.
  - destruct p as [bh [|c rest]]; simpl in H; [discriminate|].
    destruct (f c) eqn:Ef; [|discriminate].
    exists [c], (Pos (c :: bh) rest), caps.
    split; [exists c; auto|]. split; [split; reflexivity | assumption].
  - apply IHa in H. destruct H as (u & q & caps1 & Hu & Hs & H).
    apply IHb in H. destruct H as (v & q' & caps2 & Hv & Hs' & H).
    exists (u ++ v), q', caps2.
    split; [exists u, v; auto|]. split; [eapply steps_trans; eassumption | assumption].
  - apply orelse_Some in H. destruct H as [H|H].
    + apply IHa in H. destruct H as (u & q & caps1 & Hu & Hs & H).
      exists u, q, caps1. simpl; auto.
    + apply IHb in H. destruct H as (u & q & caps1 & Hu & Hs & H).
      exists u, q, caps1. simpl; auto.
  - eapply star_loop_sound; eassumption.
  - apply IHa in H. destruct H as (u & q & caps1 & Hu & Hs & H).
    exists u, q, ((n, between p q) :: caps1). auto.
  - exists [], p, caps. split; [reflexivity|]. split; [apply steps_refl|].
    destruct (ahead p) as [|c rest]; [assumption|].
    destruct (N.eqb c Chr.LF); [assumption | discriminate].
  - exists [], p, caps. split; [reflexivity|]. split; [apply steps_refl|].
    destruct (behind p) as [|c rest]; [assumption|].
    destruct (f c); [discriminate | assumption].
Qed.
End Sound.

(** A match at [p] ends at a position reached through a text of the
    pattern. *)
Lemma match_at_sound (r : regex) (p q : pos) (caps : captures) :
  match_at r p = Some (q, caps) -> exists w, lang r w /\ steps p w q.
Proof.
  intros H. apply rmatch_sound in H. destruct H as (w & q' & caps' & Hw & Hs & H).
  injection H as -> _. eauto.
Qed.

(** *** Substitution and the number of occurrences of a character *)

Lemma firstn_own_length {A} (n : nat) (l : list A) :
  firstn (length (firstn n l)) l = firstn n l.
Proof.
  rewrite length_firstn. destruct (Nat.le_ge_cases n (length l)) as [H|H].
  - rewrite Nat.min_l by assumption. reflexivity.
  - rewrite Nat.min_r by assumption.
    rewrite firstn_all, firstn_all2 by assumption. reflexivity.
Qed.

Lemma count_firstn_skipn (c : char) (n : nat) (s : str) :
  count c (firstn n s) + count c (skipn n s) = count c s.
Proof. rewrite <- count_app, firstn_skipn. reflexivity. Qed.

(** If every replacement has as many [c] as the text it replaces, the
    pieces of a scan have as many [c] as the text scanned. *)
Lemma scan_count (r : regex) (repl : result -> str) (c : char) :
  (forall p q caps, match_at r p = Some (q, caps) ->
                    count c (repl (q, caps)) = count c (between p q)) ->
  forall (a : str) (skip : nat) (b : str),
    count c (pieces_text repl (scan r skip b a)) = count c (skipn skip a).
Proof.
  intros Hrepl. unfold pieces_text.
  induction a as [|x a IH]; intros skip b.
  - destruct skip; simpl; [|reflexivity].
    destruct (match_at r (Pos b [])) as [[q caps]|] eqn:E; simpl; [|reflexivity].
    rewrite app_nil_r, (Hrepl _ _ _ E). unfold between. cbn [ahead].
    rewrite firstn_nil. reflexivity.
  - destruct skip as [|skip]; [|simpl; apply IH].
    cbn [scan skipn].
    destruct (match_at r (Pos b (x :: a))) as [[q caps]|] eqn:E.
    + cbn [map concat]. rewrite count_app, (Hrepl _ _ _ E).
      destruct (length (between (Pos b (x :: a)) q)) as [|l] eqn:El.
      * apply length_zero_iff_nil in El. rewrite El.
        cbn [map concat]. rewrite count_app, (IH 0 (x :: b)). simpl. lia.
      * rewrite (IH l (x :: b)).
        unfold between in El |- *. cbn [ahead] in El |- *.
        rewrite <- firstn_own_length, El.
        apply (count_firstn_skipn c (S l) (x :: a)).
    + cbn [map concat]. rewrite count_app, (IH 0 (x :: b)). simpl. lia.
Qed.

Lemma sub_count (r : regex) (repl : result -> str) (c : char) (s : str) :
  (forall p q caps, match_at r p = Some (q, caps) ->
                    count c (repl (q, caps)) = count c (between p q)) ->
  count c (sub r repl s) = count c s.
Proof. intros H. apply (@scan_count r repl c H s 0 []). Qed.

Lemma lang_star_cls (greedy : bool) (f : char -> bool) (w : str) :
  lang (Star greedy (Cls f)) w -> Forall (fun c => f c = true) w.
Proof.
  intros (l & -> & Hl). induction Hl as [|u l (c & -> & Hc) _ IH]; simpl.
  - constructor.
  - constructor; assumption.
Qed.

Lemma count_none (c : char) (f : char -> bool) (w : str) :
  f c = false -> Forall (fun x => f x = true) w -> count c w = 0.
Proof.
  intros Hc. induction 1 as [|x w Hx _ IH]; simpl; [reflexivity|].
  destruct (N.eqb_spec x c); [congruence | assumption].
Qed.

(** A text matched by a comma, white space and a closing character has
    as many [c] as the closing character alone, for any [c] that is
    neither a comma nor white space. *)
Lemma comma_space_count (closing c : char) (p q : pos) (caps : captures) :
  c <> Chr.COMMA -> is_space c = false ->
  match_at (seqs [chr Chr.COMMA; ws; chr closing]) p = Some (q, caps) ->
  count c [closing] = count c (between p q).
Proof.
  intros Hcomma Hspace H. apply match_at_sound in H.
  destruct H as (w & Hw & Hs). rewrite (steps_between Hs).
  destruct Hw as (u & v & -> & (x & -> & Hx) & (u' & v' & -> & Hu' & (y & -> & Hy))).
  apply N.eqb_eq in Hx, Hy. subst x y.
  apply lang_star_cls in Hu'.
  rewrite !count_app, (count_none c is_space Hspace Hu'). cbn [count].
  destruct (N.eqb_spec Chr.COMMA c); [congruence | lia].
Qed.

(** When a group is followed by the lookbehind and [$] only, the group
    holds the whole match. *)
Lemma group_is_match (n : nat) (a : regex) (f : char -> bool) (p q : pos)
      (caps : captures) :
  match_at (seqs [Group n a; NotBehind f; Eol]) p = Some (q, caps) ->
  group n caps = Some (between p q).
Proof.
  unfold match_at. cbn [seqs rmatch]. intros H.
  apply rmatch_sound in H. destruct H as (w & q' & caps' & _ & _ & H).
  assert (E : Some (q', (n, between p q') :: caps') = Some (q, caps)).
  { destruct (behind q') as [|c ?]; [|destruct (f c); [discriminate|]];
      (destruct (ahead q') as [|d ?]; [|destruct (N.eqb d Chr.LF); [|discriminate]]);
      exact H. }
  injection E as <- <-. simpl. rewrite Nat.eqb_refl. reflexivity.
Qed.

Lemma close_quote_count (c : char) (p q : pos) (caps : captures) :
  c <> Chr.DQUOTE ->
  match_at Pat.unterminated p = Some (q, caps) ->
  count c (Pat.close_quote (q, caps)) = count c (between p q).
Proof.
  intros Hc H. apply group_is_match in H.
  unfold Pat.close_quote. cbn [snd]. rewrite H, count_app. cbn [count].
  destruct (N.eqb_spec Chr.DQUOTE c); [congruence | lia].
Qed.
End ReFacts.

(** ** Running the matcher on texts of a known shape *)
Module ReRun.
Import Re.

Section Run.
Variable A : Type.
Implicit Types (k : pos -> captures -> option A) (caps : captures).

Lemma rmatch_chr (c : char) (b rest : str) caps k :
  rmatch (chr c) (Pos b (c :: rest)) caps k = k (Pos (c :: b) rest) caps.
Proof. simpl. unfold only. rewrite N.eqb_refl. reflexivity. Qed.

Lemma rmatch_lit (t b rest : str) caps k :
  rmatch (lit t) (Pos b (t ++ rest)) caps k = k (Pos (rev t ++ b) rest) caps.
Proof.
  revert b; induction t as [|c t IH]; intros b; [reflexivity|].
  cbn [lit rmatch app]. fold (chr c). 
  change (rmatch (chr c) (Pos b (c :: t ++ rest)) caps
            (fun q caps' => rmatch (lit t) q caps' k)
          = k (Pos (rev (c :: t) ++ b) rest) caps).
  rewrite rmatch_chr, IH. simpl. rewrite <- app_assoc. reflexivity.
Qed.

(** Greedy white space takes the whole run when the continuation
    accepts what follows. *)
Lemma star_space_all (w b rest : str) caps k (res : A) (n : nat) :
  Forall (fun c => is_space c = true) w ->
  no_space_ahead rest ->
  length w <= n ->
  k (Pos (rev w ++ b) rest) caps = Some res ->
  star_loop (rmatch (Cls is_space)) true k n (Pos b (w ++ rest)) caps = Some res.
Proof.
  intros Hw Hrest. revert b n. induction Hw as [|c w Hc _ IH]; intros b n Hn Hk.
  - destruct n as [|n]; [exact Hk|]. cbn [star_loop rmatch ahead app].
    destruct rest as [|d rest]; [exact Hk|].
    simpl in Hrest. rewrite Hrest. exact Hk.
  - destruct n as [|n]; [simpl in Hn; lia|].
    cbn [star_loop rmatch ahead app]. rewrite Hc. cbn [ahead behind].
    replace (length (w ++ rest) <? length (c :: w ++ rest)) with true
      by (symmetry; apply Nat.ltb_lt; simpl; lia).
    rewrite IH; [reflexivity | simpl in Hn; lia |].
    simpl in Hk. rewrite <- app_assoc in Hk. exact Hk.
Qed.

Lemma rmatch_ws (w b rest : str) caps k (res : A) :
  Forall (fun c => is_space c = true) w ->
  no_space_ahead rest ->
  k (Pos (rev w ++ b) rest) caps = Some res ->
  rmatch ws (Pos b (w ++ rest)) caps k = Some res.
Proof.
  intros Hw Hrest Hk. unfold ws. cbn [rmatch ahead].
  apply star_space_all; try assumption. rewrite length_app. lia.
Qed.

(** Greedy [[\s\S]*]: when the continuation fails at every position
    ahead, the repetition fails. *)
Lemma star_any_none (v b : str) caps k (n : nat) :
  (forall v1 v2, v = v1 ++ v2 -> k (Pos (rev v1 ++ b) v2) caps = None) ->
  star_loop (rmatch any) true k n (Pos b v) caps = None.
Proof.
  revert b n. induction v as [|x v IH]; intros b n Hk.
  - destruct n; simpl; apply (Hk [] []); reflexivity.
  - destruct n as [|n]; [apply (Hk [] (x :: v)); reflexivity|].
    cbn [star_loop rmatch any ahead behind].
    replace (length v <? length (x :: v)) with true
      by (symmetry; apply Nat.ltb_lt; simpl; lia).
    rewrite IH.
    + simpl. apply (Hk [] (x :: v)). reflexivity.
    + intros v1 v2 E. specialize (Hk (x :: v1) v2). simpl in Hk.
      rewrite <- app_assoc in Hk. apply Hk. rewrite E. reflexivity.
Qed.

(** It stops at the last position where the continuation succeeds. *)
Lemma star_any_last (u v b : str) caps k (res : A) (n : nat) :
  length u <= n ->
  k (Pos (rev u ++ b) v) caps = Some res ->
  (forall x v1 v2, v = x :: v1 ++ v2 ->
                   k (Pos (rev (u ++ x :: v1) ++ b) v2) caps = None) ->
  star_loop (rmatch any) true k n (Pos b (u ++ v)) caps = Some res.
Proof.
  revert b n. induction u as [|y u IH]; intros b n Hn Hk Hlater.
  - destruct n as [|n]; [exact Hk|].
    destruct v as [|x v]; [exact Hk|].
    cbn [star_loop rmatch any ahead behind app].
    replace (length v <? length (x :: v)) with true
      by (symmetry; apply Nat.ltb_lt; simpl; lia).
    rewrite star_any_none; [exact Hk|].
    intros v1 v2 E. specialize (Hlater x v1 v2). simpl in Hlater.
    rewrite <- app_assoc in Hlater. apply Hlater. rewrite E. reflexivity.
  - destruct n as [|n]; [simpl in Hn; lia|].
    cbn [star_loop rmatch any ahead behind app].
    replace (length (u ++ v) <? length (y :: u ++ v)) with true
      by (symmetry; apply Nat.ltb_lt; simpl; lia).
    rewrite IH; [reflexivity | simpl in Hn; lia | |].
    + simpl in Hk. rewrite <- app_assoc in Hk. exact Hk.
    + intros x v1 v2 E. specialize (Hlater x v1 v2 E).
      simpl in Hlater. rewrite <- app_assoc in Hlater. exact Hlater.
Qed.
End Run.

Lemma search_from_found (r : regex) (b a : str) (res : result) :
  match_at r (Pos b a) = Some res -> search_from r b a = Some (Pos b a, res).
Proof. intros H. destruct a; simpl; rewrite H; reflexivity. Qed.
End ReRun.

(** ** The fixes balance braces and brackets *)
Module Repair.
Import OpenRouter ReFacts.

Lemma close_open_appends (opening closing : char) (s : str) :
  close_open opening closing s
  = s ++ repeat closing (count opening s - count closing s).
Proof.
  unfold close_open.
  destruct (Z.ltb_spec 0 (Z.of_nat (count opening s) - Z.of_nat (count closing s))) as [H|H].
  - f_equal. f_equal. lia.
  - replace (count opening s - count closing s) with 0 by lia.
    simpl. rewrite app_nil_r. reflexivity.
Qed.

(** The three substitutions neither add nor remove a character other
    than quotes, commas and white space. *)
Lemma fix_strings_and_commas_count (c : char) (s : str) :
  c <> Chr.DQUOTE -> c <> Chr.COMMA -> is_space c = false ->
  count c (fix_strings_and_commas s) = count c s.
Proof.
  intros Hq Hc Hs. unfold fix_strings_and_commas.
  rewrite sub_count by (intros p q caps; apply comma_space_count; assumption).
  rewrite sub_count by (intros p q caps; apply comma_space_count; assumption).
  apply sub_count. intros p q caps. apply close_quote_count; assumption.
Qed.

(** X24.  The fixes as method 2 applies them to a fenced block (lines
    192-205): on a text with at least as many opening as closing braces
    and at least as many opening as closing brackets, they append
    exactly the missing closing braces and then the missing closing
    brackets, and the result has as many closing as opening braces and
    as many closing as opening brackets. *)
Theorem fix_common_issues_balances (s : str) :
  count Chr.RBRACE s <= count Chr.LBRACE s ->
  count Chr.RBRACKET s <= count Chr.LBRACKET s ->
  fix_common_issues s
  = fix_strings_and_commas s
    ++ repeat Chr.RBRACE (count Chr.LBRACE s - count Chr.RBRACE s)
    ++ repeat Chr.RBRACKET (count Chr.LBRACKET s - count Chr.RBRACKET s)
  /\ count Chr.LBRACE (fix_common_issues s) = count Chr.RBRACE (fix_common_issues s)
  /\ count Chr.LBRACKET (fix_common_issues s) = count Chr.RBRACKET (fix_common_issues s).
Proof.
  intros Hbrace Hbracket.
  assert (E : fix_common_issues s
              = fix_strings_and_commas s
                ++ repeat Chr.RBRACE (count Chr.LBRACE s - count Chr.RBRACE s)
                ++ repeat Chr.RBRACKET (count Chr.LBRACKET s - count Chr.RBRACKET s)).
  { unfold fix_common_issues. rewrite !close_open_appends, !count_app.
    rewrite !fix_strings_and_commas_count by (try discriminate; reflexivity).
    rewrite (@count_repeat_other Chr.LBRACKET Chr.RBRACE) by discriminate.
    rewrite (@count_repeat_other Chr.RBRACKET Chr.RBRACE) by discriminate.
    rewrite <- app_assoc. repeat f_equal; lia. }
  split; [exact E|]. rewrite E, !count_app.
  rewrite !fix_strings_and_commas_count by (try discriminate; reflexivity).
  rewrite !count_repeat_same.
  rewrite (@count_repeat_other Chr.LBRACE Chr.RBRACE) by discriminate.
  rewrite (@count_repeat_other Chr.LBRACE Chr.RBRACKET) by discriminate.
  rewrite (@count_repeat_other Chr.RBRACE Chr.RBRACKET) by discriminate.
  rewrite (@count_repeat_other Chr.LBRACKET Chr.RBRACE) by discriminate.
  rewrite (@count_repeat_other Chr.LBRACKET Chr.RBRACKET) by discriminate.
  rewrite (@count_repeat_other Chr.RBRACKET Chr.RBRACE) by discriminate.
  lia.
Qed.

Lemma fix_common_issues_balances_witness :
  count Chr.RBRACE Texts.demo_cut_in_string <= count Chr.LBRACE Texts.demo_cut_in_string
  /\ count Chr.RBRACKET Texts.demo_cut_in_string
     <= count Chr.LBRACKET Texts.demo_cut_in_string
  /\ count Chr.LBRACE (fix_common_issues Texts.demo_cut_in_string)
     = count Chr.RBRACE (fix_common_issues Texts.demo_cut_in_string)
  /\ count Chr.LBRACKET (fix_common_issues Texts.demo_cut_in_string)
     = count Chr.RBRACKET (fix_common_issues Texts.demo_cut_in_string).
Proof.
  assert (H1 : count Chr.RBRACE Texts.demo_cut_in_string
               <= count Chr.LBRACE Texts.demo_cut_in_string) by (vm_compute; lia).
  assert (H2 : count Chr.RBRACKET Texts.demo_cut_in_string
               <= count Chr.LBRACKET Texts.demo_cut_in_string) by (vm_compute; lia).
  split; [exact H1|]. split; [exact H2|].
  exact (proj2 (fix_common_issues_balances Texts.demo_cut_in_string H1 H2)).
Defined.
End Repair.

(** ** Method 3 on a bare files array *)
Module FilesOnly.
Import Json Py OpenRouter Re ReFacts ReRun Texts.



Lemma count_zero_head (c x : char) (s : str) : count c (x :: s) = 0 -> x <> c.
Proof. simpl. destruct (N.eqb_spec x c); [discriminate | auto]. Qed.

Lemma count_zero_app_r (c : char) (s t : str) : count c (s ++ t) = 0 -> count c t = 0.
Proof. rewrite count_app. lia. Qed.



End FilesOnly.

(** ** [json.loads] always has fuel *)
Module Fuel.
Import Json.

Lemma skip_ws_length (s : str) : length (skip_ws s) <= length s.
Proof.
  induction s as [|c s IH]; simpl; [lia|].
  destruct (is_json_space c); simpl; lia.
Qed.

Lemma strip_prefix_length (p s r : str) :
  strip_prefix p s = Some r -> length s = length p + length r.
Proof.
  revert s; induction p as [|a p IH]; intros [|b s]; simpl; intros H;
    try discriminate; try (injection H as <-; reflexivity).
  destruct (N.eqb a b); [|discriminate]. rewrite (IH _ H). reflexivity.
Qed.

Lemma span_digits_length (s d r : str) :
  span_digits s = (d, r) -> length s = length d + length r.
Proof.
  revert d r; induction s as [|c s IH]; simpl; intros d r H.
  - injection H as <- <-. reflexivity.
  - destruct (is_digit c).
    + destruct (span_digits s) as [d' r'] eqn:E. injection H as <- <-.
      simpl. rewrite (IH _ _ eq_refl). reflexivity.
    + injection H as <- <-. reflexivity.
Qed.

Lemma number_sign_length (s sign r : str) :
  number_sign s = (sign, r) -> length r <= length s.
Proof.
  destruct s as [|c s]; simpl; [intros H; injection H as _ <-; simpl; lia|].
  destruct (N.eqb c Chr.MINUS); intros H; injection H as _ <-; simpl; lia.
Qed.

Lemma number_int_length (s d r : str) :
  number_int s = Some (d, r) -> length r < length s.
Proof.
  destruct s as [|c s]; simpl; [discriminate|].
  destruct (N.eqb c Chr.ZERO); [intros H; injection H as _ <-; lia|].
  destruct (is_digit c); [|discriminate].
  destruct (span_digits s) as [d' r'] eqn:E. intros H; injection H as _ <-.
  apply span_digits_length in E. lia.
Qed.

Lemma number_frac_length (s f r : str) :
  number_frac s = (f, r) -> length r <= length s.
Proof.
  destruct s as [|p [|d s]]; simpl; try (intros H; injection H as _ <-; simpl; lia).
  destruct (N.eqb p Chr.DOT && is_digit d); [|intros H; injection H as _ <-; simpl; lia].
  destruct (span_digits s) as [d' r'] eqn:E. intros H; injection H as _ <-.
  apply span_digits_length in E. lia.
Qed.

Lemma number_exp_length (s e r : str) :
  number_exp s = (e, r) -> length r <= length s.
Proof.
  destruct s as [|c s]; simpl; [intros H; injection H as _ <-; simpl; lia|].
  destruct (N.eqb c 101 || N.eqb c 69); [|intros H; injection H as _ <-; simpl; lia].
  assert (Hsign : forall sg t,
             match s with
             | g :: t => if N.eqb g Chr.MINUS || N.eqb g Chr.PLUS
                         then ([g], t) else ([], s)
             | [] => ([], s)
             end = (sg, t) -> length t <= length s).
  { intros sg t. destruct s as [|g s'].
    - intros H; injection H as _ <-; lia.
    - destruct (N.eqb g Chr.MINUS || N.eqb g Chr.PLUS);
        intros H; injection H as _ <-; simpl; lia. }
  destruct (match s with
            | g :: t => if N.eqb g Chr.MINUS || N.eqb g Chr.PLUS
                        then ([g], t) else ([], s)
            | [] => ([], s)
            end) as [sg t] eqn:Esg.
  specialize (Hsign sg t eq_refl).
  destruct (span_digits t) as [ds r'] eqn:E. apply span_digits_length in E.
  destruct ds; intros H; injection H as _ <-; simpl in *; lia.
Qed.

Lemma match_number_length (s i f e r : str) :
  match_number s = Some (i, f, e, r) -> length r < length s.
Proof.
  unfold match_number.
  destruct (number_sign s) as [sign s1] eqn:E1. apply number_sign_length in E1.
  destruct (number_int s1) as [[digits s2]|] eqn:E2; [|discriminate].
  apply number_int_length in E2.
  destruct (number_frac s2) as [frac s3] eqn:E3. apply number_frac_length in E3.
  destruct (number_exp s3) as [exp s4] eqn:E4. apply number_exp_length in E4.
  intros H; injection H as _ _ _ <-. lia.
Qed.

Lemma literal_length (word : str) (v w : value) (s r : str) :
  word <> [] -> literal word v s = Scanned w r -> length r < length s.
Proof.
  intros Hw. unfold literal.
  destruct (strip_prefix word s) as [rest|] eqn:E; [|discriminate].
  intros H; injection H as _ <-. apply strip_prefix_length in E.
  destruct word; [congruence | simpl in E; lia].
Qed.

Lemma scan_number_length (s r : str) (v : value) :
  scan_number s = Scanned v r -> length r < length s.
Proof.
  unfold scan_number.
  destruct (match_number s) as [[[[i f] e] rest]|] eqn:E.
  - apply match_number_length in E.
    destruct f, e; intros H; injection H as _ <-; assumption.
  - destruct (strip_prefix (tx "NaN") s) as [rest|] eqn:E1.
    { intros H; injection H as _ <-. apply strip_prefix_length in E1.
      simpl in E1. lia. }
    destruct (strip_prefix (tx "Infinity") s) as [rest|] eqn:E2.
    { intros H; injection H as _ <-. apply strip_prefix_length in E2.
      simpl in E2. lia. }
    apply literal_length. discriminate.
Qed.

Lemma scanstring_length (n : nat) :
  forall (s acc t r : str),
    length s <= n -> scanstring s acc = Some (t, r) -> length r < length s.
Proof.
  induction n as [|n IH]; intros s acc t r Hlen H.
  { destruct s; [discriminate | simpl in Hlen; lia]. }
  destruct s as [|c s]; [discriminate|]. cbn [scanstring] in H.
  destruct (N.eqb c Chr.DQUOTE); [injection H as _ <-; simpl; lia|].
  destruct (N.eqb c Chr.BACKSLASH).
  - destruct s as [|e s]; [discriminate|].
    destruct (N.eqb e 117).
    + destruct s as [|h1 [|h2 [|h3 [|h4 s]]]]; try discriminate.
      destruct (hex4 h1 h2 h3 h4) as [u|]; [|discriminate].
      assert (Hsingle : forall a, scanstring s a = Some (t, r) ->
                                  length r < length (c :: e :: h1 :: h2 :: h3 :: h4 :: s)).
      { intros a Ha. apply IH in Ha; simpl in *; lia. }
      destruct (is_high_surrogate u); [|eapply Hsingle; eassumption].
      destruct s as [|b [|u' [|g1 [|g2 [|g3 [|g4 s']]]]]];
        try (eapply Hsingle; eassumption).
      destruct (N.eqb b Chr.BACKSLASH && N.eqb u' 117);
        [|eapply Hsingle; eassumption].
      destruct (hex4 g1 g2 g3 g4) as [u2|]; [|discriminate].
      destruct (is_low_surrogate u2); [|eapply Hsingle; eassumption].
      apply IH in H; simpl in *; lia.
    + destruct (unescape e); [|discriminate].
      apply IH in H; simpl in *; lia.
  - destruct (c <=? 31)%N; [discriminate|].
    apply IH in H; simpl in *; lia.
Qed.

Lemma scanstring_shorter (s acc t r : str) :
  scanstring s acc = Some (t, r) -> length r < length s.
Proof. apply (@scanstring_length (length s)). apply le_n. Qed.

(** A value scanned takes at least one character. *)
Lemma scan_progress (fuel : nat) :
  (forall s v r, scan_once fuel s = Scanned v r -> length r < length s)
  /\ (forall s acc v r, array_items fuel s acc = Scanned v r -> length r < length s)
  /\ (forall s acc v r, object_items fuel s acc = Scanned v r -> length r < length s).
Proof.
  induction fuel as [|fuel (IH1 & IH2 & IH3)]; [repeat split; discriminate|].
  split; [|split].
  - intros [|c s] v r H; [discriminate|]. cbn [scan_once] in H.
    destruct (N.eqb c Chr.DQUOTE).
    { destruct (scanstring s []) as [[t rest]|] eqn:E; [|discriminate].
      injection H as _ <-. apply scanstring_shorter in E. simpl. lia. }
    destruct (N.eqb c Chr.LBRACE).
    { pose proof (skip_ws_length s) as Hws.
      destruct (skip_ws s) as [|d s'']; [discriminate|]. simpl in Hws.
      destruct (N.eqb d Chr.RBRACE); [injection H as _ <-; simpl; lia|].
      destruct (N.eqb d Chr.DQUOTE); [|discriminate].
      apply IH3 in H. simpl. lia. }
    destruct (N.eqb c Chr.LBRACKET).
    { pose proof (skip_ws_length s) as Hws.
      destruct (skip_ws s) as [|d s'']; [discriminate|]. simpl in Hws.
      destruct (N.eqb d Chr.RBRACKET); [injection H as _ <-; simpl; lia|].
      apply IH2 in H. simpl in *. lia. }
    destruct (N.eqb c 110); [apply literal_length in H; [assumption | discriminate]|].
    destruct (N.eqb c 116); [apply literal_length in H; [assumption | discriminate]|].
    destruct (N.eqb c 102); [apply literal_length in H; [assumption | discriminate]|].
    apply scan_number_length in H. assumption.
  - intros s acc v r H. cbn [array_items] in H.
    destruct (scan_once fuel s) as [w rest| |] eqn:E; try discriminate.
    apply IH1 in E. pose proof (skip_ws_length rest) as Hws.
    destruct (skip_ws rest) as [|d rest']; [discriminate|]. simpl in Hws.
    destruct (N.eqb d Chr.RBRACKET); [injection H as _ <-; lia|].
    destruct (N.eqb d Chr.COMMA); [|discriminate].
    apply IH2 in H. pose proof (skip_ws_length rest'). lia.
  - intros s acc v r H. cbn [object_items] in H.
    destruct (scanstring s []) as [[key rest]|] eqn:E; [|discriminate].
    apply scanstring_shorter in E. pose proof (skip_ws_length rest) as Hws.
    destruct (skip_ws rest) as [|c rest1]; [discriminate|]. simpl in Hws.
    destruct (N.eqb c Chr.COLON); [|discriminate].
    destruct (scan_once fuel (skip_ws rest1)) as [w rest2| |] eqn:E2; try discriminate.
    apply IH1 in E2. pose proof (skip_ws_length rest1) as Hws1.
    pose proof (skip_ws_length rest2) as Hws2.
    destruct (skip_ws rest2) as [|d rest3]; [discriminate|]. simpl in Hws2.
    destruct (N.eqb d Chr.RBRACE); [injection H as _ <-; lia|].
    destruct (N.eqb d Chr.COMMA); [|discriminate].
    pose proof (skip_ws_length rest3) as Hws3.
    destruct (skip_ws rest3) as [|q rest4]; [discriminate|]. simpl in Hws3.
    destruct (N.eqb q Chr.DQUOTE); [|discriminate].
    apply IH3 in H. lia.
Qed.

Lemma literal_fuel (word : str) (v : value) (s : str) : literal word v s <> NoFuel.
Proof. unfold literal. destruct (strip_prefix word s); discriminate. Qed.

Lemma scan_number_fuel (s : str) : scan_number s <> NoFuel.
Proof.
  unfold scan_number.
  destruct (match_number s) as [[[[i f] e] rest]|].
  - destruct f, e; discriminate.
  - destruct (strip_prefix (tx "NaN") s); [discriminate|].
    destruct (strip_prefix (tx "Infinity") s); [discriminate | apply literal_fuel].
Qed.

(** With fuel for twice the length of the text the scan never stops for
    lack of fuel. *)
Lemma scan_has_fuel (fuel : nat) :
  (forall s, 2 * length s + 1 <= fuel -> scan_once fuel s <> NoFuel)
  /\ (forall s acc, 2 * length s + 2 <= fuel -> array_items fuel s acc <> NoFuel)
  /\ (forall s acc, 2 * length s + 1 <= fuel -> object_items fuel s acc <> NoFuel).
Proof.
  induction fuel as [|fuel (IH1 & IH2 & IH3)]; [repeat split; intros; lia|].
  destruct (scan_progress fuel) as (P1 & P2 & P3).
  split; [|split].
  - intros [|c s] Hf; [discriminate|]. cbn [scan_once]. simpl in Hf.
    destruct (N.eqb c Chr.DQUOTE).
    { destruct (scanstring s []) as [[t rest]|]; discriminate. }
    destruct (N.eqb c Chr.LBRACE).
    { pose proof (skip_ws_length s) as Hws.
      destruct (skip_ws s) as [|d s'']; [discriminate|]. simpl in Hws.
      destruct (N.eqb d Chr.RBRACE); [discriminate|].
      destruct (N.eqb d Chr.DQUOTE); [|discriminate].
      apply IH3. lia. }
    destruct (N.eqb c Chr.LBRACKET).
    { pose proof (skip_ws_length s) as Hws.
      destruct (skip_ws s) as [|d s'']; [discriminate|]. simpl in Hws.
      destruct (N.eqb d Chr.RBRACKET); [discriminate|].
      apply IH2. simpl. lia. }
    destruct (N.eqb c 110); [apply literal_fuel|].
    destruct (N.eqb c 116); [apply literal_fuel|].
    destruct (N.eqb c 102); [apply literal_fuel|].
    apply scan_number_fuel.
  - intros s acc Hf. cbn [array_items].
    pose proof (IH1 s ltac:(lia)) as H1.
    destruct (scan_once fuel s) as [w rest| |] eqn:E; [|discriminate|contradiction].
    apply P1 in E. pose proof (skip_ws_length rest) as Hws.
    destruct (skip_ws rest) as [|d rest']; [discriminate|]. simpl in Hws.
    destruct (N.eqb d Chr.RBRACKET); [discriminate|].
    destruct (N.eqb d Chr.COMMA); [|discriminate].
    apply IH2. pose proof (skip_ws_length rest'). lia.
  - intros s acc Hf. cbn [object_items].
    destruct (scanstring s []) as [[key rest]|] eqn:E; [|discriminate].
    apply scanstring_shorter in E. pose proof (skip_ws_length rest) as Hws.
    destruct (skip_ws rest) as [|c rest1]; [discriminate|]. simpl in Hws.
    destruct (N.eqb c Chr.COLON); [|discriminate].
    pose proof (skip_ws_length rest1) as Hws1.
    pose proof (IH1 (skip_ws rest1) ltac:(lia)) as H1.
    destruct (scan_once fuel (skip_ws rest1)) as [w rest2| |] eqn:E2;
      [|discriminate|contradiction].
    apply P1 in E2. pose proof (skip_ws_length rest2) as Hws2.
    destruct (skip_ws rest2) as [|d rest3]; [discriminate|]. simpl in Hws2.
    destruct (N.eqb d Chr.RBRACE); [discriminate|].
    destruct (N.eqb d Chr.COMMA); [|discriminate].
    pose proof (skip_ws_length rest3) as Hws3.
    destruct (skip_ws rest3) as [|q rest4]; [discriminate|]. simpl in Hws3.
    destruct (N.eqb q Chr.DQUOTE); [|discriminate].
    apply IH3. lia.
Qed.

(** [decode] never runs out of fuel: [loads s = None] stands for a
    [JSONDecodeError]. *)
Lemma decode_has_fuel (s : str) : decode s <> NoFuel.
Proof.
  unfold decode. pose proof (skip_ws_length s) as Hws.
  pose proof (proj1 (scan_has_fuel (2 * length s + 1)) (skip_ws s) ltac:(lia)) as H.
  destruct (scan_once (2 * length s + 1) (skip_ws s)) as [v rest| |];
    [|discriminate|contradiction].
  destruct (skip_ws rest); discriminate.
Qed.

Lemma loads_None (s : str) : loads s = None <-> decode s = DecodeError.
Proof.
  unfold loads. pose proof (decode_has_fuel s) as H.
  destruct (decode s); split; intros; congruence.
Qed.
End Fuel.

(** ** [json.loads] after [json.dumps] *)
Module RoundTrip.
Import Json.
Open Scope N_scope.

Lemma all_from_spec (P : N -> bool) (n : nat) (x y : N) :
  all_from P x n = true -> x <= y < x + N.of_nat n -> P y = true.
Proof.
  revert x; induction n as [|n IH]; intros x H Hy; [lia|].
  simpl in H. apply andb_true_iff in H. destruct H as [Hx H].
  destruct (N.eq_dec x y) as [->|Hne]; [assumption|].
  apply (IH (N.succ x)); [assumption | lia].
Qed.

(** A check that holds on every number below [n] holds below [n]. *)
Lemma below_forallb (P : N -> bool) (n : N) :
  all_from P 0 (N.to_nat n) = true -> forall x, x < n -> P x = true.
Proof. intros H x Hx. apply (@all_from_spec P (N.to_nat n) 0 x H). lia. Qed.

Lemma hex4_text_read (c : N) : c < 65536 -> hex4_of_text (hex4_text c) = Some c.
Proof.
  intros H.
  pose (P := fun c => match hex4_of_text (hex4_text c) with
                      | Some v => v =? c
                      | None => false
                      end).
  assert (E : P c = true).
  { apply (@below_forallb P 65536); [vm_compute; reflexivity | exact H]. }
  unfold P in E. destruct (hex4_of_text (hex4_text c)); [|discriminate].
  apply N.eqb_eq in E. congruence.
Qed.

Lemma surrogate_bits (y : N) :
  y < 1024 ->
  N.lor 55296 y = 55296 + y /\ N.lor 56320 y = 56320 + y.
Proof.
  intros H.
  pose (P := fun y => (N.lor 55296 y =? 55296 + y) && (N.lor 56320 y =? 56320 + y)).
  assert (E : P y = true).
  { apply (@below_forallb P 1024); [vm_compute; reflexivity | exact H]. }
  unfold P in E. apply andb_true_iff in E. rewrite !N.eqb_eq in E. exact E.
Qed.

Lemma land_1023 (x : N) : N.land x 1023 < 1024.
Proof.
  change 1023 with (N.ones 10). rewrite N.land_ones.
  apply N.mod_lt. discriminate.
Qed.

Lemma high_of_range (c : N) : high_of c < 65536 /\ is_high_surrogate (high_of c) = true
                              /\ is_low_surrogate (high_of c) = false.
Proof.
  unfold high_of. pose proof (land_1023 (N.shiftr (c - 65536) 10)) as H.
  destruct (surrogate_bits H) as [-> _].
  unfold is_high_surrogate, is_low_surrogate.
  repeat split; [lia | |]; rewrite ?andb_true_iff, ?andb_false_iff, ?N.leb_le, ?N.leb_gt; lia.
Qed.

Lemma low_of_range (c : N) : low_of c < 65536 /\ is_low_surrogate (low_of c) = true.
Proof.
  unfold low_of. pose proof (land_1023 (c - 65536)) as H.
  destruct (surrogate_bits H) as [_ ->].
  unfold is_low_surrogate.
  split; [lia|]. rewrite andb_true_iff, !N.leb_le. lia.
Qed.

Lemma join_high_low (c : N) :
  65536 <= c < 1114112 -> join_surrogates (high_of c) (low_of c) = c.
Proof.
  intros Hc. unfold high_of, low_of, join_surrogates.
  pose proof (land_1023 (N.shiftr (c - 65536) 10)) as H1.
  pose proof (land_1023 (c - 65536)) as H2.
  destruct (surrogate_bits H1) as [-> _]. destruct (surrogate_bits H2) as [_ ->].
  change 1023 with (N.ones 10). rewrite !N.land_ones, N.shiftr_div_pow2.
  change (2 ^ 10) with 1024.
  rewrite (N.mod_small ((c - 65536) / 1024) 1024)
    by (apply N.Div0.div_lt_upper_bound; lia).
  pose proof (N.div_mod (c - 65536) 1024) as H. specialize (H ltac:(discriminate)).
  generalize dependent ((c - 65536) / 1024). generalize dependent ((c - 65536) mod 1024).
  intros; lia.
Qed.

(** *** One escape read by [scanstring] *)

Lemma scanstring_plain (c : char) (t acc : str) :
  c <> 34 -> c <> 92 -> 31 < c ->
  scanstring (c :: t) acc = scanstring t (c :: acc).
Proof.
  intros H1 H2 H3. cbn [scanstring]. unfold Chr.DQUOTE, Chr.BACKSLASH.
  destruct (N.eqb_spec c 34); [contradiction|].
  destruct (N.eqb_spec c 92); [contradiction|].
  destruct (N.leb_spec c 31); [lia | reflexivity].
Qed.

Lemma scanstring_short (x c : char) (t acc : str) :
  x <> 117 -> unescape x = Some c ->
  scanstring (92 :: x :: t) acc = scanstring t (c :: acc).
Proof.
  intros H1 H2. cbn [scanstring]. 
  change (92 =? Chr.DQUOTE) with false. change (92 =? Chr.BACKSLASH) with true.
  cbv iota. destruct (N.eqb_spec x 117); [contradiction|].
  rewrite H2. reflexivity.
Qed.

Lemma scanstring_u_single (h1 h2 h3 h4 u : N) (t acc : str) :
  hex4 h1 h2 h3 h4 = Some u ->
  is_high_surrogate u = false \/ starts_u t = false ->
  scanstring (92 :: 117 :: h1 :: h2 :: h3 :: h4 :: t) acc = scanstring t (u :: acc).
Proof.
  intros Hu Hcase. cbn [scanstring].
  change (92 =? Chr.DQUOTE) with false. change (92 =? Chr.BACKSLASH) with true.
  change (117 =? 117) with true. cbv iota. rewrite Hu.
  destruct (is_high_surrogate u); [|reflexivity].
  destruct Hcase as [Hcase|Hcase]; [discriminate|].
  destruct t as [|b [|u' [|g1 [|g2 [|g3 [|g4 t']]]]]]; try reflexivity.
  cbn [starts_u] in Hcase. rewrite Hcase. reflexivity.
Qed.

Lemma scanstring_u_pair (h1 h2 h3 h4 g1 g2 g3 g4 u u2 : N) (t acc : str) :
  hex4 h1 h2 h3 h4 = Some u -> is_high_surrogate u = true ->
  hex4 g1 g2 g3 g4 = Some u2 ->
  scanstring (92 :: 117 :: h1 :: h2 :: h3 :: h4 :: 92 :: 117 :: g1 :: g2 :: g3 :: g4 :: t) acc
  = if is_low_surrogate u2 then scanstring t (join_surrogates u u2 :: acc)
    else scanstring (92 :: 117 :: g1 :: g2 :: g3 :: g4 :: t) (u :: acc).
Proof.
  intros Hu Hhigh Hu2. cbn [scanstring].
  change (92 =? Chr.DQUOTE) with false. change (92 =? Chr.BACKSLASH) with true.
  change (117 =? 117) with true. cbv iota. rewrite Hu, Hu2, Hhigh. cbn [andb].
  reflexivity.
Qed.

(** *** The escapes written by [json.dumps] *)

Lemma escape_char_cases (c : char) :
  (exists x, escape_char c = [92; x] /\ x <> 117 /\ unescape x = Some c /\ c < 128)
  \/ (escape_char c = [c] /\ c <> 34 /\ c <> 92 /\ 31 < c /\ c < 128)
  \/ (escape_char c = u_escape c /\ c < 65536)
  \/ (escape_char c = u_escape (high_of c) ++ u_escape (low_of c) /\ 65536 <= c).
Proof.
  unfold escape_char.
  destruct (N.eqb_spec c 92) as [->|?];
    [left; exists 92; repeat split; (discriminate || reflexivity)|].
  destruct (N.eqb_spec c 34) as [->|?];
    [left; exists 34; repeat split; (discriminate || reflexivity)|].
  destruct (N.eqb_spec c 8) as [->|?];
    [left; exists 98; repeat split; (discriminate || reflexivity)|].
  destruct (N.eqb_spec c 12) as [->|?];
    [left; exists 102; repeat split; (discriminate || reflexivity)|].
  destruct (N.eqb_spec c 10) as [->|?];
    [left; exists 110; repeat split; (discriminate || reflexivity)|].
  destruct (N.eqb_spec c 13) as [->|?];
    [left; exists 114; repeat split; (discriminate || reflexivity)|].
  destruct (N.eqb_spec c 9) as [->|?];
    [left; exists 116; repeat split; (discriminate || reflexivity)|].
  destruct (N.leb_spec 32 c); destruct (N.leb_spec c 126); cbn [andb];
    try (right; left; repeat split; (assumption || lia));
    (destruct (N.ltb_spec c 65536);
     [right; right; left; split; [reflexivity | assumption]
     | right; right; right; split; [reflexivity | assumption]]).
Qed.

Lemma small_not_surrogate (c : N) :
  c < 128 -> (c <? 65536) = true /\ is_high_surrogate c = false
             /\ is_low_surrogate c = false.
Proof.
  intros H. unfold is_high_surrogate, is_low_surrogate.
  rewrite N.ltb_lt, !andb_false_iff, !N.leb_gt. lia.
Qed.

Lemma scanstring_u_escape_single (u : N) (t acc : str) :
  u < 65536 ->
  is_high_surrogate u = false \/ starts_u t = false ->
  scanstring (u_escape u ++ t) acc = scanstring t (u :: acc).
Proof.
  intros Hu Hcase. pose proof (hex4_text_read Hu) as E.
  unfold u_escape, hex4_text in *. cbn [hex4_of_text app] in *.
  apply scanstring_u_single; assumption.
Qed.

Lemma scanstring_u_escape_pair (u u2 : N) (t acc : str) :
  u < 65536 -> is_high_surrogate u = true -> u2 < 65536 ->
  scanstring (u_escape u ++ u_escape u2 ++ t) acc
  = if is_low_surrogate u2 then scanstring t (join_surrogates u u2 :: acc)
    else scanstring (u_escape u2 ++ t) (u :: acc).
Proof.
  intros Hu Hhigh Hu2.
  pose proof (hex4_text_read Hu) as E. pose proof (hex4_text_read Hu2) as E2.
  unfold u_escape, hex4_text in *. cbn [hex4_of_text app] in *.
  apply scanstring_u_pair; assumption.
Qed.

Lemma starts_u_quote (rest : str) : starts_u (Chr.DQUOTE :: rest) = false.
Proof. destruct rest; reflexivity. Qed.

(** [scanstring] reads the body written by [json.dumps] up to its
    closing quote and returns [read_back s]. *)
Lemma scanstring_read_back (n : nat) :
  forall (s : str), (length s <= n)%nat ->
  forall (acc rest : str),
    scanstring (escape_body s ++ Chr.DQUOTE :: rest) acc
    = Some (rev acc ++ read_back s, rest).
Proof.
  induction n as [|n IH]; intros s Hlen acc rest.
  { destruct s; [|simpl in Hlen; lia]. cbn. rewrite app_nil_r. reflexivity. }
  destruct s as [|c s']; [cbn; rewrite app_nil_r; reflexivity|].
  assert (IH1 : forall acc, scanstring (escape_body s' ++ Chr.DQUOTE :: rest) (c :: acc)
                            = Some (rev acc ++ c :: read_back s', rest)).
  { intros a. rewrite IH by (simpl in Hlen; lia).
    cbn [rev]. rewrite <- app_assoc. reflexivity. }
  unfold escape_body. cbn [flat_map]. fold (escape_body s'). rewrite <- app_assoc.
  destruct (escape_char_cases c)
    as [(x & -> & Hx & Hun & Hsmall) | [(-> & H34 & H92 & H31 & Hsmall) | [(-> & Hc) | (-> & Hc)]]].
  - (* a two-character escape *)
    destruct (small_not_surrogate Hsmall) as (E1 & E2 & _).
    cbn [app read_back]. rewrite E1, E2, (scanstring_short _ _ Hx Hun). apply IH1.
  - (* a character kept as it is *)
    destruct (small_not_surrogate Hsmall) as (E1 & E2 & _).
    cbn [app read_back]. rewrite E1, E2, (scanstring_plain _ _ H34 H92 H31). apply IH1.
  - (* one \uXXXX escape *)
    cbn [read_back]. rewrite (proj2 (N.ltb_lt c 65536) Hc).
    destruct (is_high_surrogate c) eqn:Ehigh.
    + destruct s' as [|c2 s''].
      * rewrite scanstring_u_escape_single
          by (assumption || (right; apply starts_u_quote)).
        apply IH1.
      * unfold escape_body. cbn [flat_map]. fold (escape_body s''). rewrite <- app_assoc.
        destruct (escape_char_cases c2)
          as [(x & E & Hx & Hun & Hsmall) | [(E & H34 & H92 & H31 & Hsmall)
                                            | [(E & Hc2) | (E & Hc2)]]].
        -- destruct (small_not_surrogate Hsmall) as (_ & _ & E3). rewrite E3.
           rewrite scanstring_u_escape_single.
           ++ rewrite app_assoc.
              change (escape_char c2 ++ escape_body s'') with (escape_body (c2 :: s'')).
              apply IH1.
           ++ assumption.
           ++ right. rewrite E. cbn [app starts_u].
              destruct (N.eqb_spec x 117); [contradiction | apply andb_false_r].
        -- destruct (small_not_surrogate Hsmall) as (_ & _ & E3). rewrite E3.
           rewrite scanstring_u_escape_single.
           ++ rewrite app_assoc.
              change (escape_char c2 ++ escape_body s'') with (escape_body (c2 :: s'')).
              apply IH1.
           ++ assumption.
           ++ right. rewrite E. cbn [app starts_u]. unfold Chr.BACKSLASH.
              destruct (escape_body s'' ++ Chr.DQUOTE :: rest);
                destruct (N.eqb_spec c2 92); try contradiction; reflexivity.
        -- rewrite E, scanstring_u_escape_pair by assumption.
           destruct (is_low_surrogate c2).
           ++ rewrite IH by (simpl in Hlen; lia).
              cbn [rev]. rewrite <- app_assoc. reflexivity.
           ++ rewrite app_assoc, <- E.
              change (escape_char c2 ++ escape_body s'') with (escape_body (c2 :: s'')).
              apply IH1.
        -- assert (Elow : is_low_surrogate c2 = false).
           { unfold is_low_surrogate. rewrite andb_false_iff, !N.leb_gt. lia. }
           rewrite Elow, E, <- app_assoc.
           destruct (high_of_range c2) as (Hh1 & Hh2 & Hh3).
           rewrite scanstring_u_escape_pair by assumption. rewrite Hh3.
           rewrite !app_assoc, <- E, <- app_assoc, app_assoc.
           change (escape_char c2 ++ escape_body s'') with (escape_body (c2 :: s'')).
           apply IH1.
    + rewrite scanstring_u_escape_single by auto. apply IH1.
  - (* a surrogate pair *)
    cbn [read_back]. rewrite (proj2 (N.ltb_ge c 65536) Hc).
    destruct (high_of_range c) as (Hh1 & Hh2 & _). destruct (low_of_range c) as (Hl1 & Hl2).
    rewrite <- app_assoc, scanstring_u_escape_pair by assumption. rewrite Hl2.
    rewrite IH by (simpl in Hlen; lia).
    cbn [rev]. rewrite <- app_assoc. reflexivity.
Qed.

(** Strings of scalar values are read back unchanged. *)
Lemma read_back_scalar (s : str) :
  forallb is_scalar s = true -> read_back s = s.
Proof.
  induction s as [|c s IH]; [reflexivity|].
  cbn [forallb read_back]. rewrite andb_true_iff. intros [Hc Hs].
  rewrite IH by assumption. unfold is_scalar in Hc.
  destruct (N.ltb_spec c 65536).
  - replace (is_high_surrogate c) with false; [reflexivity|].
    symmetry. unfold is_high_surrogate.
    rewrite orb_true_iff, andb_true_iff, !N.ltb_lt in Hc.
    rewrite andb_false_iff, !N.leb_gt. lia.
  - rewrite orb_true_iff, andb_true_iff, !N.ltb_lt in Hc.
    rewrite join_high_low by lia. reflexivity.
Qed.

Lemma scanstring_encoded (s acc rest : str) :
  scanstring (escape_body s ++ Chr.DQUOTE :: rest) acc
  = Some (rev acc ++ read_back s, rest).
Proof. apply (@scanstring_read_back (length s)). apply le_n. Qed.

(** *** The README fallback *)

Lemma dumps_fallback (project_name content : str) :
  dumps (Some 2%nat) (Moonshot.fallback_response project_name content)
  = Moonshot.fallback_text project_name content.
Proof.
  unfold dumps, Moonshot.fallback_response, Moonshot.fallback_text, Moonshot.fallback_middle.
  cbn [encode]. unfold encode_basestring_ascii.
  generalize (escape_body project_name) (escape_body content). intros x y.
  cbn. repeat (rewrite <- !app_assoc; cbn). reflexivity.
Qed.

Lemma scan_fallback (f : nat) (project_name content : str) :
  scan_once (9 + f) (Moonshot.fallback_text project_name content)
  = Scanned (Moonshot.fallback_response (read_back project_name) (read_back content)) [].
Proof.
  unfold Moonshot.fallback_text, Moonshot.fallback_middle. rewrite <- !app_assoc.
  set (x := escape_body project_name). set (y := escape_body content).
  cbn. subst x. rewrite scanstring_encoded.
  cbn. subst y. rewrite scanstring_encoded.
  cbn. reflexivity.
Qed.

Lemma fallback_text_length (project_name content : str) :
  (5 <= length (Moonshot.fallback_text project_name content))%nat.
Proof.
  unfold Moonshot.fallback_text, Moonshot.fallback_middle.
  rewrite !length_app. cbn. lia.
Qed.

(** The serialized fallback decodes to the fallback object, its two
    strings read back. *)
Lemma loads_fallback (project_name content : str) :
  loads (dumps (Some 2%nat) (Moonshot.fallback_response project_name content))
  = Some (Moonshot.fallback_response (read_back project_name) (read_back content)).
Proof.
  rewrite dumps_fallback. unfold loads, decode.
  pose proof (fallback_text_length project_name content) as Hlen.
  replace (2 * length (Moonshot.fallback_text project_name content) + 1)%nat
    with (9 + (2 * length (Moonshot.fallback_text project_name content) - 8))%nat by lia.
  change (skip_ws (Moonshot.fallback_text project_name content))
    with (Moonshot.fallback_text project_name content).
  rewrite scan_fallback. reflexivity.
Qed.

(** The text of the fallback is an opening brace, a middle part and a
    closing brace. *)
Lemma fallback_text_braces (project_name content : str) :
  Moonshot.fallback_text project_name content
  = Chr.LBRACE :: Moonshot.fallback_middle project_name content ++ [Chr.RBRACE].
Proof. reflexivity. Qed.
End RoundTrip.

(** ** The results of the Moonshot client *)
Module MoonshotFacts.
Import Json Re ReFacts ReRun RoundTrip Moonshot.

(** The brace pattern matches a text that starts with an opening brace
    and ends with a closing brace as a whole. *)
Lemma braces_whole (mid : str) :
  option_map group0 (search Pat.braces (Chr.LBRACE :: mid ++ [Chr.RBRACE]))
  = Some (Chr.LBRACE :: mid ++ [Chr.RBRACE]).
Proof.
  assert (H : match_at Pat.braces (Pos [] (Chr.LBRACE :: mid ++ [Chr.RBRACE]))
              = Some (Pos (Chr.RBRACE :: rev mid ++ [Chr.LBRACE]) [], [])).
  { unfold match_at, Pat.braces. cbn [seqs rmatch]. rewrite rmatch_chr.
    cbn [rmatch ahead].
    apply (@star_any_last _ mid [Chr.RBRACE]).
    - rewrite length_app. lia.
    - rewrite rmatch_chr. reflexivity.
    - intros x v1 v2 E. destruct v1; [|destruct v1; discriminate].
      injection E as _ <-. reflexivity. }
  unfold search. rewrite (search_from_found _ _ _ H). cbn [option_map].
  f_equal. apply steps_between. split; cbn [ahead behind]; [rewrite app_nil_r; reflexivity|].
  cbn [rev app]. rewrite rev_app_distr. cbn [rev app]. rewrite app_nil_r. reflexivity.
Qed.

Lemma app_parse_fallback (project_name content : str) :
  App.parse_response (dumps (Some 2%nat) (fallback_response project_name content))
  = App.ResponseData (fallback_response (read_back project_name) (read_back content)).
Proof.
  unfold App.parse_response.
  pose proof (loads_fallback project_name content) as Hloads.
  rewrite dumps_fallback in *.
  pose proof (braces_whole (fallback_middle project_name content)) as H.
  rewrite <- fallback_text_braces in H.
  destruct (search Pat.braces (fallback_text project_name content)) as [m|];
    [|discriminate].
  injection H as ->. rewrite Hloads. reflexivity.
Qed.

Lemma extract_cases (content project_name : str) :
  (exists v, loads (json_content content) = Some v
             /\ extract content project_name = json_content content)
  \/ (loads (json_content content) = None
      /\ extract content project_name
         = dumps (Some 2%nat) (fallback_response project_name content)).
Proof.
  unfold extract. destruct (loads (json_content content)) as [v|]; eauto.
Qed.



(** C9, amended.  A string returned by [send_prd_request] is the result
    of lines 150-176 on the content of the reply and decodes as JSON:
    it is the candidate text that passed [json.loads], or the serialized
    fallback.  The parse of [generate_code] accepts the serialized
    fallback. *)
Theorem moonshot_result_parses (response : option value) (project_name out : str) :
  send_prd_request response project_name = Some out ->
  exists content,
    out = extract content project_name
    /\ ((exists v, loads (json_content content) = Some v
                   /\ out = json_content content /\ loads out = Some v)
        \/ (loads (json_content content) = None
            /\ out = dumps (Some 2%nat) (fallback_response project_name content)
            /\ loads out
               = Some (fallback_response (read_back project_name) (read_back content))
            /\ App.parse_response out
               = App.ResponseData
                   (fallback_response (read_back project_name) (read_back content)))).
Proof.
  intros H.
  assert (Hout : exists content, out = extract content project_name).
  { unfold send_prd_request in H.
    repeat match type of H with
           | match ?x with _ => _ end = _ => destruct x; try discriminate
           end;
      injection H as <-; eexists; reflexivity. }
  destruct Hout as (content & ->). exists content. split; [reflexivity|].
  destruct (extract_cases content project_name) as [(v & Hv & E) | (Hnone & E)];
    rewrite E.
  - left. exists v. auto.
  - right. split; [assumption|]. split; [reflexivity|].
    split; [apply loads_fallback | apply app_parse_fallback].
Qed.

Lemma moonshot_result_parses_witness :
  send_prd_request (Some (Texts.reply (tx "hello world"))) (tx "MyProject")
  = Some (dumps (Some 2%nat) (fallback_response (tx "MyProject") (tx "hello world")))
  /\ exists content,
       dumps (Some 2%nat) (fallback_response (tx "MyProject") (tx "hello world"))
       = extract content (tx "MyProject")
       /\ ((exists v, loads (json_content content) = Some v
                      /\ dumps (Some 2%nat)
                           (fallback_response (tx "MyProject") (tx "hello world"))
                         = json_content content
                      /\ loads (dumps (Some 2%nat)
                                  (fallback_response (tx "MyProject") (tx "hello world")))
                         = Some v)
           \/ (loads (json_content content) = None
               /\ dumps (Some 2%nat)
                    (fallback_response (tx "MyProject") (tx "hello world"))
                  = dumps (Some 2%nat) (fallback_response (tx "MyProject") content)
               /\ loads (dumps (Some 2%nat)
                           (fallback_response (tx "MyProject") (tx "hello world")))
                  = Some (fallback_response (read_back (tx "MyProject")) (read_back content))
               /\ App.parse_response
                    (dumps (Some 2%nat)
                       (fallback_response (tx "MyProject") (tx "hello world")))
                  = App.ResponseData
                      (fallback_response (read_back (tx "MyProject"))
                         (read_back content)))).
Proof.
  assert (H : send_prd_request (Some (Texts.reply (tx "hello world"))) (tx "MyProject")
              = Some (dumps (Some 2%nat)
                        (fallback_response (tx "MyProject") (tx "hello world"))))
    by (vm_compute; reflexivity).
  split; [exact H|].
  exact (moonshot_result_parses _ _ H).
Defined.
End MoonshotFacts.

(** ** Where a pattern cannot match *)
Module ReMiss.
Import Re ReFacts.

Lemma startswith_app (p rest : str) : startswith (p ++ rest) p = true.
Proof.
  unfold startswith. induction p as [|c p IH]; simpl; [reflexivity|].
  rewrite N.eqb_refl. exact IH.
Qed.

Lemma is_infix_here (p s : str) :
  startswith s p = true -> ConfigManager.is_infix p s = true.
Proof. intros H. destruct s; simpl; rewrite H; reflexivity. Qed.

Lemma is_infix_app (a p rest : str) :
  ConfigManager.is_infix p (a ++ p ++ rest) = true.
Proof.
  induction a as [|x a IH].
  - cbn [app]. apply is_infix_here, startswith_app.
  - cbn [app ConfigManager.is_infix]. rewrite IH. apply orb_true_r.
Qed.

Lemma lang_lit (t w : str) : lang (lit t) w -> w = t.
Proof.
  revert w; induction t as [|c t IH]; intros w; simpl; [auto|].
  intros (u & v & -> & (x & -> & Hx) & Hv).
  apply N.eqb_eq in Hx. subst x. rewrite (IH _ Hv). reflexivity.
Qed.

(** A pattern that begins with a literal matches only where the
    literal is. *)
Lemma match_at_literal (t : str) (r : regex) (b a : str) (res : result) :
  match_at (Seq (lit t) r) (Pos b a) = Some res -> exists rest, a = t ++ rest.
Proof.
  destruct res as [q caps]. intros H. apply match_at_sound in H.
  destruct H as (w & (u & v & -> & Hu & _) & Hs & _).
  apply lang_lit in Hu. subst u. cbn [ahead] in Hs.
  exists (v ++ ahead q). rewrite Hs, app_assoc. reflexivity.
Qed.

(** Without a match anywhere, a scan passes every character. *)
Lemma scan_miss (r : regex) (a : str) :
  forall b,
    (forall a1 a2, a = a1 ++ a2 -> match_at r (Pos (rev a1 ++ b) a2) = None) ->
    search_from r b a = None
    /\ scan r 0 b a = map (fun c => inl [c]) a.
Proof.
  induction a as [|c a IH]; intros b H.
  - pose proof (H [] [] eq_refl) as H0. simpl in H0. simpl. rewrite H0. auto.
  - pose proof (H [] (c :: a) eq_refl) as H0. simpl in H0.
    destruct (IH (c :: b)) as [IH1 IH2].
    { intros a1 a2 E. specialize (H (c :: a1) a2). simpl in H.
      rewrite <- app_assoc in H. apply H. rewrite E. reflexivity. }
    cbn [search_from scan map]. rewrite H0, IH1, IH2. auto.
Qed.

Lemma concat_map_nil {A B} (f : A -> list B) (l : list A) :
  (forall x, f x = []) -> concat (map f l) = [].
Proof. intros H. induction l; simpl; [reflexivity | rewrite H, IHl; reflexivity]. Qed.

Lemma pieces_text_chars (repl : result -> str) (a : str) :
  pieces_text repl (map (fun c => inl [c]) a) = a.
Proof.
  unfold pieces_text. induction a as [|c a IH]; [reflexivity|].
  simpl in *. rewrite IH. reflexivity.
Qed.

(** In a text that does not contain the literal a pattern begins with,
    [re.search] finds nothing, [re.findall] returns the empty list and
    [re.sub] returns the text. *)
Lemma literal_absent (t : str) (r : regex) (s : str) :
  ConfigManager.is_infix t s = false ->
  search (Seq (lit t) r) s = None
  /\ findall (Seq (lit t) r) s = []
  /\ forall repl, sub (Seq (lit t) r) repl s = s.
Proof.
  intros Habs.
  destruct (@scan_miss (Seq (lit t) r) s []) as [H1 H2].
  { intros a1 a2 E.
    destruct (match_at (Seq (lit t) r) (Pos (rev a1 ++ []) a2)) as [res|] eqn:Em;
      [|reflexivity].
    apply match_at_literal in Em. destruct Em as (rest & ->).
    rewrite E, is_infix_app in Habs. discriminate. }
  split; [exact H1|]. split.
  - unfold findall. rewrite H2, map_map. apply concat_map_nil. reflexivity.
  - intros repl. unfold sub. rewrite H2. apply pieces_text_chars.
Qed.

Lemma code_block_absent (s : str) :
  ConfigManager.is_infix (tx "```") s = false -> findall Pat.code_block s = [].
Proof.
  intros H.
  exact (proj1 (proj2 (@literal_absent (tx "```")
           (seqs [opt (lit (tx "json")); ws; Group 1 (Star false any); ws; Pat.fence])
           s H))).
Qed.

Lemma files_field_absent (s : str) :
  ConfigManager.is_infix (tx "'files'") s = false -> search Pat.files_field s = None.
Proof.
  intros H.
  exact (proj1 (@literal_absent (tx "'files'")
           (seqs [ws; chr Chr.COLON; ws; chr Chr.LBRACKET; Group 1 (plus any);
                  chr Chr.RBRACKET])
           s H)).
Qed.

Lemma json_block_absent (s : str) :
  ConfigManager.is_infix (tx "```json") s = false -> search Pat.json_block s = None.
Proof.
  intros H.
  exact (proj1 (@literal_absent (tx "```json")
           (seqs [ws; Group 1 (Star false any); ws; Pat.fence]) s H)).
Qed.
End ReMiss.

(** ** Responses from which nothing is recovered *)
Module NoRecovery.
Import Json Py OpenRouter ReMiss.

(** X6.  Whenever the text of the response, stripped of white space,
    starts with an opening brace, [save_project_files] writes no project
    file: method 1 raises [UnboundLocalError] and the handler of line
    290 returns [False]. *)
Theorem brace_start_never_saved (content : str) :
  startswith (strip content) [Chr.LBRACE] = true ->
  recover content = Raise UnboundLocalError
  /\ save_project_files content = Failed UnboundLocalError.
Proof.
  intros H. unfold save_project_files, recover, call, parse_response, method1, bind.
  rewrite H. split; reflexivity.
Qed.

Lemma brace_start_never_saved_witness :
  recover (tx "  {}") = Raise UnboundLocalError
  /\ save_project_files (tx "  {}") = Failed UnboundLocalError.
Proof. apply brace_start_never_saved. reflexivity. Defined.

(** X7.  A response that does not start with an opening brace, holds
    no three backticks and nowhere the text [files] in double quotes
    gives no project data: the function returns [False] at line 236 and
    writes no project file. *)
Theorem prose_gives_no_project (content : str) :
  startswith (strip content) [Chr.LBRACE] = false ->
  ConfigManager.is_infix (tx "```") content = false ->
  ConfigManager.is_infix (tx "'files'") content = false ->
  recover content = Return None
  /\ save_project_files content = NoProjectData.
Proof.
  intros Hstart Hfence Hfiles.
  assert (E : recover content = Return None).
  { unfold recover, call, parse_response, bind, method1, method2, method3.
    rewrite Hstart. cbn [ret truthy negb]. unfold bind, import_re, load_re.
    cbn [re_bound].
    rewrite (code_block_absent content Hfence).
    cbn [first_block ret truthy negb re_bound].
    rewrite (files_field_absent content Hfiles).
    reflexivity. }
  split; [exact E|]. unfold save_project_files. rewrite E. reflexivity.
Qed.

Lemma prose_gives_no_project_witness :
  recover (tx "The project has two files, a.py and b.py.") = Return None
  /\ save_project_files (tx "The project has two files, a.py and b.py.") = NoProjectData.
Proof. apply prose_gives_no_project; reflexivity. Defined.
End NoRecovery.

(** ** [generate_code] and the clients *)
Module GenerateFacts.
Import Json Py Generate.

(** X8.  With the OpenRouter client [generate_code] never gets to parse
    a response and never creates a file: the client returns the decoded
    body of the reply, not its text, so the request ends with "Failed to
    get response" when that body is empty or missing, and otherwise in
    the handler of line 388, with the [TypeError] of [re.search] or the
    [AttributeError] of the client. *)
Theorem openrouter_reply_never_parsed
        (reply : option value) (input_tokens : Z) (dirs : directories)
        (estimated_input_tokens : Z) :
  (forall files t,
      with_openrouter reply input_tokens dirs estimated_input_tokens <> Created files t)
  /\ with_openrouter reply input_tokens dirs estimated_input_tokens <> InvalidFormat
  /\ with_openrouter reply input_tokens dirs estimated_input_tokens <> ParseFailure
  /\ (with_openrouter reply input_tokens Ready estimated_input_tokens = NoApiResponse
      \/ with_openrouter reply input_tokens Ready estimated_input_tokens
         = ServerError TypeError
      \/ with_openrouter reply input_tokens Ready estimated_input_tokens
         = ServerError AttributeError).
Proof.
  unfold with_openrouter, OpenRouterRequest.send_prd_request.
  destruct reply as [result|]; [|cbn; repeat split; try discriminate; auto].
  destruct result as [| | | | | |d];
    try solve [cbn; repeat split; try discriminate; auto].
  cbn [ConfigManager.get].
  destruct (match dict_get (tx "usage") d with Some v => v | None => Obj [] end)
    as [| | | | | |usage];
    try solve [cbn; repeat split; try discriminate; auto].
  cbn [ConfigManager.get]. unfold respond. cbn [truthy].
  destruct d as [|kv d]; [cbn; repeat split; try discriminate; auto|].
  cbn [negb]. destruct dirs; repeat split; try discriminate; auto.
Qed.

(** The usage dict of the Moonshot client has the keys [actual_input],
    [output] and [total]. *)
Lemma moonshot_token_info_keys (reply : option value) (input_tokens : Z) :
  exists a o t,
    MoonshotUsage.token_info reply input_tokens
    = Obj [(tx "actual_input", a); (tx "output", o); (tx "total", t)].
Proof.
  unfold MoonshotUsage.token_info, MoonshotUsage.no_usage, MoonshotUsage.usage_info.
  destruct (Moonshot.send_prd_request reply []); [|eauto].
  destruct reply as [[| | | | | |result]|]; eauto.
  destruct (dict_get (tx "usage") result) as [[| | | | | |usage]|]; eauto.
Qed.

(** X9.  With the Moonshot client the token counts [generate_code]
    reports are never those of the reply: it looks up [input_tokens],
    [output_tokens] and [total_tokens], keys the client's usage dict
    does not have, so it reports its own estimate as input and total
    and 0 as output. *)
Theorem moonshot_usage_never_reported
        (reply : option value) (project_name : str) (input_tokens : Z)
        (dirs : directories) (estimated_input_tokens : Z)
        (files : list (str * str)) (t : value) :
  with_moonshot reply project_name input_tokens dirs estimated_input_tokens
  = Created files t ->
  t = Obj [(tx "actual_input", Int estimated_input_tokens);
           (tx "output", Int 0);
           (tx "total", Int estimated_input_tokens)].
Proof.
  unfold with_moonshot, respond.
  destruct (moonshot_token_info_keys reply input_tokens) as (a & o & u & ->).
  destruct (negb _); [discriminate|].
  destruct dirs; try discriminate.
  destruct (match Moonshot.send_prd_request reply project_name with
            | Some text => Str text
            | None => Null
            end); try discriminate.
  destruct (App.parse_response s); try discriminate.
  destruct (ConfigManager.get _ _ _); [|discriminate].
  destruct (OpenRouter.iterate _); [|discriminate].
  destruct (App.created_files _); [|discriminate].
  cbn. intros H. injection H as _ <-. reflexivity.
Qed.

Lemma moonshot_usage_never_reported_witness :
  MoonshotUsage.token_info (Some (Replies.usage_reply (tx "{'files': []}") 12 3400 3412)) 10
  = Obj [(tx "actual_input", Int 12); (tx "output", Int 3400); (tx "total", Int 3412)]
  /\ exists t,
       with_moonshot (Some (Replies.usage_reply (tx "{'files': []}") 12 3400 3412))
         (tx "MyProject") 10 Ready 11
       = Created [] t
       /\ t = Obj [(tx "actual_input", Int 11); (tx "output", Int 0); (tx "total", Int 11)].
Proof.
  split; [vm_compute; reflexivity|].
  eexists. split; [vm_compute; reflexivity|].
  apply (@moonshot_usage_never_reported
           (Some (Replies.usage_reply (tx "{'files': []}") 12 3400 3412))
           (tx "MyProject") 10 Ready 11 []).
  vm_compute. reflexivity.
Defined.

Lemma count_replace (old new : char) (s : str) :
  old <> new -> count old (replace old new s) = 0.
Proof.
  intros H. induction s as [|c s IH]; simpl; [reflexivity|].
  destruct (N.eqb_spec c old) as [->|Hc].
  - destruct (N.eqb_spec new old); [congruence | exact IH].
  - destruct (N.eqb_spec c old); [contradiction | exact IH].
Qed.

(** X10.  The output directory [generate_code] goes on with is never
    empty, holds no forward slash and nowhere two dots in a row. *)
Theorem output_dir_is_guarded (outputDir d : str) :
  output_dir outputDir = Some d ->
  d <> []
  /\ count SLASH d = 0
  /\ ConfigManager.is_infix [Chr.DOT; Chr.DOT] d = false.
Proof.
  unfold output_dir.
  set (s := replace SLASH Chr.BACKSLASH _).
  destruct (ConfigManager.is_infix [Chr.DOT; Chr.DOT] s) eqn:E; [discriminate|].
  intros H. injection H as <-.
  assert (Hslash : count SLASH s = 0) by (apply count_replace; discriminate).
  destruct s as [|c s'].
  - repeat split. discriminate.
  - split; [discriminate|]. split; assumption.
Qed.

Lemma output_dir_is_guarded_witness :
  output_dir (tx "'C:/work/out'") = Some (tx "C:\work\out")
  /\ tx "C:\work\out" <> []
  /\ count SLASH (tx "C:\work\out") = 0
  /\ ConfigManager.is_infix [Chr.DOT; Chr.DOT] (tx "C:\work\out") = false.
Proof.
  split; [reflexivity|].
  apply (@output_dir_is_guarded (tx "'C:/work/out'")). reflexivity.
Defined.
End GenerateFacts.

(** ** Running the matcher: leftmost match and lazy repetition *)
Module ReRunMore.
Import Re ReFacts ReRun.

(** [re.search] passes the positions where the pattern does not match. *)
Lemma search_from_skip (r : regex) (pre : str) :
  forall (b a : str),
    (forall p1 x p2, pre = p1 ++ x :: p2 ->
                     match_at r (Pos (rev p1 ++ b) (x :: p2 ++ a)) = None) ->
    search_from r b (pre ++ a) = search_from r (rev pre ++ b) a.
Proof.
  induction pre as [|c pre IH]; intros b a H; [reflexivity|].
  pose proof (H [] c pre eq_refl) as H0. cbn [rev app] in H0.
  cbn [app search_from]. rewrite H0, IH.
  - cbn [rev]. rewrite <- app_assoc. reflexivity.
  - intros p1 x p2 E. specialize (H (c :: p1) x p2). cbn [rev app] in H.
    rewrite <- app_assoc in H. apply H. rewrite E. reflexivity.
Qed.

(** A pattern that begins with the character [c] does not match at
    another character. *)
Lemma match_at_other (c x : char) (r : regex) (b rest : str) :
  x <> c -> match_at (Seq (chr c) r) (Pos b (x :: rest)) = None.
Proof.
  intros H. unfold match_at, chr, only. cbn [rmatch ahead].
  destruct (N.eqb_spec c x); [congruence | reflexivity].
Qed.

Lemma count_zero_split (c : char) (pre p1 p2 : str) (x : char) :
  count c pre = 0 -> pre = p1 ++ x :: p2 -> x <> c.
Proof.
  intros H ->. rewrite count_app in H. simpl in H.
  destruct (N.eqb_spec x c); [lia | assumption].
Qed.

(** In a text without the character a pattern begins with, the search
    starts after that text. *)
Lemma search_after (c : char) (r : regex) (pre a : str) :
  count c pre = 0 ->
  search (Seq (chr c) r) (pre ++ a) = search_from (Seq (chr c) r) (rev pre) a.
Proof.
  intros H. unfold search. rewrite search_from_skip; [rewrite app_nil_r; reflexivity|].
  intros p1 x p2 E. apply match_at_other. eapply count_zero_split; eassumption.
Qed.

Lemma match_at_lit_other (c x : char) (t : str) (r : regex) (b rest : str) :
  x <> c -> match_at (Seq (lit (c :: t)) r) (Pos b (x :: rest)) = None.
Proof.
  intros H. unfold match_at. cbn [lit rmatch]. unfold chr, only. cbn [rmatch ahead].
  destruct (N.eqb_spec c x); [congruence | reflexivity].
Qed.

(** The same for a pattern that begins with a literal. *)
Lemma search_after_lit (c : char) (t : str) (r : regex) (pre a : str) :
  count c pre = 0 ->
  search (Seq (lit (c :: t)) r) (pre ++ a)
  = search_from (Seq (lit (c :: t)) r) (rev pre) a.
Proof.
  intros H. unfold search. rewrite search_from_skip; [rewrite app_nil_r; reflexivity|].
  intros p1 x p2 E. apply match_at_lit_other. eapply count_zero_split; eassumption.
Qed.

Section Lazy.
Variable A : Type.
Implicit Types (k : pos -> captures -> option A) (caps : captures).

(** Lazy [[\s\S]*?]: the repetition stops at the first position where
    the continuation succeeds. *)
Lemma star_any_first (u v b : str) caps k (res : A) (n : nat) :
  length u <= n ->
  (forall u1 x u2, u = u1 ++ x :: u2 ->
                   k (Pos (rev u1 ++ b) (x :: u2 ++ v)) caps = None) ->
  k (Pos (rev u ++ b) v) caps = Some res ->
  star_loop (rmatch any) false k n (Pos b (u ++ v)) caps = Some res.
Proof.
  revert b n. induction u as [|y u IH]; intros b n Hn Hearly Hk.
  - destruct n as [|n]; [exact Hk|]. cbn [star_loop app]. cbn [rev app] in Hk.
    rewrite Hk. reflexivity.
  - destruct n as [|n]; [simpl in Hn; lia|].
    pose proof (Hearly [] y u eq_refl) as H0. cbn [rev app] in H0.
    cbn [star_loop rmatch any ahead behind app]. rewrite H0. cbn [orelse].
    replace (length (u ++ v) <? length (y :: u ++ v)) with true
      by (symmetry; apply Nat.ltb_lt; simpl; lia).
    apply IH; [simpl in Hn; lia | |].
    + intros u1 x u2 E. specialize (Hearly (y :: u1) x u2). cbn [rev app] in Hearly.
      rewrite <- app_assoc in Hearly. apply Hearly. rewrite E. reflexivity.
    + cbn [rev] in Hk. rewrite <- app_assoc in Hk. exact Hk.
Qed.
End Lazy.

(** White space and then a backtick cannot start inside a text that has
    no backtick and does not end with white space. *)
Lemma space_then_tick (s t w r : str) (z : char) :
  count 96%N (s ++ [z]) = 0 -> is_space z = false ->
  Forall (fun c => is_space c = true) w ->
  (s ++ [z]) ++ t = w ++ 96%N :: r -> False.
Proof.
  intros Htick Hz Hw. revert s Htick. induction Hw as [|d w Hd _ IH]; intros s Htick E.
  - destruct s as [|c s]; cbn [app] in E; injection E as E _; subst;
      simpl in Htick; discriminate.
  - destruct s as [|c s]; cbn [app] in E; injection E as E1 E2.
    + subst. congruence.
    + apply (IH s); [|exact E2]. simpl in Htick.
      destruct (N.eqb c 96); [discriminate | exact Htick].
Qed.
Lemma is_infix_cons (p : str) (c : char) (s : str) :
  ConfigManager.is_infix p s = true -> ConfigManager.is_infix p (c :: s) = true.
Proof. intros H. cbn [ConfigManager.is_infix]. rewrite H. apply orb_true_r. Qed.

Lemma is_infix_after (a p s : str) :
  ConfigManager.is_infix p s = true -> ConfigManager.is_infix p (a ++ s) = true.
Proof.
  intros H. induction a as [|c a IH]; [exact H|]. cbn [app]. apply is_infix_cons, IH.
Qed.

(** White space and then a fence cannot start inside a text that holds
    no fence and ends with a character that is neither white space nor
    a backtick. *)
Lemma space_then_fence (s t w r : str) (z : char) :
  is_space z = false -> z <> 96%N ->
  Forall (fun c => is_space c = true) w ->
  (s ++ [z]) ++ t = w ++ tx "```" ++ r ->
  ConfigManager.is_infix (tx "```") (s ++ [z]) = true.
Proof.
  intros Hz Hz' Hw. revert s. induction Hw as [|d w Hd _ IH]; intros s E.
  - change (tx "```") with [96%N; 96%N; 96%N] in E. cbn [app] in E.
    destruct s as [|a [|b [|c s]]]; cbn [app] in E.
    + injection E as E _. congruence.
    + injection E as _ E _. congruence.
    + injection E as _ _ E _. congruence.
    + injection E as -> -> -> _. reflexivity.
  - destruct s as [|c s]; cbn [app] in E; injection E as E1 E2.
    + subst. congruence.
    + apply is_infix_cons, IH. exact E2.
Qed.
End ReRunMore.

(** ** What the Moonshot client extracts, and what [generate_code] makes
    of it *)
Module MoonshotPipeline.
Import Json Py Re ReFacts ReRun ReRunMore ReMiss RoundTrip Moonshot MoonshotFacts Generate.
Local Open Scope nat_scope.

(** The brace pattern finds the span from the first opening brace to the
    last closing brace. *)
Lemma braces_span (pre mid post : str) :
  count Chr.LBRACE pre = 0 ->
  count Chr.RBRACE post = 0 ->
  option_map group0
    (search Pat.braces (pre ++ Chr.LBRACE :: mid ++ Chr.RBRACE :: post))
  = Some (Chr.LBRACE :: mid ++ [Chr.RBRACE]).
Proof.
  intros Hpre Hpost.
  assert (H : match_at Pat.braces (Pos (rev pre) (Chr.LBRACE :: mid ++ Chr.RBRACE :: post))
              = Some (Pos (Chr.RBRACE :: rev mid ++ Chr.LBRACE :: rev pre) post, [])).
  { unfold match_at, Pat.braces. cbn [seqs rmatch]. rewrite rmatch_chr.
    cbn [rmatch ahead].
    apply (@star_any_last _ mid (Chr.RBRACE :: post)).
    - rewrite length_app. lia.
    - rewrite rmatch_chr. reflexivity.
    - intros x v1 v2 E. injection E as <- ->.
      unfold chr. cbn [rmatch ahead]. destruct v2 as [|d v2]; [reflexivity|].
      apply FilesOnly.count_zero_app_r, FilesOnly.count_zero_head in Hpost.
      unfold only. destruct (N.eqb_spec Chr.RBRACE d); [congruence | reflexivity]. }
  unfold Pat.braces in *. cbn [seqs] in *.
  rewrite search_after by assumption.
  rewrite (search_from_found _ _ _ H). cbn [option_map]. f_equal.
  apply steps_between. split; cbn [ahead behind fst snd].
  - cbn [app]. rewrite <- app_assoc. reflexivity.
  - cbn [rev app]. rewrite rev_app_distr. cbn [rev app]. rewrite <- !app_assoc.
    reflexivity.
Qed.

(** X11.  When the response holds no text [```json], the candidate of
    the Moonshot client is the span from the first opening brace to the
    last closing brace; when that span is JSON the client returns it as
    it is, whatever prose surrounds it, and [generate_code] parses it to
    the same value. *)
Theorem moonshot_returns_brace_span (pre mid post project_name : str) (v : value) :
  ConfigManager.is_infix (tx "```json") (pre ++ Chr.LBRACE :: mid ++ Chr.RBRACE :: post)
  = false ->
  count Chr.LBRACE pre = 0 ->
  count Chr.RBRACE post = 0 ->
  loads (Chr.LBRACE :: mid ++ [Chr.RBRACE]) = Some v ->
  extract (pre ++ Chr.LBRACE :: mid ++ Chr.RBRACE :: post) project_name
  = Chr.LBRACE :: mid ++ [Chr.RBRACE]
  /\ App.parse_response
       (extract (pre ++ Chr.LBRACE :: mid ++ Chr.RBRACE :: post) project_name)
     = App.ResponseData v.
Proof.
  intros Hfence Hpre Hpost Hloads.
  assert (E : extract (pre ++ Chr.LBRACE :: mid ++ Chr.RBRACE :: post) project_name
              = Chr.LBRACE :: mid ++ [Chr.RBRACE]).
  { unfold extract, json_content. rewrite (json_block_absent _ Hfence).
    pose proof (@braces_span pre mid post Hpre Hpost) as H.
    destruct (search Pat.braces _) as [m|]; [|discriminate].
    injection H as ->. rewrite Hloads. reflexivity. }
  split; [exact E|]. rewrite E. unfold App.parse_response.
  pose proof (braces_whole mid) as H.
  destruct (search Pat.braces _) as [m|]; [|discriminate].
  injection H as ->. rewrite Hloads. reflexivity.
Qed.

Lemma moonshot_returns_brace_span_witness :
  extract (tx "Here you go: " ++ Chr.LBRACE :: tx "'files': []" ++ Chr.RBRACE :: tx " Enjoy!")
    (tx "MyProject")
  = Chr.LBRACE :: tx "'files': []" ++ [Chr.RBRACE]
  /\ App.parse_response
       (extract (tx "Here you go: " ++ Chr.LBRACE :: tx "'files': []"
                 ++ Chr.RBRACE :: tx " Enjoy!") (tx "MyProject"))
     = App.ResponseData (Obj [(tx "files", Arr [])]).
Proof.
  apply (@moonshot_returns_brace_span (tx "Here you go: ") (tx "'files': []")
           (tx " Enjoy!") (tx "MyProject")); vm_compute; reflexivity.
Defined.

(** The pattern of line 150 at a fenced block: the group is the text
    between the white space that follows [```json] and the white space
    before the closing fence. *)
Lemma json_block_match (b ws1 body ws2 post : str) (z : char) :
  Forall (fun c => is_space c = true) ws1 ->
  Forall (fun c => is_space c = true) ws2 ->
  no_space_ahead (body ++ [z]) ->
  is_space z = false ->
  z <> 96%N ->
  ConfigManager.is_infix (tx "```") (body ++ [z]) = false ->
  exists q,
    match_at Pat.json_block
      (Pos b (tx "```json" ++ ws1 ++ (body ++ [z]) ++ ws2 ++ tx "```" ++ post))
    = Some (q, [(1, body ++ [z])]).
Proof.
  intros H1 H2 Hhead Hz Hz' Hfence.
  exists (Pos (rev (tx "```") ++ rev ws2 ++ rev (body ++ [z]) ++ rev ws1
               ++ rev (tx "```json") ++ b) post).
  unfold match_at, Pat.json_block, Pat.fence. cbn [seqs]. cbn [rmatch].
  rewrite rmatch_lit.
  apply rmatch_ws; [assumption | |].
  { destruct body; exact Hhead. }
  cbn [rmatch ahead].
  match goal with
  | |- star_loop _ _ ?k _ (Pos ?b0 _) _ = _ =>
      apply (@star_any_first _ (body ++ [z]) (ws2 ++ tx "```" ++ post) b0 [] k)
  end.
  - rewrite !length_app. lia.
  - intros u1 x u2 E.
    match goal with |- ?lhs = None => destruct lhs as [res|] eqn:Ek; [|reflexivity] end.
    exfalso. cbv beta in Ek. apply rmatch_sound in Ek.
    destruct Ek as (w & q & caps' & Hw & [Hs _] & Ek). cbn [ahead] in Hs.
    apply lang_star_cls in Hw.
    apply rmatch_sound in Ek.
    destruct Ek as (w2 & q2 & caps2 & Hw2 & [Hs2 _] & _).
    apply lang_lit in Hw2. subst w2. rewrite Hs2 in Hs.
    destruct (exists_last (l := x :: u2)) as (s' & z' & Es); [discriminate|].
    change ((x :: u2) ++ ws2 ++ tx "```" ++ post = w ++ tx "```" ++ ahead q2) in Hs.
    rewrite Es in E, Hs.
    rewrite app_assoc in E. apply app_inj_tail in E. destruct E as [-> <-].
    pose proof (@space_then_fence s' (ws2 ++ tx "```" ++ post) w (ahead q2) z
                  Hz Hz' Hw Hs) as Hin.
    rewrite <- app_assoc, (is_infix_after u1 _ _ Hin) in Hfence. discriminate.
  - apply rmatch_ws; [assumption | reflexivity |].
    rewrite rmatch_lit.
    rewrite (@steps_between _ _ (body ++ [z])).
    + reflexivity.
    + split; cbn [ahead behind]; rewrite <- ?app_assoc; reflexivity.
Qed.

(** X12.  A response that has no backtick before a [```json] block
    holding a JSON object in whose text no three backticks follow one
    another: the Moonshot client returns the text of the object,
    without the fence, the white space around the object and the prose
    around the block, and [generate_code] parses it to the same
    value. *)
Theorem moonshot_returns_fenced_object
        (pre ws1 mid ws2 post project_name : str) (v : value) :
  count 96%N pre = 0 ->
  ConfigManager.is_infix (tx "```") (Chr.LBRACE :: mid ++ [Chr.RBRACE]) = false ->
  Forall (fun c => is_space c = true) ws1 ->
  Forall (fun c => is_space c = true) ws2 ->
  loads (Chr.LBRACE :: mid ++ [Chr.RBRACE]) = Some v ->
  extract (pre ++ tx "```json" ++ ws1 ++ (Chr.LBRACE :: mid ++ [Chr.RBRACE])
           ++ ws2 ++ tx "```" ++ post) project_name
  = Chr.LBRACE :: mid ++ [Chr.RBRACE]
  /\ App.parse_response
       (extract (pre ++ tx "```json" ++ ws1 ++ (Chr.LBRACE :: mid ++ [Chr.RBRACE])
                 ++ ws2 ++ tx "```" ++ post) project_name)
     = App.ResponseData v.
Proof.
  intros Hpre Hmid H1 H2 Hloads.
  assert (E : extract (pre ++ tx "```json" ++ ws1 ++ (Chr.LBRACE :: mid ++ [Chr.RBRACE])
                       ++ ws2 ++ tx "```" ++ post) project_name
              = Chr.LBRACE :: mid ++ [Chr.RBRACE]).
  { destruct (@json_block_match (rev pre) ws1 (Chr.LBRACE :: mid) ws2 post Chr.RBRACE
                H1 H2 eq_refl eq_refl ltac:(discriminate) Hmid) as (q & Hm).
    set (text := tx "```json" ++ ws1 ++ (Chr.LBRACE :: mid ++ [Chr.RBRACE])
                 ++ ws2 ++ tx "```" ++ post) in *.
    assert (Hs : search Pat.json_block (pre ++ text)
                 = Some (Pos (rev pre) text, (q, [(1, Chr.LBRACE :: mid ++ [Chr.RBRACE])]))).
    { etransitivity;
        [exact (@search_after_lit 96%N (tx "``json")
                  (seqs [ws; Group 1 (Star false any); ws; Pat.fence]) pre text Hpre)
        | exact (search_from_found _ _ _ Hm)]. }
    unfold extract, json_content. rewrite Hs.
    unfold groupn. cbn [snd group Nat.eqb]. rewrite Hloads. reflexivity. }
  split; [exact E|]. rewrite E. unfold App.parse_response.
  pose proof (braces_whole mid) as H.
  destruct (search Pat.braces _) as [m|]; [|discriminate].
  injection H as ->. rewrite Hloads. reflexivity.
Qed.

Lemma moonshot_returns_fenced_object_witness :
  extract (tx "Here is the project:" ++ tx "```json" ++ [Chr.LF]
           ++ (Chr.LBRACE :: tx "'a': '`x`'" ++ [Chr.RBRACE])
           ++ [Chr.LF] ++ tx "```" ++ tx " Enjoy!") (tx "MyProject")
  = Chr.LBRACE :: tx "'a': '`x`'" ++ [Chr.RBRACE]
  /\ App.parse_response
       (extract (tx "Here is the project:" ++ tx "```json" ++ [Chr.LF]
                 ++ (Chr.LBRACE :: tx "'a': '`x`'" ++ [Chr.RBRACE])
                 ++ [Chr.LF] ++ tx "```" ++ tx " Enjoy!") (tx "MyProject"))
     = App.ResponseData (Obj [(tx "a", Str (tx "`x`"))]).
Proof.
  apply (@moonshot_returns_fenced_object (tx "Here is the project:") [Chr.LF]
           (tx "'a': '`x`'") [Chr.LF] (tx " Enjoy!") (tx "MyProject")).
  - reflexivity.
  - reflexivity.
  - repeat constructor.
  - repeat constructor.
  - vm_compute. reflexivity.
Defined.

(** X13.  When the candidate text of a response is not JSON, the file
    loop of [generate_code] with the Moonshot client has one entry,
    [README.md], whose content is the response text as [json.loads]
    reads it back (the response text itself when that is made of
    Unicode scalar values).  With the directories in place the list
    [created_files] is that one file when its content has a UTF-8
    encoding; otherwise the write of line 355 raises and the request
    ends in the handler of line 388.  ([_generation_info.json], written
    after the loop at line 373, is not an entry of [created_files].) *)
Theorem moonshot_fallback_creates_readme
        (content project_name : str) (input_tokens estimated_input_tokens : Z) :
  loads (json_content content) = None ->
  (forallb is_scalar content = true -> read_back content = content)
  /\ exists t,
       with_moonshot (Some (Texts.reply content)) project_name input_tokens Ready
         estimated_input_tokens
       = if forallb is_scalar (read_back content)
         then Created [(tx "README.md", read_back content)] t
         else ServerError UnicodeEncodeError.
Proof.
  intros Hnone. split; [apply read_back_scalar|].
  unfold with_moonshot.
  change (send_prd_request (Some (Texts.reply content)) project_name)
    with (Some (extract content project_name)).
  unfold extract. rewrite Hnone.
  assert (E : App.created_files
                [Obj [(tx "path", Str (tx "README.md"));
                      (tx "content", Str (read_back content))]]
              = if forallb is_scalar (read_back content)
                then Return [(tx "README.md", read_back content)]
                else Raise UnicodeEncodeError).
  { assert (F : App.file_entry
                  (Obj [(tx "path", Str (tx "README.md"));
                        (tx "content", Str (read_back content))])
                = match OpenRouter.write_text (read_back content) with
                  | Raise e => Raise e
                  | Return _ => Return (tx "README.md", read_back content)
                  end) by reflexivity.
    cbn [App.created_files]. rewrite F. unfold OpenRouter.write_text.
    destruct (forallb is_scalar (read_back content)); reflexivity. }
  eexists.
  unfold respond. rewrite dumps_fallback at 1.
  change (negb (truthy (Str (fallback_text project_name content)))) with false.
  cbv iota. rewrite app_parse_fallback.
  change (ConfigManager.get (fallback_response (read_back project_name) (read_back content))
            (tx "files") (Arr []))
    with (Return (Arr [Obj [(tx "path", Str (tx "README.md"));
                            (tx "content", Str (read_back content))]])).
  cbv iota. cbn [OpenRouter.iterate]. rewrite E.
  destruct (forallb is_scalar (read_back content)); reflexivity.
Qed.

Lemma moonshot_fallback_creates_readme_witness :
  (forallb is_scalar (tx "hello world") = true
   -> read_back (tx "hello world") = tx "hello world")
  /\ exists t,
       with_moonshot (Some (Texts.reply (tx "hello world"))) (tx "MyProject") 3 Ready 2
       = if forallb is_scalar (read_back (tx "hello world"))
         then Created [(tx "README.md", read_back (tx "hello world"))] t
         else ServerError UnicodeEncodeError.
Proof.
  apply (@moonshot_fallback_creates_readme (tx "hello world") (tx "MyProject") 3 2).
  vm_compute. reflexivity.
Defined.
End MoonshotPipeline.

(** ** What [json.dump] writes, [json.load] reads back *)
Module FileRoundTrip.
Import Json JsonFile Fuel.
Local Open Scope nat_scope.

(** *** Strings *)

Lemma file_escape_char_cases (c : char) :
  (exists x, escape_char c = [92; x]%N /\ x <> 117%N /\ unescape x = Some c)
  \/ (escape_char c = [c] /\ c <> 34%N /\ c <> 92%N /\ (31 < c)%N)
  \/ (escape_char c = u_escape c /\ (c < 32)%N).
Proof.
  unfold escape_char.
  destruct (N.eqb_spec c 92) as [->|H92]; [left; exists 92%N; repeat split; discriminate|].
  destruct (N.eqb_spec c 34) as [->|H34]; [left; exists 34%N; repeat split; discriminate|].
  destruct (N.eqb_spec c 8) as [->|H8]; [left; exists 98%N; repeat split; discriminate|].
  destruct (N.eqb_spec c 12) as [->|H12]; [left; exists 102%N; repeat split; discriminate|].
  destruct (N.eqb_spec c 10) as [->|H10]; [left; exists 110%N; repeat split; discriminate|].
  destruct (N.eqb_spec c 13) as [->|H13]; [left; exists 114%N; repeat split; discriminate|].
  destruct (N.eqb_spec c 9) as [->|H9]; [left; exists 116%N; repeat split; discriminate|].
  destruct (N.ltb_spec c 32); [right; right; auto|].
  right; left. repeat split; try assumption. lia.
Qed.

(** [scanstring] reads the body written by [encode_basestring] up to
    its closing quote and returns the string itself. *)
Lemma scanstring_escape_body (s : str) :
  forall (acc rest : str),
    scanstring (escape_body s ++ Chr.DQUOTE :: rest) acc = Some (rev acc ++ s, rest).
Proof.
  induction s as [|c s IH]; intros acc rest.
  - cbn. rewrite app_nil_r. reflexivity.
  - unfold escape_body in *. cbn [flat_map]. rewrite <- app_assoc.
    replace (rev acc ++ c :: s) with (rev (c :: acc) ++ s)
      by (cbn [rev]; rewrite <- app_assoc; reflexivity).
    destruct (file_escape_char_cases c) as [(x & -> & Hx & Hc) | [(-> & Hq & Hb & Hl) | (-> & Hl)]].
    + cbn [app]. rewrite (RoundTrip.scanstring_short _ _ Hx Hc). apply IH.
    + cbn [app]. rewrite RoundTrip.scanstring_plain by assumption. apply IH.
    + rewrite RoundTrip.scanstring_u_escape_single; [apply IH | lia |].
      left. unfold is_high_surrogate. rewrite andb_false_iff, N.leb_gt. left. lia.
Qed.

(** *** Integers *)

(** *** Integers *)

Lemma chars_of_uint (d : Decimal.uint) :
  map N_of_ascii (list_ascii_of_string (NilEmpty.string_of_uint d)) = digits d.
Proof. induction d; simpl; rewrite ?IHd; reflexivity. Qed.

Lemma int_text_pos (p : positive) : int_text (Zpos p) = digits (Pos.to_uint p).
Proof.
  unfold int_text. cbn [Z.to_int NilZero.string_of_int]. unfold NilZero.string_of_uint.
  pose proof (DecimalPos.Unsigned.to_uint_nonnil p) as H.
  destruct (Pos.to_uint p) eqn:E; try contradiction; rewrite <- E; apply chars_of_uint.
Qed.

Lemma int_text_neg (p : positive) :
  int_text (Zneg p) = Chr.MINUS :: digits (Pos.to_uint p).
Proof.
  unfold int_text. cbn [Z.to_int NilZero.string_of_int]. unfold NilZero.string_of_uint.
  pose proof (DecimalPos.Unsigned.to_uint_nonnil p) as H.
  cbn [list_ascii_of_string map]. f_equal.
  destruct (Pos.to_uint p) eqn:E; try contradiction; rewrite <- E; apply chars_of_uint.
Qed.

Lemma digits_are_digits (d : Decimal.uint) : forallb is_digit (digits d) = true.
Proof. induction d; simpl; rewrite ?IHd; reflexivity. Qed.

Lemma span_digits_app (ds rest : str) :
  forallb is_digit ds = true -> not_digit_ahead rest ->
  span_digits (ds ++ rest) = (ds, rest).
Proof.
  intros Hds Hrest. induction ds as [|c ds IH]; cbn [app].
  - destruct rest as [|c rest]; [reflexivity|]. simpl in *. rewrite Hrest. reflexivity.
  - cbn [forallb] in Hds. apply andb_true_iff in Hds. destruct Hds as [Hc Hds].
    cbn [span_digits]. rewrite Hc, IH by assumption. reflexivity.
Qed.

Lemma digits_value_acc (d : Decimal.uint) :
  forall acc : positive,
    fold_left (fun acc c => (10 * acc + (c - 48))%N) (digits d) (Npos acc)
    = Npos (Pos.of_uint_acc d acc).
Proof.
  induction d; intros acc; cbn [digits fold_left Pos.of_uint_acc];
    [reflexivity | rewrite <- IHd; f_equal; lia ..].
Qed.

Lemma digits_value_digits (d : Decimal.uint) : digits_value (digits d) = Pos.of_uint d.
Proof.
  unfold digits_value. induction d; cbn [digits fold_left Pos.of_uint];
    [reflexivity | exact IHd | rewrite <- digits_value_acc; f_equal ..].
Qed.

Lemma nzhead_not_D0 (d d' : Decimal.uint) : Decimal.nzhead d <> Decimal.D0 d'.
Proof. induction d; simpl; try discriminate; assumption. Qed.

(** The decimal writing of a positive number starts with a digit other
    than [0]. *)
Lemma to_uint_head (p : positive) :
  exists c t, digits (Pos.to_uint p) = c :: t
              /\ is_digit c = true /\ c <> Chr.ZERO /\ c <> Chr.MINUS.
Proof.
  pose proof (DecimalPos.Unsigned.to_of (Pos.to_uint p)) as H.
  rewrite DecimalPos.Unsigned.of_to in H. cbn [N.to_uint] in H.
  pose proof (DecimalPos.Unsigned.to_uint_nonnil p) as Hnil.
  pose proof (DecimalPos.Unsigned.to_uint_nonzero p) as Hzero.
  destruct (Pos.to_uint p) as [|d|d|d|d|d|d|d|d|d|d] eqn:E; try contradiction;
    try (eexists; eexists; split; [reflexivity|]; repeat split; discriminate).
  exfalso. unfold Decimal.unorm in H. cbn [Decimal.nzhead] in H.
  destruct (Decimal.nzhead d) eqn:En;
    try (rewrite <- En in H; symmetry in H; apply nzhead_not_D0 in H; exact H).
  apply Hzero. injection H as <-. reflexivity.
Qed.

Lemma number_frac_none (rest : str) :
  ends_number rest -> number_frac rest = ([], rest).
Proof.
  destruct rest as [|p [|d rest]]; try reflexivity. intros (_ & H & _).
  cbn [number_frac]. destruct (N.eqb_spec p Chr.DOT); [contradiction | reflexivity].
Qed.

Lemma number_exp_none (rest : str) :
  ends_number rest -> number_exp rest = ([], rest).
Proof.
  destruct rest as [|e rest]; [reflexivity|]. intros (_ & _ & H1 & H2).
  cbn [number_exp].
  destruct (N.eqb_spec e 101); [contradiction|].
  destruct (N.eqb_spec e 69); [contradiction | reflexivity].
Qed.

Lemma ends_number_no_digit (rest : str) : ends_number rest -> not_digit_ahead rest.
Proof. destruct rest; simpl; tauto. Qed.

(** The number pattern reads the text of an [int] back. *)
Lemma scan_number_int (z : Z) (rest : str) :
  ends_number rest -> scan_number (int_text z ++ rest) = Scanned (Int z) rest.
Proof.
  intros Hrest. pose proof (ends_number_no_digit _ Hrest) as Hnd.
  unfold scan_number, match_number. destruct z as [|p|p].
  - change (int_text 0) with [Chr.ZERO]. cbn [app number_sign N.eqb Pos.eqb Chr.ZERO Chr.MINUS].
    cbn. rewrite number_frac_none, number_exp_none by assumption. reflexivity.
  - rewrite int_text_pos.
    destruct (to_uint_head p) as (c & t & E & Hc & Hz & Hm).
    pose proof (digits_are_digits (Pos.to_uint p)) as Hall.
    pose proof (digits_value_digits (Pos.to_uint p)) as Hval.
    rewrite DecimalPos.Unsigned.of_to in Hval.
    rewrite E in *. cbn [forallb] in Hall. apply andb_true_iff in Hall.
    cbn [app number_sign]. destruct (N.eqb_spec c Chr.MINUS); [contradiction|].
    cbn [number_int]. destruct (N.eqb_spec c Chr.ZERO); [contradiction|].
    rewrite Hc, span_digits_app by tauto.
    rewrite number_frac_none, number_exp_none by assumption.
    cbn [app int_of_text]. destruct (N.eqb_spec c Chr.MINUS); [contradiction|].
    rewrite Hval. reflexivity.
  - rewrite int_text_neg.
    destruct (to_uint_head p) as (c & t & E & Hc & Hz & Hm).
    pose proof (digits_are_digits (Pos.to_uint p)) as Hall.
    pose proof (digits_value_digits (Pos.to_uint p)) as Hval.
    rewrite DecimalPos.Unsigned.of_to in Hval.
    rewrite E in *. cbn [forallb] in Hall. apply andb_true_iff in Hall.
    cbn [app number_sign]. rewrite N.eqb_refl.
    cbn [number_int]. destruct (N.eqb_spec c Chr.ZERO); [contradiction|].
    rewrite Hc, span_digits_app by tauto.
    rewrite number_frac_none, number_exp_none by assumption.
    cbn [app int_of_text]. rewrite N.eqb_refl, Hval. reflexivity.
Qed.

(** *** Fuel *)

(** More fuel does not change the result of a scan that had enough. *)
Lemma scan_more_fuel (fuel : nat) :
  (forall s, scan_once fuel s <> NoFuel -> scan_once (S fuel) s = scan_once fuel s)
  /\ (forall s acc, array_items fuel s acc <> NoFuel ->
                    array_items (S fuel) s acc = array_items fuel s acc)
  /\ (forall s acc, object_items fuel s acc <> NoFuel ->
                    object_items (S fuel) s acc = object_items fuel s acc).
Proof.
  induction fuel as [|fuel (IH1 & IH2 & IH3)];
    [repeat split; intros; simpl in *; congruence|].
  split; [|split].
  - intros [|c s] H; [reflexivity|].
    cbn [scan_once] in H. cbn [scan_once].
    destruct (N.eqb c Chr.DQUOTE); [reflexivity|].
    destruct (N.eqb c Chr.LBRACE).
    { destruct (skip_ws s) as [|d s'']; [reflexivity|].
      destruct (N.eqb d Chr.RBRACE); [reflexivity|].
      destruct (N.eqb d Chr.DQUOTE); [|reflexivity].
      apply IH3. exact H. }
    destruct (N.eqb c Chr.LBRACKET).
    { destruct (skip_ws s) as [|d s'']; [reflexivity|].
      destruct (N.eqb d Chr.RBRACKET); [reflexivity|].
      apply IH2. exact H. }
    reflexivity.
  - intros s acc H. cbn [array_items] in H.
    assert (E : array_items (S (S fuel)) s acc
                = match scan_once (S fuel) s with
                  | Scanned v rest =>
                      match skip_ws rest with
                      | d :: rest' =>
                          if N.eqb d Chr.RBRACKET then Scanned (Arr (rev (v :: acc))) rest'
                          else if N.eqb d Chr.COMMA
                          then array_items (S fuel) (skip_ws rest') (v :: acc)
                          else DecodeError
                      | [] => DecodeError
                      end
                  | DecodeError => DecodeError
                  | NoFuel => NoFuel
                  end) by reflexivity.
    rewrite E. clear E. cbn [array_items].
    destruct (scan_once fuel s) as [v rest| |] eqn:E1; [| |congruence].
    + rewrite IH1 by congruence. rewrite E1.
      destruct (skip_ws rest) as [|d rest']; [reflexivity|].
      destruct (N.eqb d Chr.RBRACKET); [reflexivity|].
      destruct (N.eqb d Chr.COMMA); [|reflexivity].
      apply IH2. exact H.
    + rewrite IH1 by congruence. rewrite E1. reflexivity.
  - intros s acc H. cbn [object_items] in H.
    assert (E : object_items (S (S fuel)) s acc
                = match scanstring s [] with
                  | None => DecodeError
                  | Some (key, rest) =>
                      match skip_ws rest with
                      | c :: rest1 =>
                          if N.eqb c Chr.COLON then
                            match scan_once (S fuel) (skip_ws rest1) with
                            | Scanned v rest2 =>
                                match skip_ws rest2 with
                                | d :: rest3 =>
                                    if N.eqb d Chr.RBRACE
                                    then Scanned (Obj (dict_of_pairs (rev ((key, v) :: acc)))) rest3
                                    else if N.eqb d Chr.COMMA then
                                      match skip_ws rest3 with
                                      | q :: rest4 =>
                                          if N.eqb q Chr.DQUOTE
                                          then object_items (S fuel) rest4 ((key, v) :: acc)
                                          else DecodeError
                                      | [] => DecodeError
                                      end
                                    else DecodeError
                                | [] => DecodeError
                                end
                            | DecodeError => DecodeError
                            | NoFuel => NoFuel
                            end
                          else DecodeError
                      | [] => DecodeError
                      end
                  end) by reflexivity.
    rewrite E. clear E. cbn [object_items].
    destruct (scanstring s []) as [[key rest]|]; [|reflexivity].
    destruct (skip_ws rest) as [|c rest1]; [reflexivity|].
    destruct (N.eqb c Chr.COLON); [|reflexivity].
    destruct (scan_once fuel (skip_ws rest1)) as [v rest2| |] eqn:E1; [| |congruence].
    + rewrite IH1 by congruence. rewrite E1.
      destruct (skip_ws rest2) as [|d rest3]; [reflexivity|].
      destruct (N.eqb d Chr.RBRACE); [reflexivity|].
      destruct (N.eqb d Chr.COMMA); [|reflexivity].
      destruct (skip_ws rest3) as [|q rest4]; [reflexivity|].
      destruct (N.eqb q Chr.DQUOTE); [|reflexivity].
      apply IH3. exact H.
    + rewrite IH1 by congruence. rewrite E1. reflexivity.
Qed.

Lemma scan_once_fuel_add (k fuel : nat) (s : str) :
  scan_once fuel s <> NoFuel -> scan_once (k + fuel) s = scan_once fuel s.
Proof.
  intros H. induction k as [|k IH]; [reflexivity|].
  cbn [Nat.add]. rewrite (proj1 (scan_more_fuel (k + fuel))); [exact IH|].
  rewrite IH. exact H.
Qed.

Lemma scan_once_fuel_le (f g : nat) (s : str) :
  f <= g -> scan_once f s <> NoFuel -> scan_once g s = scan_once f s.
Proof.
  intros Hle H. replace g with ((g - f) + f) by lia. apply scan_once_fuel_add. exact H.
Qed.

(** *** The text of a value *)

Lemma encode_Arr (indent : option nat) (level : nat) (x : value) (l : list value) :
  encode indent level (Arr (x :: l))
  = [Chr.LBRACKET] ++ newline_indent indent (S level)
    ++ join (item_separator indent (S level)) (map (encode indent (S level)) (x :: l))
    ++ newline_indent indent level ++ [Chr.RBRACKET].
Proof. reflexivity. Qed.

Lemma encode_Obj (indent : option nat) (level : nat) (kv : str * value)
      (d : list (str * value)) :
  encode indent level (Obj (kv :: d))
  = [Chr.LBRACE] ++ newline_indent indent (S level)
    ++ join (item_separator indent (S level)) (map (item indent (S level)) (kv :: d))
    ++ newline_indent indent level ++ [Chr.RBRACE].
Proof.
  assert (E : forall d0,
             (fix items (d : list (str * value)) : list str :=
                match d with
                | [] => []
                | (k, x) :: d' =>
                    (encode_basestring k ++ tx ": " ++ encode indent (S level) x)
                    :: items d'
                end) d0
             = map (item indent (S level)) d0).
  { induction d0 as [|[k' y] d0 IH]; [reflexivity|]. cbn [map]. rewrite IH. reflexivity. }
  destruct kv as [k x]. cbn [encode]. rewrite E. reflexivity.
Qed.

Lemma join_cons (sep x : str) (l : list str) : join sep (x :: l) = x ++ more sep l.
Proof. destruct l; cbn [join more]; [rewrite app_nil_r|]; reflexivity. Qed.

Lemma skip_ws_spaces (n : nat) (s : str) : skip_ws (repeat Chr.SPACE n ++ s) = skip_ws s.
Proof. induction n; [reflexivity | exact IHn]. Qed.

Lemma skip_ws_newline (indent : option nat) (level : nat) (s : str) :
  skip_ws (newline_indent indent level ++ s) = skip_ws s.
Proof.
  destruct indent as [n|]; [|reflexivity].
  cbn [newline_indent app skip_ws]. change (is_json_space Chr.LF) with true.
  cbv iota. apply skip_ws_spaces.
Qed.

Lemma skip_ws_head (c : char) (s : str) : is_json_space c = false -> skip_ws (c :: s) = c :: s.
Proof. intros H. cbn [skip_ws]. rewrite H. reflexivity. Qed.

(** After the comma of a separator, only white space. *)
Lemma item_separator_comma (indent : option nat) (level : nat) :
  exists w, item_separator indent level = Chr.COMMA :: w
            /\ forall s, skip_ws (w ++ s) = skip_ws s.
Proof.
  destruct indent as [n|].
  - exists (newline_indent (Some n) level). split; [reflexivity|].
    intros s. apply skip_ws_newline.
  - exists [Chr.SPACE]. split; reflexivity.
Qed.

Lemma ends_number_newline (indent : option nat) (level : nat) (c : char) (s : str) :
  ends_number [c] -> ends_number (newline_indent indent level ++ c :: s).
Proof.
  intros H. destruct indent as [n|]; [|exact H].
  cbn. repeat split; discriminate.
Qed.

(** The text of a value does not start with white space nor with a
    closing bracket. *)
Lemma encode_head (indent : option nat) (level : nat) (v : value) :
  plain v = true ->
  exists c t, encode indent level v = c :: t
              /\ is_json_space c = false /\ c <> Chr.RBRACKET.
Proof.
  destruct v as [|[|]|z|f|s|[|x l]|[|kv d]]; intros Hv; try discriminate;
    try (eexists; eexists; split; [reflexivity|]; split; [reflexivity | discriminate]).
  destruct z as [|p|p].
  - exists Chr.ZERO, []. repeat split. discriminate.
  - cbn [encode]. rewrite int_text_pos.
    destruct (to_uint_head p) as (c & t & -> & Hc & _ & _).
    exists c, t. split; [reflexivity|]. unfold is_digit in Hc.
    apply andb_true_iff in Hc. rewrite !N.leb_le in Hc.
    split; [|unfold Chr.RBRACKET; lia].
    unfold is_json_space, Chr.SPACE, Chr.TAB, Chr.LF, Chr.CR.
    rewrite !orb_false_iff, !N.eqb_neq. lia.
  - cbn [encode]. rewrite int_text_neg. eexists; eexists.
    split; [reflexivity|]. split; [reflexivity | discriminate].
Qed.

Lemma skip_ws_encode (indent : option nat) (level : nat) (v : value) (s : str) :
  plain v = true -> skip_ws (encode indent level v ++ s) = encode indent level v ++ s.
Proof.
  intros Hv. destruct (encode_head indent level v Hv) as (c & t & -> & Hc & _).
  apply skip_ws_head. exact Hc.
Qed.

(** *** Dicts with distinct keys *)

Lemma dict_set_new (k : str) (v : value) (d : list (str * value)) :
  dict_get k d = None -> dict_set k v d = d ++ [(k, v)].
Proof.
  induction d as [|[k' v'] d IH]; cbn [dict_get dict_set app]; [reflexivity|].
  destruct (str_eqb k k'); [discriminate|]. intros H. rewrite IH by assumption. reflexivity.
Qed.

Lemma dict_get_app (k : str) (d e : list (str * value)) :
  dict_get k (d ++ e) = match dict_get k d with Some v => Some v | None => dict_get k e end.
Proof.
  induction d as [|[k' v'] d IH]; cbn [dict_get app]; [reflexivity|].
  destruct (str_eqb k k'); [reflexivity | exact IH].
Qed.

Lemma str_eqb_sym (a b : str) : str_eqb a b = str_eqb b a.
Proof.
  destruct (str_eqb a b) eqn:E.
  - apply str_eqb_eq in E. subst. symmetry. apply str_eqb_refl.
  - destruct (str_eqb b a) eqn:E'; [|reflexivity].
    apply str_eqb_eq in E'. subst. rewrite str_eqb_refl in E. discriminate.
Qed.

Lemma dict_of_pairs_distinct (l : list (str * value)) :
  distinct_keys l = true ->
  forall acc, (forall kv, In kv l -> dict_get (fst kv) acc = None) ->
              fold_left (fun d kv => dict_set (fst kv) (snd kv) d) l acc = acc ++ l.
Proof.
  induction l as [|[k v] l IH]; intros Hl acc Hacc; cbn [fold_left].
  - rewrite app_nil_r. reflexivity.
  - cbn [distinct_keys] in Hl. destruct (dict_get k l) eqn:Ek; [discriminate|].
    cbn [fst snd]. rewrite dict_set_new by (apply (Hacc (k, v)); left; reflexivity).
    rewrite IH; [rewrite <- app_assoc; reflexivity | assumption |].
    intros [k' v'] Hin. cbn [fst]. rewrite dict_get_app.
    pose proof (Hacc (k', v') (or_intror Hin)) as Hk. cbn [fst] in Hk.
    rewrite Hk. cbn [dict_get].
    destruct (str_eqb k' k) eqn:E; [|reflexivity].
    apply str_eqb_eq in E. subst k'. exfalso. clear -Ek Hin.
    induction l as [|[k2 v2] l IHl]; [contradiction|].
    cbn [dict_get] in Ek. destruct (str_eqb k k2) eqn:E2; [discriminate|].
    destruct Hin as [H|H]; [|auto].
    injection H as -> _. rewrite str_eqb_refl in E2. discriminate.
Qed.

Lemma dict_of_pairs_id (d : list (str * value)) :
  distinct_keys d = true -> dict_of_pairs d = d.
Proof.
  intros H. unfold dict_of_pairs. rewrite dict_of_pairs_distinct; auto.
Qed.

(** *** Values *)

Lemma value_induction (P : value -> Prop) :
  P Null -> (forall b, P (Bool b)) -> (forall z, P (Int z)) ->
  (forall f, P (Float f)) -> (forall s, P (Str s)) ->
  (forall l, Forall P l -> P (Arr l)) ->
  (forall d, Forall (fun kv => P (snd kv)) d -> P (Obj d)) ->
  forall v, P v.
Proof.
  intros HN HB HI HF HS HA HO. fix IH 1.
  intros [|b|z|f|s|l|d];
    [exact HN | apply HB | apply HI | apply HF | apply HS | |].
  - apply HA. induction l as [|x l IHl]; constructor; [apply IH | exact IHl].
  - apply HO. induction d as [|[k x] d IHd]; constructor; [apply IH | exact IHd].
Qed.

Lemma plain_Arr (l : list value) :
  plain (Arr l) = true -> Forall (fun x => plain x = true) l.
Proof.
  cbn [plain]. induction l as [|x l IH]; [constructor|].
  rewrite andb_true_iff. intros [Hx Hl]. constructor; auto.
Qed.

Lemma plain_Obj (d : list (str * value)) :
  plain (Obj d) = true ->
  distinct_keys d = true /\ Forall (fun kv => plain (snd kv) = true) d.
Proof.
  cbn [plain]. rewrite andb_true_iff. intros [Hk Hd]. split; [exact Hk|].
  clear Hk. induction d as [|[k x] d IH]; [constructor|].
  apply andb_true_iff in Hd. destruct Hd as [Hx Hd]. constructor; auto.
Qed.

Lemma scan_once_bracket (f : nat) (s : str) :
  scan_once (S f) (Chr.LBRACKET :: s)
  = match skip_ws s with
    | d :: s'' =>
        if N.eqb d Chr.RBRACKET then Scanned (Arr []) s''
        else array_items f (d :: s'') []
    | [] => DecodeError
    end.
Proof. reflexivity. Qed.

Lemma scan_once_brace (f : nat) (s : str) :
  scan_once (S f) (Chr.LBRACE :: s)
  = match skip_ws s with
    | d :: s'' =>
        if N.eqb d Chr.RBRACE then Scanned (Obj []) s''
        else if N.eqb d Chr.DQUOTE then object_items f s'' []
        else DecodeError
    | [] => DecodeError
    end.
Proof. reflexivity. Qed.

Lemma scan_once_number (f : nat) (c : char) (t : str) :
  c = Chr.MINUS \/ is_digit c = true ->
  scan_once (S f) (c :: t) = scan_number (c :: t).
Proof.
  intros H. cbn [scan_once].
  assert (Hc : (c = 45 \/ 48 <= c <= 57)%N).
  { destruct H as [->|H]; [left; reflexivity|]. right. unfold is_digit in H.
    apply andb_true_iff in H. rewrite !N.leb_le in H. exact H. }
  unfold Chr.DQUOTE, Chr.LBRACE, Chr.LBRACKET.
  destruct (N.eqb_spec c 34); [lia|]. destruct (N.eqb_spec c 123); [lia|].
  destruct (N.eqb_spec c 91); [lia|]. destruct (N.eqb_spec c 110); [lia|].
  destruct (N.eqb_spec c 116); [lia|]. destruct (N.eqb_spec c 102); [lia|].
  reflexivity.
Qed.

Lemma int_text_head (z : Z) :
  exists c t, int_text z = c :: t /\ (c = Chr.MINUS \/ is_digit c = true).
Proof.
  destruct z as [|p|p].
  - exists Chr.ZERO, []. split; [reflexivity | right; reflexivity].
  - rewrite int_text_pos. destruct (to_uint_head p) as (c & t & -> & Hc & _).
    exists c, t. auto.
  - rewrite int_text_neg. eexists; eexists. split; [reflexivity | left; reflexivity].
Qed.

Section Items.
Variables (indent : option nat) (level : nat) (rest : str).

Let sep := item_separator indent (S level).

(** The loop of [JSONArray] reads the elements one after the other. *)
Lemma array_items_reads (l : list value) :
  Forall (fun x => plain x = true /\ reads x) l ->
  l <> [] ->
  forall acc,
  exists f0, forall f, f0 <= f ->
    array_items f
      (join sep (map (encode indent (S level)) l)
       ++ newline_indent indent level ++ Chr.RBRACKET :: rest) acc
    = Scanned (Arr (rev acc ++ l)) rest.
Proof.
  induction 1 as [|x l [Hp Hx] Hl IH]; [congruence|]. intros _ acc.
  cbn [map]. rewrite join_cons, <- app_assoc.
  destruct l as [|y l].
  - cbn [map more app].
    destruct (Hx indent (S level) (newline_indent indent level ++ Chr.RBRACKET :: rest))
      as (f0 & Hf0).
    { apply ends_number_newline. cbn. repeat split; discriminate. }
    exists (S f0). intros [|f] Hf; [lia|]. cbn [array_items].
    rewrite Hf0 by lia. rewrite skip_ws_newline, skip_ws_head by reflexivity.
    rewrite N.eqb_refl. cbn [rev]. reflexivity.
  - destruct (item_separator_comma indent (S level)) as (w & Hsep & Hw).
    fold sep in Hsep.
    set (J := join sep (map (encode indent (S level)) (y :: l))
              ++ newline_indent indent level ++ Chr.RBRACKET :: rest).
    replace (more sep (map (encode indent (S level)) (y :: l))
             ++ newline_indent indent level ++ Chr.RBRACKET :: rest)
      with (Chr.COMMA :: w ++ J)
      by (unfold J; cbn [map more];
          generalize (join sep (encode indent (S level) y
                                :: map (encode indent (S level)) l));
          intros X; rewrite Hsep; cbn [app]; rewrite <- app_assoc; reflexivity).
    destruct (Hx indent (S level) (Chr.COMMA :: w ++ J)) as (f0 & Hf0).
    { cbn. repeat split; discriminate. }
    destruct (IH ltac:(discriminate) (x :: acc)) as (f1 & Hf1).
    exists (S (f0 + f1)). intros [|f] Hf; [lia|]. cbn [array_items].
    rewrite Hf0 by lia. rewrite skip_ws_head by reflexivity.
    change (N.eqb Chr.COMMA Chr.RBRACKET) with false.
    change (N.eqb Chr.COMMA Chr.COMMA) with true. cbv iota.
    rewrite Hw.
    assert (EJ : skip_ws J = J).
    { inversion Hl as [|? ? [Hy _] _]; subst. unfold J. cbn [map].
      rewrite join_cons, <- app_assoc. apply skip_ws_encode. exact Hy. }
    rewrite EJ. unfold J. rewrite Hf1 by lia.
    cbn [rev]. rewrite <- app_assoc. reflexivity.
Qed.

(** The loop of [JSONObject] reads the pairs one after the other. *)
Lemma object_items_reads (d : list (str * value)) :
  Forall (fun kv => plain (snd kv) = true /\ reads (snd kv)) d ->
  forall (k : str) (v : value) (acc : list (str * value)),
    plain v = true -> reads v ->
    exists f0, forall f, f0 <= f ->
      object_items f
        (escape_body k ++ Chr.DQUOTE :: tx ": " ++ encode indent (S level) v
         ++ more sep (map (item indent (S level)) d)
         ++ newline_indent indent level ++ Chr.RBRACE :: rest) acc
      = Scanned (Obj (dict_of_pairs (rev acc ++ (k, v) :: d))) rest.
Proof.
  induction 1 as [|[k2 v2] d [Hp2 Hv2] Hd IH]; intros k v acc Hp Hv.
  - cbn [map more app].
    destruct (Hv indent (S level) (newline_indent indent level ++ Chr.RBRACE :: rest))
      as (f0 & Hf0).
    { apply ends_number_newline. cbn. repeat split; discriminate. }
    exists (S f0). intros [|f] Hf; [lia|]. cbn [object_items].
    rewrite scanstring_escape_body. cbn [rev app].
    change (tx ": ") with [Chr.COLON; Chr.SPACE]. cbn [app].
    rewrite skip_ws_head by reflexivity. rewrite N.eqb_refl.
    change (skip_ws (Chr.SPACE :: ?s)) with (skip_ws s).
    rewrite skip_ws_encode by assumption.
    rewrite Hf0 by lia. rewrite skip_ws_newline, skip_ws_head by reflexivity.
    rewrite N.eqb_refl. reflexivity.
  - destruct (item_separator_comma indent (S level)) as (w & Hsep & Hw).
    fold sep in Hsep.
    set (T := escape_body k2 ++ Chr.DQUOTE :: tx ": " ++ encode indent (S level) v2
              ++ more sep (map (item indent (S level)) d)
              ++ newline_indent indent level ++ Chr.RBRACE :: rest).
    replace (more sep (map (item indent (S level)) ((k2, v2) :: d))
             ++ newline_indent indent level ++ Chr.RBRACE :: rest)
      with (Chr.COMMA :: w ++ Chr.DQUOTE :: T).
    2: { symmetry. unfold T. cbn [map more]. rewrite join_cons.
         generalize (more sep (map (item indent (S level)) d)). intros X.
         rewrite Hsep. unfold item, encode_basestring. cbn [fst snd app].
         repeat (progress (rewrite <- ?app_assoc; cbn [app])). reflexivity. }
    destruct (Hv indent (S level) (Chr.COMMA :: w ++ Chr.DQUOTE :: T)) as (f0 & Hf0).
    { cbn. repeat split; discriminate. }
    destruct (IH k2 v2 ((k, v) :: acc) Hp2 Hv2) as (f1 & Hf1).
    exists (S (f0 + f1)). intros [|f] Hf; [lia|]. cbn [object_items].
    rewrite scanstring_escape_body. cbn [rev app].
    change (tx ": ") with [Chr.COLON; Chr.SPACE]. cbn [app].
    rewrite skip_ws_head by reflexivity. rewrite N.eqb_refl.
    change (skip_ws (Chr.SPACE :: ?s)) with (skip_ws s).
    rewrite skip_ws_encode by assumption.
    rewrite Hf0 by lia. rewrite skip_ws_head by reflexivity.
    change (N.eqb Chr.COMMA Chr.RBRACE) with false.
    change (N.eqb Chr.COMMA Chr.COMMA) with true. cbv iota.
    rewrite Hw, skip_ws_head by reflexivity. rewrite N.eqb_refl.
    unfold T. change [Chr.COLON; Chr.SPACE] with (tx ": ") in Hf1.
    rewrite Hf1 by lia. cbn [rev]. rewrite <- app_assoc. reflexivity.
Qed.
End Items.

(** The scanner reads every plain value back from its text. *)
Lemma plain_reads (v : value) : plain v = true -> reads v.
Proof.
  induction v as [|b|z|f|s|l IHl|d IHd] using value_induction;
    intros Hv indent level rest Hrest.
  - exists 1. intros [|f] Hf; [lia | reflexivity].
  - exists 1. intros [|f] Hf; [lia | destruct b; reflexivity].
  - exists 1. intros [|f] Hf; [lia|]. cbn [encode].
    destruct (int_text_head z) as (c & t & E & Hc).
    pose proof (scan_number_int z rest Hrest) as H. rewrite E in *.
    cbn [app] in *. rewrite scan_once_number by assumption. exact H.
  - discriminate.
  - exists 1. intros [|f] Hf; [lia|]. cbn [encode]. unfold encode_basestring.
    cbn [app scan_once]. rewrite N.eqb_refl, <- app_assoc. cbn [app].
    rewrite scanstring_escape_body. reflexivity.
  - destruct l as [|x l].
    { exists 1. intros [|f] Hf; [lia | reflexivity]. }
    pose proof (plain_Arr _ Hv) as Hall.
    assert (Hboth : Forall (fun x => plain x = true /\ reads x) (x :: l)).
    { clear -IHl Hall. induction IHl as [|y l0 Hy _ IH]; [constructor|].
      inversion Hall; subst. constructor; auto. }
    destruct (@array_items_reads indent level rest (x :: l) Hboth ltac:(discriminate) [])
      as (f0 & Hf0).
    exists (S f0). intros [|f] Hf; [lia|].
    rewrite encode_Arr. cbn [app]. rewrite scan_once_bracket.
    rewrite <- !app_assoc. rewrite skip_ws_newline.
    inversion Hall as [|? ? Hx _]; subst.
    destruct (encode_head indent (S level) x Hx) as (c & t & E & Hc & Hb).
    cbn [map]. rewrite join_cons, <- app_assoc, E. cbn [app].
    rewrite skip_ws_head by assumption.
    destruct (N.eqb_spec c Chr.RBRACKET); [contradiction|].
    specialize (Hf0 f ltac:(lia)). cbn [map] in Hf0.
    rewrite join_cons, <- app_assoc, E in Hf0. cbn [app] in Hf0.
    cbn [app]. rewrite Hf0. reflexivity.
  - destruct d as [|[k x] d].
    { exists 1. intros [|f] Hf; [lia | reflexivity]. }
    destruct (plain_Obj _ Hv) as [Hkeys Hall].
    assert (Hboth : Forall (fun kv => plain (snd kv) = true /\ reads (snd kv)) ((k, x) :: d)).
    { clear -IHd Hall. induction IHd as [|y l0 Hy _ IH]; [constructor|].
      inversion Hall; subst. constructor; auto. }
    inversion Hboth as [|? ? [Hx Hrx] Hd]; subst.
    destruct (@object_items_reads indent level rest d Hd k x [] Hx Hrx) as (f0 & Hf0).
    exists (S f0). intros [|f] Hf; [lia|].
    rewrite encode_Obj. cbn [app]. rewrite scan_once_brace.
    rewrite <- !app_assoc. rewrite skip_ws_newline.
    cbn [map]. rewrite join_cons. unfold item at 1. cbn [fst snd].
    unfold encode_basestring. cbn [app]. rewrite <- !app_assoc. cbn [app].
    rewrite skip_ws_head by reflexivity.
    change (N.eqb Chr.DQUOTE Chr.RBRACE) with false. rewrite N.eqb_refl.
    specialize (Hf0 f ltac:(lia)). cbn [rev app] in Hf0.
    rewrite dict_of_pairs_id in Hf0 by assumption.
    rewrite <- Hf0. reflexivity.
Qed.

(** The text [json.dump] writes for a plain value decodes to the
    value. *)
Lemma loads_encode (indent : option nat) (v : value) :
  plain v = true -> loads (encode indent 0 v) = Some v.
Proof.
  intros Hv. unfold loads, decode.
  destruct (@plain_reads v Hv indent 0 [] I) as (f0 & Hf0).
  rewrite app_nil_r in Hf0.
  set (s := encode indent 0 v) in *.
  assert (Es : skip_ws s = s).
  { pose proof (@skip_ws_encode indent 0 v [] Hv) as H.
    rewrite app_nil_r in H. exact H. }
  rewrite Es.
  pose proof (proj1 (scan_has_fuel (2 * length s + 1)) s (le_n _)) as Hfuel.
  rewrite <- (@scan_once_fuel_le (2 * length s + 1) (2 * length s + 1 + f0) s)
    by (lia || assumption).
  rewrite Hf0 by lia. reflexivity.
Qed.

End FileRoundTrip.

(** ** The configuration files *)
Module ConfigStore.
Import Json Py JsonFile FileRoundTrip ConfigFiles.

Lemma load_saved (data : value) (text : str) :
  plain data = true -> save_json data = Some text -> load_json (Some text) = data.
Proof.
  intros Hplain Hsave. unfold save_json in Hsave.
  destruct (forallb is_scalar (dump data)); [|discriminate].
  injection Hsave as <-. unfold load_json, read, dump.
  rewrite loads_encode by assumption. reflexivity.
Qed.

(** X14.  What [_save_json] writes, [_load_json] reads back: for data
    without a [float], when the write succeeds, loading the file
    returns the data. *)
Theorem save_json_load_json (data : value) (text : str) :
  plain data = true ->
  save_json data = Some text ->
  load_json (Some text) = data.
Proof. apply load_saved. Qed.

Lemma save_json_load_json_witness :
  save_json (Obj [(tx "recent_paths", Arr [Str (tx "D:\out")]); (tx "max_paths", Int 20)])
  = Some (dump (Obj [(tx "recent_paths", Arr [Str (tx "D:\out")]); (tx "max_paths", Int 20)]))
  /\ load_json
       (Some (dump (Obj [(tx "recent_paths", Arr [Str (tx "D:\out")]);
                         (tx "max_paths", Int 20)])))
     = Obj [(tx "recent_paths", Arr [Str (tx "D:\out")]); (tx "max_paths", Int 20)].
Proof.
  split; [reflexivity|].
  apply save_json_load_json; reflexivity.
Defined.

(** *** Items *)

Lemma dict_get_set (k k' : str) (v : value) (d : list (str * value)) :
  dict_get k' (dict_set k v d) = if str_eqb k' k then Some v else dict_get k' d.
Proof.
  induction d as [|[k2 v2] d IH]; cbn [dict_set dict_get].
  - destruct (str_eqb k' k); reflexivity.
  - destruct (str_eqb k k2) eqn:E.
    + apply str_eqb_eq in E. subst k2. cbn [dict_get].
      destruct (str_eqb k' k); reflexivity.
    + cbn [dict_get]. rewrite IH.
      destruct (str_eqb k' k2) eqn:E2; [|reflexivity].
      apply str_eqb_eq in E2. subst k2.
      rewrite str_eqb_sym, E. reflexivity.
Qed.

Lemma distinct_keys_set (k : str) (v : value) (d : list (str * value)) :
  distinct_keys d = true -> distinct_keys (dict_set k v d) = true.
Proof.
  induction d as [|[k2 v2] d IH]; [reflexivity|]. cbn [distinct_keys dict_set].
  destruct (dict_get k2 d) eqn:E2; [discriminate|]. intros Hd.
  destruct (str_eqb k k2) eqn:E.
  - apply str_eqb_eq in E. subst k2. cbn [distinct_keys]. rewrite E2. exact Hd.
  - cbn [distinct_keys]. rewrite dict_get_set, str_eqb_sym, E, E2. auto.
Qed.

Lemma plain_items (d : list (str * value)) :
  plain (Obj d) = true
  <-> distinct_keys d = true /\ Forall (fun kv => plain (snd kv) = true) d.
Proof.
  split; [apply plain_Obj|]. intros [Hk Hd]. cbn [plain]. rewrite Hk. cbn [andb].
  clear Hk. induction Hd as [|[k x] d Hx _ IH]; [reflexivity|].
  cbn [snd] in Hx. rewrite Hx. exact IH.
Qed.

Lemma plain_set (k : str) (v : value) (d : list (str * value)) :
  plain (Obj d) = true -> plain v = true -> plain (Obj (dict_set k v d)) = true.
Proof.
  rewrite !plain_items. intros [Hk Hd] Hv. split; [apply distinct_keys_set; exact Hk|].
  clear Hk. induction Hd as [|[k2 v2] d Hx Hd IH]; cbn [dict_set].
  - repeat constructor. exact Hv.
  - destruct (str_eqb k k2); constructor; try assumption.
Qed.

(** The item saved is the item read, and no other item changes. *)
Lemma save_item_get_item (name : str) (v : value) (f : content) (text : str) :
  plain (load_json f) = true -> plain v = true ->
  save_item name v f = Return (Some text) ->
  get_item name (Some text) = Return v
  /\ forall other, other <> name -> get_item other (Some text) = get_item other f.
Proof.
  intros Hf Hv. unfold save_item, get_item.
  destruct (load_json f) as [| | | | | |d] eqn:E; try discriminate.
  cbn [ConfigManager.set_item]. intros H. injection H as H.
  pose proof (@load_saved _ _ (@plain_set name v d Hf Hv) H) as Hload.
  rewrite Hload. cbn [ConfigManager.get]. split.
  - rewrite dict_get_set, str_eqb_refl. reflexivity.
  - intros other Hne. rewrite dict_get_set, (str_eqb_neq Hne). reflexivity.
Qed.

Lemma save_api_key_items (key_name : str) (key_value : value) (fs fs' : files) :
  plain (get_api_keys fs) = true -> plain key_value = true ->
  save_api_key key_name key_value fs = Return (Some fs') ->
  get_api_key key_name fs' = Return key_value
  /\ (forall other, other <> key_name -> get_api_key other fs' = get_api_key other fs).
Proof.
  intros Hf Hv. unfold save_api_key, get_api_key.
  destruct (save_item key_name key_value (api_keys_file fs)) as [[text|]|] eqn:E;
    try discriminate.
  intros H. injection H as <-. cbn [api_keys_file].
  exact (@save_item_get_item _ _ _ _ Hf Hv E).
Qed.

(** X15.  [save_api_key] then [get_api_key]: when the keys file holds
    no [float] and the write succeeds, the key saved is read back with
    the value saved, every other key keeps its value, and the two other
    files are not touched.  [save_setting] and [get_setting] are the
    same code on the settings file. *)
Theorem save_api_key_get_api_key
        (key_name : str) (key_value : value) (fs fs' : files) :
  plain (get_api_keys fs) = true -> plain key_value = true ->
  save_api_key key_name key_value fs = Return (Some fs') ->
  get_api_key key_name fs' = Return key_value
  /\ (forall other, other <> key_name -> get_api_key other fs' = get_api_key other fs)
  /\ settings_file fs' = settings_file fs
  /\ path_history_file fs' = path_history_file fs.
Proof.
  intros Hf Hv. unfold save_api_key, get_api_key.
  destruct (save_item key_name key_value (api_keys_file fs)) as [[text|]|] eqn:E;
    try discriminate.
  intros H. injection H as <-. cbn [api_keys_file settings_file path_history_file].
  destruct (@save_item_get_item _ _ _ _ Hf Hv E) as [H1 H2]. auto.
Qed.

Lemma save_api_key_get_api_key_witness :
  exists fs',
    save_api_key (tx "moonshot_api_key") (Str (tx "sk-1"))
      (initialize_files (Files None None None)) = Return (Some fs')
    /\ get_api_key (tx "moonshot_api_key") fs' = Return (Str (tx "sk-1"))
    /\ (forall other, other <> tx "moonshot_api_key" ->
                      get_api_key other fs'
                      = get_api_key other (initialize_files (Files None None None)))
    /\ settings_file fs' = settings_file (initialize_files (Files None None None))
    /\ path_history_file fs'
       = path_history_file (initialize_files (Files None None None)).
Proof.
  eexists. split; [vm_compute; reflexivity|].
  apply (@save_api_key_get_api_key (tx "moonshot_api_key") (Str (tx "sk-1"))
           (initialize_files (Files None None None)));
    vm_compute; reflexivity.
Defined.

(** X16.  The same for the settings. *)
Theorem save_setting_get_setting
        (setting_name : str) (v : value) (fs fs' : files) :
  plain (get_settings fs) = true -> plain v = true ->
  save_setting setting_name v fs = Return (Some fs') ->
  get_setting setting_name fs' = Return v
  /\ (forall other, other <> setting_name -> get_setting other fs' = get_setting other fs)
  /\ api_keys_file fs' = api_keys_file fs
  /\ path_history_file fs' = path_history_file fs.
Proof.
  intros Hf Hv. unfold save_setting, get_setting.
  destruct (save_item setting_name v (settings_file fs)) as [[text|]|] eqn:E;
    try discriminate.
  intros H. injection H as <-. cbn [api_keys_file settings_file path_history_file].
  destruct (@save_item_get_item _ _ _ _ Hf Hv E) as [H1 H2]. auto.
Qed.

Lemma save_setting_get_setting_witness :
  exists fs',
    save_setting (tx "selected_model") (Str (tx "qwen"))
      (Files None (Some (tx "{'max_tokens': 5000}")) None) = Return (Some fs')
    /\ get_setting (tx "selected_model") fs' = Return (Str (tx "qwen"))
    /\ (forall other, other <> tx "selected_model" ->
                      get_setting other fs'
                      = get_setting other (Files None (Some (tx "{'max_tokens': 5000}")) None))
    /\ api_keys_file fs' = None
    /\ path_history_file fs' = None.
Proof.
  eexists. split; [vm_compute; reflexivity|].
  apply (@save_setting_get_setting (tx "selected_model") (Str (tx "qwen"))
           (Files None (Some (tx "{'max_tokens': 5000}")) None));
    vm_compute; reflexivity.
Defined.

Lemma save_json_defaults :
  save_json default_api_keys = Some (dump default_api_keys)
  /\ save_json default_settings = Some (dump default_settings)
  /\ save_json ConfigManager.default_paths = Some (dump ConfigManager.default_paths).
Proof. repeat split. Qed.

(** X17.  [clear_all_data] clears nothing: it runs [_initialize_files],
    which writes a file only when it does not exist.  With the three
    files in place nothing changes, so every key, setting and path
    stored is still there; a file that is missing is created with its
    defaults. *)
Theorem clear_all_data_keeps_files (fs : files) (keys settings paths : str) :
  api_keys_file fs = Some keys ->
  settings_file fs = Some settings ->
  path_history_file fs = Some paths ->
  clear_all_data fs = fs
  /\ (forall key_name, get_api_key key_name (clear_all_data fs) = get_api_key key_name fs)
  /\ (forall name, get_setting name (clear_all_data fs) = get_setting name fs)
  /\ get_path_history (clear_all_data fs) = get_path_history fs
  /\ get_api_keys (clear_all_data (Files None (Some settings) (Some paths)))
     = default_api_keys
  /\ get_settings (clear_all_data (Files (Some keys) None (Some paths)))
     = default_settings
  /\ get_path_history (clear_all_data (Files (Some keys) (Some settings) None))
     = Return (Arr []).
Proof.
  intros H1 H2 H3.
  assert (E : clear_all_data fs = fs).
  { destruct fs as [a s p]. cbn in *. subst. reflexivity. }
  rewrite E. repeat split.
Qed.

Lemma clear_all_data_keeps_files_witness :
  clear_all_data (Files (Some (tx "{'moonshot_api_key': 'sk-1'}")) (Some (tx "{}"))
                    (Some (tx "{'recent_paths': ['D:/out']}")))
  = Files (Some (tx "{'moonshot_api_key': 'sk-1'}")) (Some (tx "{}"))
      (Some (tx "{'recent_paths': ['D:/out']}"))
  /\ get_api_key (tx "moonshot_api_key")
       (clear_all_data (Files (Some (tx "{'moonshot_api_key': 'sk-1'}")) (Some (tx "{}"))
                          (Some (tx "{'recent_paths': ['D:/out']}"))))
     = Return (Str (tx "sk-1")).
Proof.
  destruct (@clear_all_data_keeps_files
              (Files (Some (tx "{'moonshot_api_key': 'sk-1'}")) (Some (tx "{}"))
                 (Some (tx "{'recent_paths': ['D:/out']}")))
              (tx "{'moonshot_api_key': 'sk-1'}") (tx "{}")
              (tx "{'recent_paths': ['D:/out']}") eq_refl eq_refl eq_refl)
    as (E & Hk & _).
  split; [exact E|]. rewrite Hk. vm_compute. reflexivity.
Defined.

(** *** Posting several items *)

Lemma save_item_plain (name : str) (v : value) (f : content) (text : str) :
  plain (load_json f) = true -> plain v = true ->
  save_item name v f = Return (Some text) ->
  plain (load_json (Some text)) = true.
Proof.
  intros Hf Hv. unfold save_item.
  destruct (load_json f) as [| | | | | |d] eqn:E; try discriminate.
  cbn [ConfigManager.set_item]. intros H. injection H as H.
  rewrite (@load_saved _ _ (@plain_set name v d Hf Hv) H).
  apply plain_set; assumption.
Qed.

Lemma distinct_keys_In (k : str) (v : value) (d : list (str * value)) :
  dict_get k d = None -> forall v', ~ In (k, v') d.
Proof.
  induction d as [|[k2 v2] d IH]; cbn [dict_get]; [tauto|].
  destruct (str_eqb k k2) eqn:E; [discriminate|]. intros H v' [Hin|Hin].
  - injection Hin as -> _. rewrite str_eqb_refl in E. discriminate.
  - exact (IH H v' Hin).
Qed.

Lemma save_items_api_keys (d : list (str * value)) :
  forall fs fs',
    plain (get_api_keys fs) = true ->
    distinct_keys d = true ->
    Forall (fun kv => plain (snd kv) = true) d ->
    save_items save_api_key d fs = Return (Some fs') ->
    (forall k v, In (k, v) d -> get_api_key k fs' = Return v)
    /\ (forall k, dict_get k d = None -> get_api_key k fs' = get_api_key k fs).
Proof.
  induction d as [|[k v] d IH]; intros fs fs' Hfs Hkeys Hvals Hsave.
  - injection Hsave as <-. split; [intros k v []|reflexivity].
  - cbn [save_items] in Hsave.
    destruct (save_api_key k v fs) as [[fs1|]|] eqn:E1; try discriminate.
    cbn [distinct_keys] in Hkeys. destruct (dict_get k d) eqn:Ek; [discriminate|].
    inversion Hvals as [|? ? Hv Hd]; subst. cbn [snd] in Hv.
    assert (Hfs1 : plain (get_api_keys fs1) = true).
    { unfold save_api_key in E1.
      destruct (save_item k v (api_keys_file fs)) as [[text|]|] eqn:E; try discriminate.
      injection E1 as <-. unfold get_api_keys. cbn [api_keys_file].
      exact (@save_item_plain _ _ _ _ Hfs Hv E). }
    destruct (@save_api_key_items k v fs fs1 Hfs Hv E1) as [Hsame Hother].
    destruct (IH fs1 fs' Hfs1 Hkeys Hd Hsave) as [IH1 IH2].
    split.
    + intros k' v' [Hin|Hin].
      * injection Hin as <- <-. rewrite (IH2 k Ek). exact Hsame.
      * apply IH1. exact Hin.
    + intros k' Hk'. cbn [dict_get] in Hk'.
      destruct (str_eqb k' k) eqn:E; [discriminate|].
      rewrite (IH2 k' Hk'). apply Hother.
      intros ->. rewrite str_eqb_refl in E. discriminate.
Qed.

(** X18.  The route that saves API keys: when the keys file holds no
    [float], a posted dict of values without [float] is saved key by
    key; when every write succeeds, each posted key is read back with
    its posted value and every key that was not posted keeps its
    value. *)
Theorem save_api_keys_stores_all (d : list (str * value)) (fs fs' : files) :
  plain (get_api_keys fs) = true ->
  plain (Obj d) = true ->
  save_api_keys (Obj d) fs = Return (Some fs') ->
  (forall k v, In (k, v) d -> get_api_key k fs' = Return v)
  /\ (forall k, dict_get k d = None -> get_api_key k fs' = get_api_key k fs).
Proof.
  intros Hfs Hd Hsave. apply plain_items in Hd. destruct Hd as [Hkeys Hvals].
  exact (@save_items_api_keys d fs fs' Hfs Hkeys Hvals Hsave).
Qed.

Lemma save_api_keys_stores_all_witness :
  exists fs',
    save_api_keys (Obj [(tx "moonshot_api_key", Str (tx "sk-1")); (tx "other", Int 7)])
      (initialize_files (Files None None None)) = Return (Some fs')
    /\ (forall k v, In (k, v) [(tx "moonshot_api_key", Str (tx "sk-1")); (tx "other", Int 7)]
                    -> get_api_key k fs' = Return v)
    /\ (forall k, dict_get k [(tx "moonshot_api_key", Str (tx "sk-1")); (tx "other", Int 7)]
                  = None
                  -> get_api_key k fs'
                     = get_api_key k (initialize_files (Files None None None))).
Proof.
  eexists. split; [vm_compute; reflexivity|].
  apply (@save_api_keys_stores_all
           [(tx "moonshot_api_key", Str (tx "sk-1")); (tx "other", Int 7)]
           (initialize_files (Files None None None)));
    vm_compute; reflexivity.
Defined.
End ConfigStore.

(** ** The project name *)
Module Naming.
Import Re ReFacts ReRun ReRunMore Generate ProjectName.
Local Open Scope nat_scope.

Section Dot.
Variable A : Type.
Implicit Types (k : pos -> captures -> option A) (caps : captures).

(** Greedy [.*] takes the rest of the line when the continuation
    accepts what follows. *)
Lemma star_dot_all (w b rest : str) caps k (res : A) (n : nat) :
  count Chr.LF w = 0 ->
  line_end rest ->
  length w <= n ->
  k (Pos (rev w ++ b) rest) caps = Some res ->
  star_loop (rmatch dot) true k n (Pos b (w ++ rest)) caps = Some res.
Proof.
  intros Hw Hrest. revert b n. induction w as [|c w IH]; intros b n Hn Hk.
  - destruct n as [|n]; [exact Hk|]. cbn [star_loop rmatch dot ahead app].
    destruct rest as [|d rest]; [exact Hk|].
    simpl in Hrest. subst d. rewrite N.eqb_refl. exact Hk.
  - destruct n as [|n]; [simpl in Hn; lia|].
    assert (Hc : N.eqb c Chr.LF = false).
    { simpl in Hw. destruct (N.eqb c Chr.LF); [discriminate | reflexivity]. }
    assert (Hw' : count Chr.LF w = 0).
    { simpl in Hw. rewrite Hc in Hw. exact Hw. }
    cbn [star_loop rmatch dot ahead app]. rewrite Hc. cbn [negb ahead behind].
    replace (length (w ++ rest) <? length (c :: w ++ rest)) with true
      by (symmetry; apply Nat.ltb_lt; simpl; lia).
    rewrite (IH Hw'); [reflexivity | simpl in Hn; lia |].
    simpl in Hk. rewrite <- app_assoc in Hk. exact Hk.
Qed.
End Dot.

Lemma header_front (t : regex) (kw tail b : str) (k : pos -> captures -> option result)
      (res : result) :
  In kw keywords ->
  rmatch t (Pos (rev (tx "# " ++ kw ++ [Chr.COLON]) ++ b) tail) [] k = Some res ->
  rmatch (Seq (chr HASH)
            (Seq ws
               (Seq (Alt (ilit (tx "project"))
                       (Alt (ilit (tx "app"))
                          (Alt (ilit (tx "application")) (ilit (tx "system")))))
                  (Seq (opt (Seq ws (ilit (tx "name"))))
                     (Seq (chr Chr.COLON) t)))))
    (Pos b (tx "# " ++ kw ++ Chr.COLON :: tail)) [] k = Some res.
Proof.
  intros Hkw H. cbn in Hkw.
  destruct Hkw as [<-|[<-|[<-|[<-|[<-|[<-|[<-|[<-|[]]]]]]]]];
    cbn in H |- *; rewrite ?Nat.leb_refl; cbn; rewrite H; reflexivity.
Qed.

Lemma header_tail (name rest b : str) (c : char) :
  is_space c = false ->
  count Chr.LF (c :: name) = 0 ->
  line_end rest ->
  rmatch (Seq ws (Group 1 (plus dot))) (Pos b (Chr.SPACE :: (c :: name) ++ rest)) []
    (fun q caps => Some (q, caps))
  = Some (Pos (rev (Chr.SPACE :: c :: name) ++ b) rest, [(1, c :: name)]).
Proof.
  intros Hc Hlf Hrest.
  assert (Hc' : N.eqb c Chr.LF = false).
  { simpl in Hlf. destruct (N.eqb c Chr.LF); [discriminate | reflexivity]. }
  assert (Hname : count Chr.LF name = 0).
  { simpl in Hlf. rewrite Hc' in Hlf. exact Hlf. }
  cbn [rmatch].
  apply (@rmatch_ws _ [Chr.SPACE] b ((c :: name) ++ rest)).
  - repeat constructor.
  - exact Hc.
  - cbn [rmatch plus dot ahead app rev]. rewrite Hc'. cbn [negb ahead behind].
    apply star_dot_all; [exact Hname | exact Hrest | rewrite length_app; lia |].
    f_equal. f_equal.
    + cbn [rev app]. rewrite <- !app_assoc. reflexivity.
    + f_equal. f_equal. apply steps_between.
      split; cbn [ahead behind]; [reflexivity|].
      cbn [rev app]. rewrite <- !app_assoc. reflexivity.
Qed.

Lemma header_match (kw name rest b : str) (c : char) :
  In kw keywords ->
  is_space c = false ->
  count Chr.LF (c :: name) = 0 ->
  line_end rest ->
  exists q, match_at header (Pos b (tx "# " ++ kw ++ tx ": " ++ (c :: name) ++ rest))
            = Some (q, [(1, c :: name)]).
Proof.
  intros Hkw Hc Hlf Hrest. eexists. unfold match_at.
  change header with
    (Seq (chr HASH)
       (Seq ws
          (Seq (Alt (ilit (tx "project"))
                  (Alt (ilit (tx "app"))
                     (Alt (ilit (tx "application")) (ilit (tx "system")))))
             (Seq (opt (Seq ws (ilit (tx "name"))))
                (Seq (chr Chr.COLON) (Seq ws (Group 1 (plus dot)))))))).
  change (tx ": " ++ (c :: name) ++ rest)
    with (Chr.COLON :: Chr.SPACE :: (c :: name) ++ rest).
  apply header_front; [exact Hkw|].
  apply header_tail; assumption.
Qed.

(** Uploads without a file name are passed over. *)
Lemma read_uploads_unnamed (nt : bool) (files : list upload) (more : list upload)
      (combined : list str) (project_name : option str) :
  Forall (fun f => filename f = []) files ->
  read_uploads nt (files ++ more) combined project_name
  = read_uploads nt more combined project_name.
Proof.
  induction 1 as [|f files Hf _ IH]; [reflexivity|].
  cbn [app read_uploads]. rewrite Hf. exact IH.
Qed.

(** Once the name is set the other uploads leave it alone. *)
Lemma read_uploads_named (nt : bool) (files : list upload) :
  forall (combined : list str) (c : char) (name : str),
    Forall (fun f => filename f = [] \/ text f <> None) files ->
    exists more,
      read_uploads nt files combined (Some (c :: name))
      = Some (combined ++ more, Some (c :: name)).
Proof.
  induction files as [|f files IH]; intros combined c name H.
  - exists []. cbn. rewrite app_nil_r. reflexivity.
  - inversion H as [|? ? Hf Hfiles]; subst. cbn [read_uploads].
    destruct (filename f) as [|x fn] eqn:Efn.
    + apply IH; exact Hfiles.
    + destruct Hf as [Hf|Hf]; [discriminate|].
      destruct (text f) as [content|]; [|congruence].
      cbn [unset].
      destruct (IH (combined ++ [tx "=== File: " ++ (x :: fn) ++ tx " ===" ++ [Chr.LF] ++ content])
                  c name Hfiles) as (more & E).
      rewrite E. rewrite <- app_assoc. eexists. reflexivity.
Qed.

(** [rfind]: no occurrence after the index found. *)
Lemma rfind_from_spec (c : char) (s : str) :
  forall (i found : Z),
    (found < i)%Z ->
    let r := rfind_from c s i found in
    (r = found /\ count c s = 0)
    \/ ((i <= r < i + Z.of_nat (length s))%Z
        /\ count c (skipn (S (Z.to_nat (r - i))) s) = 0).
Proof.
  induction s as [|x s IH]; intros i found Hlt; cbn zeta.
  - left. split; reflexivity.
  - cbn [rfind_from length count].
    destruct (N.eqb x c) eqn:E.
    + right. destruct (IH (i + 1)%Z i ltac:(lia)) as [[Hr H0]|[Hr H0]]; cbn zeta in *.
      * rewrite Hr. split; [lia|]. replace (Z.to_nat (i - i)) with 0 by lia.
        cbn [skipn]. exact H0.
      * split; [lia|].
        replace (Z.to_nat (rfind_from c s (i + 1) i - i))
          with (S (Z.to_nat (rfind_from c s (i + 1) i - (i + 1)))) by lia.
        cbn [skipn]. exact H0.
    + destruct (IH (i + 1)%Z found ltac:(lia)) as [[Hr H0]|[Hr H0]]; cbn zeta in *.
      * left. split; [exact Hr | exact H0].
      * right. split; [lia|].
        replace (Z.to_nat (rfind_from c s (i + 1) found - i))
          with (S (Z.to_nat (rfind_from c s (i + 1) found - (i + 1)))) by lia.
        cbn [skipn]. exact H0.
Qed.

Lemma rfind_spec (c : char) (s : str) :
  ((rfind c s = -1)%Z /\ count c s = 0)
  \/ ((0 <= rfind c s < Z.of_nat (length s))%Z
      /\ count c (skipn (S (Z.to_nat (rfind c s))) s) = 0).
Proof.
  pose proof (@rfind_from_spec c s 0%Z (-1)%Z ltac:(lia)) as H. cbn zeta in H.
  unfold rfind. rewrite Z.sub_0_r in H. exact H.
Qed.

Lemma count_skipn_more (c : char) (s : str) (n m : nat) :
  n <= m -> count c (skipn n s) = 0 -> count c (skipn m s) = 0.
Proof.
  intros Hnm H. replace m with ((m - n) + n) by lia. rewrite <- skipn_skipn.
  rewrite <- (firstn_skipn (m - n) (skipn n s)) in H. rewrite count_app in H. lia.
Qed.

(** The root is a non-empty prefix of the path, and what is cut off has
    no forward slash: the directory part of the path stays. *)
Lemma splitext_root_prefix (nt : bool) (p : str) :
  p <> [] ->
  splitext_root nt p <> []
  /\ exists ext, p = splitext_root nt p ++ ext /\ count SLASH ext = 0.
Proof.
  intros Hp. unfold splitext_root.
  set (sepIndex := if nt then Z.max (rfind Chr.BACKSLASH p) (rfind SLASH p)
                   else rfind SLASH p).
  assert (Hsep : (rfind SLASH p <= sepIndex)%Z) by (subst sepIndex; destruct nt; lia).
  assert (Hsep0 : (-1 <= sepIndex)%Z).
  { destruct (rfind_spec SLASH p) as [[? _]|[? _]]; lia. }
  destruct ((sepIndex <? rfind Chr.DOT p)%Z
            && negb (forallb (only Chr.DOT) (slice p (sepIndex + 1) (rfind Chr.DOT p))))
    eqn:E.
  - apply andb_true_iff in E. destruct E as [Hlt Hdots].
    apply Z.ltb_lt in Hlt.
    destruct (rfind_spec Chr.DOT p) as [[Hd _]|[Hd _]]; [lia|].
    split.
    + assert (Hs : slice p (sepIndex + 1) (rfind Chr.DOT p) <> []).
      { intros Hs. rewrite Hs in Hdots. discriminate. }
      unfold slice in Hs.
      destruct (Z.to_nat (rfind Chr.DOT p - (sepIndex + 1))) eqn:En;
        [exfalso; apply Hs; reflexivity|].
      destruct (Z.to_nat (rfind Chr.DOT p)) eqn:Ed; [lia|].
      destruct p; [congruence | discriminate].
    + exists (skipn (Z.to_nat (rfind Chr.DOT p)) p). split.
      * symmetry. apply firstn_skipn.
      * destruct (rfind_spec SLASH p) as [[_ H0]|[Hs H0]].
        -- rewrite <- (firstn_skipn (Z.to_nat (rfind Chr.DOT p)) p) in H0.
           rewrite count_app in H0. lia.
        -- apply (@count_skipn_more _ _ (S (Z.to_nat (rfind SLASH p)))); [lia | exact H0].
  - split; [exact Hp|]. exists []. rewrite app_nil_r. split; reflexivity.
Qed.

Lemma replace_length (old new : char) (s : str) : length (replace old new s) = length s.
Proof. apply length_map. Qed.

Lemma clean_no_space_hyphen (s : str) :
  count Chr.SPACE (clean s) = 0 /\ count Chr.MINUS (clean s) = 0.
Proof.
  unfold clean, replace. induction s as [|c s [IH1 IH2]]; [split; reflexivity|].
  cbn [map count].
  destruct (N.eqb_spec c Chr.SPACE) as [->|H1]; [split; assumption|].
  destruct (N.eqb_spec c Chr.MINUS) as [->|H2]; [split; assumption|].
  destruct (N.eqb_spec c Chr.SPACE); [contradiction|].
  destruct (N.eqb_spec c Chr.MINUS); [contradiction|]. split; assumption.
Qed.

Lemma clean_length (s : str) : length (clean s) = length s.
Proof. unfold clean. rewrite !replace_length. reflexivity. Qed.

(** X19.  With a named upload the project name comes from the name of
    the first one, whatever the pasted text and the contents say: it is
    the root of the file name as the client sent it, spaces and hyphens
    replaced by underscores.  The root is a non-empty prefix of the file
    name and what [splitext] cuts off holds no forward slash, so every
    directory of the file name stays in the project name. *)
Theorem upload_names_project (nt : bool) (unnamed : list upload) (file : upload)
        (others : list upload) (prd_text now : str) :
  Forall (fun f => filename f = []) unnamed ->
  filename file <> [] ->
  Forall (fun f => filename f = [] \/ text f <> None) (file :: others) ->
  let root := splitext_root nt (filename file) in
  (exists full_prd_content,
      name_project nt (unnamed ++ file :: others) prd_text now
      = Named full_prd_content (clean root))
  /\ root <> []
  /\ (exists ext, filename file = root ++ ext /\ count SLASH ext = 0)
  /\ length (clean root) = length root
  /\ count Chr.SPACE (clean root) = 0 /\ count Chr.MINUS (clean root) = 0.
Proof.
  intros Hun Hname Hall root.
  destruct (splitext_root_prefix nt Hname) as (Hroot & Hext).
  fold root in Hroot, Hext.
  split; [|split; [exact Hroot | split; [exact Hext | split; [apply clean_length |]]]].
  2: apply clean_no_space_hyphen.
  unfold name_project. rewrite (read_uploads_unnamed nt _ _ _ Hun).
  inversion Hall as [|? ? Hf Hothers]; subst.
  cbn [read_uploads]. destruct (filename file) as [|x fn] eqn:Efn; [congruence|].
  destruct Hf as [Hf|Hf]; [discriminate|].
  destruct (text file) as [content|]; [|congruence].
  cbn [unset]. change (splitext_root nt (x :: fn)) with root.
  assert (Hc : clean root <> []).
  { intros E. apply (f_equal (@length _)) in E. rewrite clean_length in E.
    destruct root; [congruence | discriminate]. }
  destruct (clean root) as [|c name] eqn:Ec; [congruence|].
  match goal with
  | |- context [read_uploads nt others ?l _] => set (entries := l)
  end.
  destruct (read_uploads_named nt entries c name Hothers) as (more & E).
  destruct (read_uploads nt others entries _) as [[combined project_name]|] eqn:E0;
    [|discriminate].
  injection E as -> ->. subst entries. cbn [app]. eexists. reflexivity.
Qed.

Lemma upload_names_project_witness :
  exists full_prd_content,
    name_project false
      [Upload [] None; Upload (tx "../../etc/my app-v1.2.md") (Some (tx "# Project: Shop"))]
      (tx "# Project: Other") (tx "20250101_000000")
    = Named full_prd_content (tx "../../etc/my_app_v1.2").
Proof.
  assert (H1 : Forall (fun f => filename f = []) [Upload [] None])
    by (repeat constructor).
  assert (H2 : filename (Upload (tx "../../etc/my app-v1.2.md")
                           (Some (tx "# Project: Shop"))) <> []) by discriminate.
  assert (H3 : Forall (fun f => filename f = [] \/ text f <> None)
                 [Upload (tx "../../etc/my app-v1.2.md") (Some (tx "# Project: Shop"))])
    by (constructor; [right; discriminate | constructor]).
  pose proof (@upload_names_project false _ _ _ (tx "# Project: Other")
                (tx "20250101_000000") H1 H2 H3) as H.
  cbn zeta in H. destruct H as (H & _). exact H.
Defined.

(** X20.  Without a named upload, a pasted text with no [#] before a
    header line [# Project: name] (or [App], [Application], [System],
    each also followed by [ Name]) names the project after the rest of
    that line, stripped, with spaces and hyphens replaced by
    underscores. *)
Theorem header_names_project (nt : bool) (files : list upload) (pre kw name rest now : str)
        (c : char) :
  Forall (fun f => filename f = []) files ->
  count HASH pre = 0 ->
  In kw keywords ->
  is_space c = false ->
  count Chr.LF (c :: name) = 0 ->
  line_end rest ->
  let prd_text := pre ++ tx "# " ++ kw ++ tx ": " ++ (c :: name) ++ rest in
  name_project nt files prd_text now = Named prd_text (clean (strip (c :: name))).
Proof.
  intros Hfiles Hpre Hkw Hc Hlf Hrest prd_text.
  unfold name_project.
  rewrite <- (app_nil_r files), (read_uploads_unnamed nt _ _ _ Hfiles).
  cbn [read_uploads].
  assert (Hne : exists x t, prd_text = x :: t).
  { subst prd_text. destruct pre; cbn; eauto. }
  destruct Hne as (x & t & Ept). rewrite Ept. rewrite <- Ept.
  cbn [Json.join]. f_equal.
  unfold from_content.
  destruct (@header_match kw name rest (rev pre) c Hkw Hc Hlf Hrest) as (q & Hm).
  assert (Hs : search header prd_text
               = Some (Pos (rev pre) (tx "# " ++ kw ++ tx ": " ++ (c :: name) ++ rest),
                       (q, [(1, c :: name)]))).
  { subst prd_text.
    change header with (Seq (chr HASH) (seqs (tl (
      [chr HASH; ws;
        Alt (ilit (tx "project"))
          (Alt (ilit (tx "app"))
             (Alt (ilit (tx "application")) (ilit (tx "system"))));
        opt (Seq ws (ilit (tx "name")));
        chr Chr.COLON; ws; Group 1 (plus dot)])))).
    rewrite (@search_after HASH _ pre _ Hpre).
    apply search_from_found. exact Hm. }
  rewrite Hs. reflexivity.
Qed.

Lemma header_names_project_witness :
  name_project true [Upload [] None]
    (tx "Notes" ++ [Chr.LF] ++ tx "# App Name: my shop-front  " ++ [Chr.LF] ++ tx "More")
    (tx "20250101_000000")
  = Named (tx "Notes" ++ [Chr.LF] ++ tx "# App Name: my shop-front  " ++ [Chr.LF] ++ tx "More")
      (tx "my_shop_front").
Proof.
  apply (@header_names_project true [Upload [] None] (tx "Notes" ++ [Chr.LF])
           (tx "App Name") (tx "y shop-front  ") (Chr.LF :: tx "More")
           (tx "20250101_000000") 109%N).
  - repeat constructor.
  - reflexivity.
  - cbn. tauto.
  - reflexivity.
  - reflexivity.
  - reflexivity.
Defined.
End Naming.

(** ** The Alibaba client *)
Module AlibabaFacts.
Import Json Py Generate Alibaba.

Lemma lookup_In (key : str) (l : list (str * model_config)) (m : model_config) :
  lookup key l = Some m -> In (key, m) l.
Proof.
  induction l as [|[k m'] l IH]; [discriminate|]. cbn [lookup].
  destruct (str_eqb key k) eqn:E.
  - intros H. injection H as ->. apply str_eqb_eq in E. subst. left. reflexivity.
  - intros H. right. apply IH. exact H.
Qed.

(** The active model is always a key of the table. *)
Lemma run_model_known (ops : list op) : lookup (model (run ops)) models <> None.
Proof.
  unfold run. assert (H : lookup (model new) models <> None) by discriminate.
  revert H. generalize new. induction ops as [|o ops IH]; intros c H; [exact H|].
  cbn [fold_left]. apply IH. destruct o as [key|b]; cbn [apply_op model].
  - unfold set_model. destruct (lookup key models) eqn:E; [|exact H].
    cbn [model]. rewrite E. discriminate.
  - exact H.
Qed.

(** X21.  Whatever models a caller asked for and however thinking was
    switched, the request of [send_completion] names a model of the
    table, asks for no more tokens than the caller did and than that
    model has, and carries [extra_body] only for a model that supports
    thinking; an unknown model key leaves the client as it was. *)
Theorem request_within_model (ops : list op) (messages : value) (requested : Z)
        (enable_thinking_arg : option bool) :
  let c := run ops in
  (exists m d sent,
      In (model c, m) models
      /\ payload c messages requested enable_thinking_arg = Obj d
      /\ dict_get (tx "model") d = Some (Str (model_id m))
      /\ dict_get (tx "max_tokens") d = Some (Int sent)
      /\ (sent <= requested)%Z /\ (sent <= max_tokens m)%Z
      /\ (dict_get (tx "extra_body") d <> None -> supports_thinking m = true))
  /\ (forall model_key, lookup model_key models = None -> set_model model_key c = c).
Proof.
  intros c. split.
  - pose proof (run_model_known ops) as Hk. fold c in Hk.
    destruct (lookup (model c) models) as [m|] eqn:E; [|congruence].
    exists m. unfold payload, config. rewrite E.
    eexists. exists (Z.min requested (max_tokens m)).
    split; [apply lookup_In; exact E|].
    split; [reflexivity|].
    split; [reflexivity|].
    split; [reflexivity|].
    split; [lia|]. split; [lia|].
    destruct (supports_thinking m); [reflexivity|].
    rewrite andb_false_r. cbn. congruence.
  - intros key H. unfold set_model. rewrite H. reflexivity.
Qed.

(** X22.  With an Alibaba client the token counts [generate_code]
    reports are those of the reply: whenever files are created the
    reply had status 200 and a dict as body, and the three counts are
    the entries of its usage, 0 for a count the usage does not have;
    the estimate is never reported. *)
Theorem alibaba_usage_reported (c : client) (reply : option (Z * option value))
        (dirs : directories) (estimated_input_tokens : Z)
        (files : list (str * str)) (t : value) :
  with_alibaba c reply dirs estimated_input_tokens = Created files t ->
  exists result usage,
    reply = Some (200%Z, Some (Obj result))
    /\ ConfigManager.get (Obj result) (tx "usage") (Obj []) = Return (Obj usage)
    /\ t = Obj [(tx "actual_input", usage_count usage (tx "prompt_tokens"));
                (tx "output", usage_count usage (tx "completion_tokens"));
                (tx "total", usage_count usage (tx "total_tokens"))].
Proof.
  unfold with_alibaba, send_prd_request, send_completion.
  destruct reply as [[status_code body]|]; [|discriminate].
  destruct (Z.eqb_spec status_code 200) as [->|_]; [|discriminate].
  destruct body as [result|]; [|discriminate].
  destruct result as [| | | | | |result]; try discriminate.
  cbn [subscript].
  destruct (dict_get (tx "choices") result) as [choices|]; [|discriminate].
  destruct (first_item choices) as [choice|]; [|discriminate].
  destruct (subscript choice (tx "message")) as [message|]; [|discriminate].
  destruct (subscript message (tx "content")) as [content|]; [|discriminate].
  unfold get at 1. cbn [ConfigManager.get].
  destruct (match dict_get (tx "usage") result with Some v => v | None => Obj [] end)
    as [| | | | | |usage] eqn:Eu; try discriminate.
  unfold get. cbn [ConfigManager.get].
  unfold respond.
  destruct (negb _); [discriminate|].
  destruct dirs; try discriminate.
  destruct content; try discriminate.
  destruct (App.parse_response s); try discriminate.
  destruct (ConfigManager.get _ _ _); [|discriminate].
  destruct (OpenRouter.iterate _); [|discriminate].
  destruct (App.created_files _); [|discriminate].
  cbn. intros H. injection H as _ <-.
  exists result, usage. repeat split.
  cbn [ConfigManager.get]. f_equal. exact Eu.
Qed.

Lemma alibaba_usage_reported_witness :
  with_alibaba qwen_client
    (Some (200%Z, Some (Replies.usage_reply (tx "{'files': []}") 12 3400 3412)))
    Ready 11
  = Created [] (Obj [(tx "actual_input", Int 12); (tx "output", Int 3400);
                     (tx "total", Int 3412)])
  /\ exists result usage,
       Some (200%Z, Some (Replies.usage_reply (tx "{'files': []}") 12 3400 3412))
       = Some (200%Z, Some (Obj result))
       /\ ConfigManager.get (Obj result) (tx "usage") (Obj []) = Return (Obj usage)
       /\ Obj [(tx "actual_input", Int 12); (tx "output", Int 3400); (tx "total", Int 3412)]
          = Obj [(tx "actual_input", usage_count usage (tx "prompt_tokens"));
                 (tx "output", usage_count usage (tx "completion_tokens"));
                 (tx "total", usage_count usage (tx "total_tokens"))].
Proof.
  split; [vm_compute; reflexivity|].
  apply (@alibaba_usage_reported qwen_client
           (Some (200%Z, Some (Replies.usage_reply (tx "{'files': []}") 12 3400 3412)))
           Ready 11 []).
  vm_compute. reflexivity.
Defined.
End AlibabaFacts.

(** ** A JSON document has its quotes in pairs *)
Module QuoteFacts.
Import Json Quotes.
Local Open Scope nat_scope.

Lemma qrun_app (s : qstate) (u v : str) : qrun s (u ++ v) = qrun (qrun s u) v.
Proof. apply fold_left_app. Qed.

Lemma qrun_dead (w : str) : qrun Dead w = Dead.
Proof. induction w as [|c w IH]; [reflexivity | exact IH]. Qed.

Lemma quiet_out (c : char) : is_quiet c = true -> qstep Out c = Out.
Proof.
  unfold is_quiet, qstep. destruct (N.eqb c Chr.DQUOTE); [discriminate|].
  destruct (N.eqb c Chr.BACKSLASH); [discriminate | reflexivity].
Qed.

Lemma qrun_quiet (w : str) : forallb is_quiet w = true -> qrun Out w = Out.
Proof.
  induction w as [|c w IH]; [reflexivity|]. cbn [forallb]. intros H.
  apply andb_true_iff in H. destruct H as [Hc Hw].
  change (qrun (qstep Out c) w = Out). rewrite (quiet_out c Hc). exact (IH Hw).
Qed.

Lemma passes_refl (s : qstate) (a : str) : passes s s a a.
Proof. exists []. split; reflexivity. Qed.

Lemma passes_trans (s0 s1 s2 : qstate) (a b c : str) :
  passes s0 s1 a b -> passes s1 s2 b c -> passes s0 s2 a c.
Proof.
  intros (u & -> & Hu) (v & -> & Hv). exists (u ++ v).
  split; [apply app_assoc | rewrite qrun_app, Hu; exact Hv].
Qed.

Lemma passes_cons (s : qstate) (c : char) (a : str) : passes s (qstep s c) (c :: a) a.
Proof. exists [c]. split; reflexivity. Qed.

Lemma passes_quiet (w r : str) : forallb is_quiet w = true -> passes Out Out (w ++ r) r.
Proof. intros H. exists w. split; [reflexivity | apply qrun_quiet; exact H]. Qed.

Lemma passes_quiet_char (c : char) (r : str) :
  is_quiet c = true -> passes Out Out (c :: r) r.
Proof. intros H. apply (@passes_quiet [c] r). cbn. rewrite H. reflexivity. Qed.

Lemma space_quiet (c : char) : is_json_space c = true -> is_quiet c = true.
Proof.
  unfold is_json_space, is_quiet. intros H.
  destruct (N.eqb_spec c Chr.DQUOTE) as [->|_]; [discriminate|].
  destruct (N.eqb_spec c Chr.BACKSLASH) as [->|_]; [discriminate|]. reflexivity.
Qed.

Lemma passes_skip_ws (s : str) : passes Out Out s (skip_ws s).
Proof.
  induction s as [|c s IH]; [apply passes_refl|]. cbn [skip_ws].
  destruct (is_json_space c) eqn:E; [|apply passes_refl].
  eapply passes_trans; [apply passes_quiet_char, space_quiet, E | exact IH].
Qed.

Lemma passes_strip_prefix (word s r : str) :
  forallb is_quiet word = true -> strip_prefix word s = Some r -> passes Out Out s r.
Proof.
  revert s. induction word as [|a word IH]; intros s Hq H.
  - cbn in H. injection H as ->. apply passes_refl.
  - destruct s as [|b s]; [discriminate|]. cbn [strip_prefix] in H.
    cbn [forallb] in Hq. apply andb_true_iff in Hq. destruct Hq as [Ha Hw].
    destruct (N.eqb_spec a b) as [->|_]; [|discriminate].
    eapply passes_trans; [apply passes_quiet_char, Ha | apply IH; assumption].
Qed.

Lemma digit_quiet (c : char) : is_digit c = true -> is_quiet c = true.
Proof.
  unfold is_digit, is_quiet. intros H. apply andb_true_iff in H. destruct H as [H1 H2].
  apply N.leb_le in H1, H2.
  destruct (N.eqb_spec c Chr.DQUOTE) as [->|_]; [unfold Chr.DQUOTE in *; lia|].
  destruct (N.eqb_spec c Chr.BACKSLASH) as [->|_]; [unfold Chr.BACKSLASH in *; lia|].
  reflexivity.
Qed.

Lemma passes_span_digits (s d r : str) : span_digits s = (d, r) -> passes Out Out s r.
Proof.
  revert d r. induction s as [|c s IH]; cbn [span_digits]; intros d r H.
  - injection H as _ <-. apply passes_refl.
  - destruct (is_digit c) eqn:E.
    + destruct (span_digits s) as [d' r'] eqn:E'. injection H as _ <-.
      eapply passes_trans; [apply passes_quiet_char, digit_quiet, E | eapply IH; reflexivity].
    + injection H as _ <-. apply passes_refl.
Qed.

Lemma passes_number_sign (s sign r : str) : number_sign s = (sign, r) -> passes Out Out s r.
Proof.
  destruct s as [|c s]; cbn [number_sign]; [intros H; injection H as _ <-; apply passes_refl|].
  destruct (N.eqb_spec c Chr.MINUS) as [->|_]; intros H; injection H as _ <-.
  - apply passes_quiet_char. reflexivity.
  - apply passes_refl.
Qed.

Lemma passes_number_int (s d r : str) : number_int s = Some (d, r) -> passes Out Out s r.
Proof.
  destruct s as [|c s]; cbn [number_int]; [discriminate|].
  destruct (N.eqb_spec c Chr.ZERO) as [->|_].
  - intros H; injection H as _ <-. apply passes_quiet_char. reflexivity.
  - destruct (is_digit c) eqn:E; [|discriminate].
    destruct (span_digits s) as [d' r'] eqn:E'. intros H; injection H as _ <-.
    eapply passes_trans; [apply passes_quiet_char, digit_quiet, E |].
    eapply passes_span_digits; exact E'.
Qed.

Lemma passes_number_frac (s f r : str) : number_frac s = (f, r) -> passes Out Out s r.
Proof.
  destruct s as [|p [|d s]]; cbn [number_frac];
    try (intros H; injection H as _ <-; apply passes_refl).
  destruct (N.eqb_spec p Chr.DOT) as [->|_]; cbn [andb];
    [|intros H; injection H as _ <-; apply passes_refl].
  destruct (is_digit d) eqn:E; [|intros H; injection H as _ <-; apply passes_refl].
  destruct (span_digits s) as [d' r'] eqn:E'. intros H; injection H as _ <-.
  eapply passes_trans; [apply passes_quiet_char; reflexivity|].
  eapply passes_trans; [apply passes_quiet_char, digit_quiet, E|].
  eapply passes_span_digits; exact E'.
Qed.

Lemma passes_number_exp (s e r : str) : number_exp s = (e, r) -> passes Out Out s r.
Proof.
  destruct s as [|c s]; cbn [number_exp]; [intros H; injection H as _ <-; apply passes_refl|].
  destruct (N.eqb c 101 || N.eqb c 69) eqn:Ec;
    [|intros H; injection H as _ <-; apply passes_refl].
  assert (Hc : is_quiet c = true).
  { apply orb_true_iff in Ec. destruct Ec as [Ec|Ec]; apply N.eqb_eq in Ec; subst; reflexivity. }
  assert (Hsign : forall sg t,
             match s with
             | g :: t => if N.eqb g Chr.MINUS || N.eqb g Chr.PLUS
                         then ([g], t) else ([], s)
             | [] => ([], s)
             end = (sg, t) -> passes Out Out s t).
  { intros sg t. destruct s as [|g s'].
    - intros H; injection H as _ <-. apply passes_refl.
    - destruct (N.eqb g Chr.MINUS || N.eqb g Chr.PLUS) eqn:Eg;
        intros H; injection H as _ <-; [|apply passes_refl].
      apply passes_quiet_char.
      apply orb_true_iff in Eg. destruct Eg as [Eg|Eg]; apply N.eqb_eq in Eg; subst;
        reflexivity. }
  destruct (match s with
            | g :: t => if N.eqb g Chr.MINUS || N.eqb g Chr.PLUS
                        then ([g], t) else ([], s)
            | [] => ([], s)
            end) as [sg t] eqn:Esg.
  specialize (Hsign sg t eq_refl).
  destruct (span_digits t) as [ds r'] eqn:E. apply passes_span_digits in E.
  destruct ds; intros H; injection H as _ <-; [apply passes_refl|].
  eapply passes_trans; [apply passes_quiet_char, Hc|].
  eapply passes_trans; eassumption.
Qed.

Lemma passes_match_number (s i f e r : str) :
  match_number s = Some (i, f, e, r) -> passes Out Out s r.
Proof.
  unfold match_number.
  destruct (number_sign s) as [sign s1] eqn:E1. apply passes_number_sign in E1.
  destruct (number_int s1) as [[digits s2]|] eqn:E2; [|discriminate].
  apply passes_number_int in E2.
  destruct (number_frac s2) as [frac s3] eqn:E3. apply passes_number_frac in E3.
  destruct (number_exp s3) as [exp s4] eqn:E4. apply passes_number_exp in E4.
  intros H; injection H as _ _ _ <-.
  eapply passes_trans; [exact E1|]. eapply passes_trans; [exact E2|].
  eapply passes_trans; eassumption.
Qed.

Lemma passes_literal (word : str) (v w : value) (s r : str) :
  forallb is_quiet word = true -> literal word v s = Scanned w r -> passes Out Out s r.
Proof.
  intros Hq. unfold literal.
  destruct (strip_prefix word s) as [rest|] eqn:E; [|discriminate].
  intros H; injection H as _ <-. eapply passes_strip_prefix; eassumption.
Qed.

Lemma passes_scan_number (s r : str) (v : value) :
  scan_number s = Scanned v r -> passes Out Out s r.
Proof.
  unfold scan_number.
  destruct (match_number s) as [[[[i f] e] rest]|] eqn:E.
  - apply passes_match_number in E.
    destruct f, e; intros H; injection H as _ <-; assumption.
  - destruct (strip_prefix (tx "NaN") s) as [rest|] eqn:E1.
    { intros H; injection H as _ <-. eapply passes_strip_prefix; [|exact E1]. reflexivity. }
    destruct (strip_prefix (tx "Infinity") s) as [rest|] eqn:E2.
    { intros H; injection H as _ <-. eapply passes_strip_prefix; [|exact E2]. reflexivity. }
    apply passes_literal. reflexivity.
Qed.

Lemma hex_digit_in (c : char) (n : N) : hex_digit c = Some n -> qstep In c = In.
Proof.
  unfold hex_digit, qstep. intros H.
  destruct (N.eqb_spec c Chr.DQUOTE) as [->|_]; [discriminate|].
  destruct (N.eqb_spec c Chr.BACKSLASH) as [->|_]; [discriminate|].
  destruct (N.eqb_spec c Chr.LF) as [->|_]; [discriminate | reflexivity].
Qed.

Lemma hex4_in (a b c d : char) (n : N) (r : str) :
  hex4 a b c d = Some n -> passes In In (a :: b :: c :: d :: r) r.
Proof.
  unfold hex4. intros H.
  destruct (hex_digit a) eqn:Ea; [|discriminate].
  destruct (hex_digit b) eqn:Eb; [|discriminate].
  destruct (hex_digit c) eqn:Ec; [|discriminate].
  destruct (hex_digit d) eqn:Ed; [|discriminate].
  exists [a; b; c; d]. split; [reflexivity|].
  unfold qrun. cbn [fold_left].
  rewrite (hex_digit_in _ Ea), (hex_digit_in _ Eb), (hex_digit_in _ Ec), (hex_digit_in _ Ed).
  reflexivity.
Qed.

Lemma unescape_in (e x : char) : unescape e = Some x -> qstep Esc e = In.
Proof.
  unfold unescape, qstep. intros H.
  destruct (N.eqb_spec e Chr.LF) as [->|_]; [discriminate | reflexivity].
Qed.

(** A string that scans ends outside. *)
Lemma passes_scanstring (n : nat) :
  forall (s acc t r : str),
    length s <= n -> scanstring s acc = Some (t, r) -> passes In Out s r.
Proof.
  induction n as [|n IH]; intros s acc t r Hlen H.
  { destruct s; [discriminate | simpl in Hlen; lia]. }
  destruct s as [|c s]; [discriminate|]. cbn [scanstring] in H.
  destruct (N.eqb_spec c Chr.DQUOTE) as [->|Hq].
  { injection H as _ <-. apply (passes_cons In Chr.DQUOTE). }
  destruct (N.eqb_spec c Chr.BACKSLASH) as [->|Hb].
  - destruct s as [|e s]; [discriminate|].
    destruct (N.eqb_spec e 117) as [->|He].
    + destruct s as [|h1 [|h2 [|h3 [|h4 s]]]]; try discriminate.
      destruct (hex4 h1 h2 h3 h4) as [u|] eqn:Eh; [|discriminate].
      assert (Hu : passes In In (Chr.BACKSLASH :: 117%N :: h1 :: h2 :: h3 :: h4 :: s) s).
      { eapply passes_trans; [apply (passes_cons In Chr.BACKSLASH)|].
        eapply passes_trans; [apply (passes_cons Esc 117%N)|].
        eapply hex4_in; exact Eh. }
      assert (Hsingle : forall a, scanstring s a = Some (t, r) ->
                                  passes In Out
                                    (Chr.BACKSLASH :: 117%N :: h1 :: h2 :: h3 :: h4 :: s) r).
      { intros a Ha. eapply passes_trans; [exact Hu|].
        apply IH in Ha; [exact Ha | simpl in *; lia]. }
      destruct (is_high_surrogate u); [|eapply Hsingle; eassumption].
      destruct s as [|b [|u' [|g1 [|g2 [|g3 [|g4 s']]]]]];
        try (eapply Hsingle; eassumption).
      destruct (N.eqb b Chr.BACKSLASH && N.eqb u' 117) eqn:Ebu;
        [|eapply Hsingle; eassumption].
      destruct (hex4 g1 g2 g3 g4) as [u2|] eqn:Eg; [|discriminate].
      destruct (is_low_surrogate u2); [|eapply Hsingle; eassumption].
      apply andb_true_iff in Ebu. destruct Ebu as [E1 E2].
      apply N.eqb_eq in E1, E2. subst b u'.
      eapply passes_trans; [exact Hu|].
      eapply passes_trans; [apply (passes_cons In Chr.BACKSLASH)|].
      eapply passes_trans; [apply (passes_cons Esc 117%N)|].
      eapply passes_trans; [eapply hex4_in; exact Eg|].
      apply IH in H; [exact H | simpl in *; lia].
    + destruct (unescape e) as [x|] eqn:Ee; [|discriminate].
      eapply passes_trans; [apply (passes_cons In Chr.BACKSLASH)|].
      eapply passes_trans; [apply (passes_cons Esc e)|].
      rewrite (unescape_in _ Ee).
      apply IH in H; [exact H | simpl in *; lia].
  - destruct (N.leb_spec c 31); [discriminate|].
    eapply passes_trans; [apply (passes_cons In c)|].
    assert (E : qstep In c = In).
    { unfold qstep. destruct (N.eqb_spec c Chr.DQUOTE); [contradiction|].
      destruct (N.eqb_spec c Chr.BACKSLASH); [contradiction|].
      destruct (N.eqb_spec c Chr.LF) as [->|_]; [unfold Chr.LF in *; lia | reflexivity]. }
    rewrite E. apply IH in H; [exact H | simpl in *; lia].
Qed.

Lemma passes_string (s acc t r : str) :
  scanstring s acc = Some (t, r) -> passes In Out s r.
Proof. apply (@passes_scanstring (length s)). apply le_n. Qed.

Lemma passes_ws_then (s : str) (d : char) (r : str) :
  skip_ws s = d :: r -> passes Out (qstep Out d) s r.
Proof.
  intros E. eapply passes_trans; [apply passes_skip_ws|]. rewrite E. apply passes_cons.
Qed.

(** What the scanner reads leaves it outside a string. *)
Lemma passes_scan (fuel : nat) :
  (forall s v r, scan_once fuel s = Scanned v r -> passes Out Out s r)
  /\ (forall s acc v r, array_items fuel s acc = Scanned v r -> passes Out Out s r)
  /\ (forall s acc v r, object_items fuel s acc = Scanned v r -> passes In Out s r).
Proof.
  induction fuel as [|fuel (IH1 & IH2 & IH3)]; [repeat split; discriminate|].
  split; [|split].
  - intros [|c s] v r H; [discriminate|]. cbn [scan_once] in H.
    destruct (N.eqb_spec c Chr.DQUOTE) as [->|_].
    { destruct (scanstring s []) as [[t rest]|] eqn:E; [|discriminate].
      injection H as _ <-. apply passes_string in E.
      eapply passes_trans; [apply (passes_cons Out Chr.DQUOTE) | exact E]. }
    destruct (N.eqb_spec c Chr.LBRACE) as [->|_].
    { eapply passes_trans; [apply (passes_cons Out Chr.LBRACE)|].
      destruct (skip_ws s) as [|d s''] eqn:Ews; [discriminate|].
      apply passes_ws_then in Ews.
      destruct (N.eqb_spec d Chr.RBRACE) as [->|_]; [injection H as _ <-; exact Ews|].
      destruct (N.eqb_spec d Chr.DQUOTE) as [->|_]; [|discriminate].
      apply IH3 in H. eapply passes_trans; [exact Ews | exact H]. }
    destruct (N.eqb_spec c Chr.LBRACKET) as [->|_].
    { eapply passes_trans; [apply (passes_cons Out Chr.LBRACKET)|].
      destruct (skip_ws s) as [|d s''] eqn:Ews; [discriminate|].
      destruct (N.eqb_spec d Chr.RBRACKET) as [->|_].
      - injection H as _ <-. apply passes_ws_then in Ews. exact Ews.
      - apply IH2 in H. eapply passes_trans; [apply passes_skip_ws|].
        rewrite Ews. exact H. }
    destruct (N.eqb c 110); [apply passes_literal in H; [assumption | reflexivity]|].
    destruct (N.eqb c 116); [apply passes_literal in H; [assumption | reflexivity]|].
    destruct (N.eqb c 102); [apply passes_literal in H; [assumption | reflexivity]|].
    apply passes_scan_number in H. assumption.
  - intros s acc v r H. cbn [array_items] in H.
    destruct (scan_once fuel s) as [w rest| |] eqn:E; try discriminate.
    apply IH1 in E. eapply passes_trans; [exact E|].
    destruct (skip_ws rest) as [|d rest'] eqn:Ews; [discriminate|].
    apply passes_ws_then in Ews.
    destruct (N.eqb_spec d Chr.RBRACKET) as [->|_]; [injection H as _ <-; exact Ews|].
    destruct (N.eqb_spec d Chr.COMMA) as [->|_]; [|discriminate].
    apply IH2 in H. eapply passes_trans; [exact Ews|].
    eapply passes_trans; [apply passes_skip_ws | exact H].
  - intros s acc v r H. cbn [object_items] in H.
    destruct (scanstring s []) as [[key rest]|] eqn:E; [|discriminate].
    apply passes_string in E. eapply passes_trans; [exact E|].
    destruct (skip_ws rest) as [|c rest1] eqn:Ews; [discriminate|].
    apply passes_ws_then in Ews.
    destruct (N.eqb_spec c Chr.COLON) as [->|_]; [|discriminate].
    eapply passes_trans; [exact Ews|].
    eapply passes_trans; [apply passes_skip_ws|].
    destruct (scan_once fuel (skip_ws rest1)) as [w rest2| |] eqn:E2; try discriminate.
    apply IH1 in E2. eapply passes_trans; [exact E2|].
    destruct (skip_ws rest2) as [|d rest3] eqn:Ews2; [discriminate|].
    apply passes_ws_then in Ews2.
    destruct (N.eqb_spec d Chr.RBRACE) as [->|_]; [injection H as _ <-; exact Ews2|].
    destruct (N.eqb_spec d Chr.COMMA) as [->|_]; [|discriminate].
    eapply passes_trans; [exact Ews2|].
    destruct (skip_ws rest3) as [|q rest4] eqn:Ews3; [discriminate|].
    apply passes_ws_then in Ews3.
    destruct (N.eqb_spec q Chr.DQUOTE) as [->|_]; [|discriminate].
    eapply passes_trans; [exact Ews3|].
    apply IH3 in H. exact H.
Qed.

Lemma skip_ws_nil_quiet (s : str) : skip_ws s = [] -> forallb is_quiet s = true.
Proof.
  induction s as [|c s IH]; [reflexivity|]. cbn [skip_ws forallb].
  destruct (is_json_space c) eqn:E; [|discriminate].
  intros H. rewrite (space_quiet c E), (IH H). reflexivity.
Qed.

(** A text [json.loads] accepts ends outside a string, and so does
    every line of it. *)
Lemma loads_quotes_paired (s : str) (v : value) : loads s = Some v -> qrun Out s = Out.
Proof.
  unfold loads, decode. intros H.
  destruct (scan_once (2 * length s + 1) (skip_ws s)) as [w rest| |] eqn:E;
    try discriminate.
  destruct (skip_ws rest) eqn:Ews; [|discriminate].
  apply (proj1 (passes_scan _)) in E.
  pose proof (passes_trans (passes_skip_ws s) E) as (u & -> & Hu).
  rewrite qrun_app, Hu. apply qrun_quiet, skip_ws_nil_quiet, Ews.
Qed.
End QuoteFacts.

(** ** The fixes of [save_project_files] break a JSON document *)
Module RepairBreaks.
Import Json Re ReFacts ReRun ReRunMore Quotes QuoteFacts OpenRouter ProjectName.
Local Open Scope nat_scope.

Lemma orelse_left {A} (x y : option A) : x <> None -> orelse x y <> None.
Proof. destruct x; [intros _; discriminate | congruence]. Qed.

Lemma orelse_right {A} (x y : option A) : y <> None -> orelse x y <> None.
Proof. destruct x; [intros _; discriminate | trivial]. Qed.

(** A group followed by the lookbehind and [$]: the match ends at the
    end of a line and the group holds it. *)
Lemma group_eol_match (n : nat) (a : regex) (f : char -> bool) (p q : pos)
      (caps : captures) :
  match_at (seqs [Group n a; NotBehind f; Eol]) p = Some (q, caps) ->
  line_end (ahead q)
  /\ exists w, lang a w /\ steps p w q /\ group n caps = Some w.
Proof.
  unfold match_at. cbn [seqs rmatch]. intros H.
  apply rmatch_sound in H. destruct H as (w & q' & caps' & Hw & Hs & H).
  assert (E : Some (q', (n, between p q') :: caps') = Some (q, caps)
              /\ line_end (ahead q')).
  { destruct (behind q') as [|c ?]; [|destruct (f c); [discriminate|]];
      (destruct (ahead q') as [|d ?];
       [|destruct (N.eqb_spec d Chr.LF) as [->|_]; [|discriminate]]);
      split; solve [exact H | exact I | reflexivity]. }
  destruct E as [E Hend]. injection E as <- <-. split; [exact Hend|].
  exists w. split; [exact Hw|]. split; [exact Hs|].
  simpl. rewrite Nat.eqb_refl, (steps_between Hs). reflexivity.
Qed.

(** A match of the pattern for unterminated strings starts with a
    quote and ends at the end of a line; the replacement adds a quote
    there. *)
Lemma unterminated_match (p q : pos) (caps : captures) :
  match_at Pat.unterminated p = Some (q, caps) ->
  line_end (ahead q)
  /\ exists m, steps p (Chr.DQUOTE :: m) q
               /\ Pat.close_quote (q, caps) = (Chr.DQUOTE :: m) ++ [Chr.DQUOTE].
Proof.
  intros H. apply group_eol_match in H. destruct H as (Hend & w & Hw & Hs & Hg).
  split; [exact Hend|].
  destruct Hw as (u & v & -> & (x & -> & Hx) & _).
  apply N.eqb_eq in Hx. subst x.
  exists v. split; [exact Hs|].
  unfold Pat.close_quote. cbn [snd]. rewrite Hg. reflexivity.
Qed.

Lemma unterminated_needs_quote (b a : str) :
  (forall a', a <> Chr.DQUOTE :: a') ->
  match_at Pat.unterminated (Pos b a) = None.
Proof.
  intros Ha. destruct (match_at Pat.unterminated (Pos b a)) as [[q caps]|] eqn:E;
    [|reflexivity].
  apply unterminated_match in E. destruct E as (_ & m & (Hs & _) & _).
  cbn [ahead] in Hs. exfalso. apply (Ha (m ++ ahead q)). exact Hs.
Qed.

(** The characters of a match are passed without output. *)
Lemma scan_skip (r : regex) (m : str) :
  forall (b rest : str), scan r (length m) b (m ++ rest) = scan r 0 (rev m ++ b) rest.
Proof.
  induction m as [|c m IH]; intros b rest; [reflexivity|].
  cbn [length app scan]. rewrite IH. cbn [rev]. rewrite <- app_assoc. reflexivity.
Qed.

Lemma scan_at_match (r : regex) (b a : str) (q : pos) (caps : captures)
      (x : char) (m : str) :
  match_at r (Pos b a) = Some (q, caps) ->
  steps (Pos b a) (x :: m) q ->
  scan r 0 b a = inr (q, caps, x :: m) :: scan r 0 (behind q) (ahead q).
Proof.
  intros H Hs. pose proof (steps_between Hs) as Hb.
  destruct Hs as (Ha & Hbq). cbn [ahead behind] in Ha, Hbq.
  rewrite Hbq. subst a. cbn [app] in H. cbn [app scan]. rewrite H. cbn zeta.
  cbn [app] in Hb. rewrite Hb. cbn [length]. rewrite scan_skip.
  cbn [rev]. rewrite <- app_assoc. reflexivity.
Qed.

Lemma line_end_out (s : qstate) (T : str) : line_end T -> qrun s T = Out -> s = Out.
Proof.
  destruct T as [|d T]; [intros _ H; exact H|].
  cbn [line_end]. intros -> H. change (qrun (qstep s Chr.LF) T = Out) in H.
  destruct s; [reflexivity | | |]; cbn in H; rewrite qrun_dead in H; discriminate.
Qed.

(** Without a quote a text does not lead out of a string, and outside
    a string it has no backslash. *)
Lemma no_quote_inside (w : str) :
  count Chr.DQUOTE w = 0 ->
  forall s, s <> Out -> qrun s w <> Out.
Proof.
  induction w as [|c w IH]; intros Hc s Hs; [exact Hs|].
  cbn [count] in Hc. destruct (N.eqb_spec c Chr.DQUOTE) as [->|Hq]; [discriminate|].
  change (qrun (qstep s c) w <> Out). apply IH; [exact Hc|].
  destruct s; [contradiction | | |]; cbn [qstep].
  - destruct (N.eqb_spec c Chr.DQUOTE); [contradiction|].
    destruct (N.eqb c Chr.BACKSLASH); [discriminate|].
    destruct (N.eqb c Chr.LF); discriminate.
  - destruct (N.eqb c Chr.LF); discriminate.
  - discriminate.
Qed.

Lemma no_quote_outside (w : str) :
  count Chr.DQUOTE w = 0 -> qrun Out w = Out -> forallb is_quiet w = true.
Proof.
  induction w as [|c w IH]; intros Hc H; [reflexivity|].
  cbn [count] in Hc. destruct (N.eqb_spec c Chr.DQUOTE) as [->|Hq]; [discriminate|].
  change (qrun (qstep Out c) w = Out) in H. cbn [forallb]. unfold is_quiet at 1.
  cbn [qstep] in H.
  destruct (N.eqb_spec c Chr.DQUOTE); [contradiction|].
  destruct (N.eqb_spec c Chr.BACKSLASH).
  - rewrite qrun_dead in H. discriminate.
  - cbn [negb andb]. apply IH; assumption.
Qed.

Section Lazy.
Variable K : pos -> captures -> option result.
Hypothesis K_end :
  forall q caps,
    match behind q with c :: _ => c <> Chr.BACKSLASH | [] => True end ->
    line_end (ahead q) -> K q caps <> None.

(** The lazy repetition of the string pattern reaches the end of the
    line through a text without quotes and backslashes. *)
Lemma lazy_reaches_end (a : str) :
  forall (b : str) (caps : captures) (n : nat),
    forallb is_quiet a = true ->
    match b with c :: _ => c <> Chr.BACKSLASH | [] => True end ->
    length a <= n ->
    star_loop
      (rmatch (Alt (Cls (fun c => negb (N.eqb c Chr.DQUOTE || N.eqb c Chr.BACKSLASH)))
                 (Seq (chr Chr.BACKSLASH) dot)))
      false K n (Pos b a) caps <> None.
Proof.
  induction a as [|x a IH]; intros b caps n Hq Hb Hn.
  - destruct n; cbn [star_loop]; [|apply orelse_left]; apply K_end; cbn; auto.
  - destruct n as [|n]; [simpl in Hn; lia|]. cbn [star_loop].
    apply orelse_right. cbn [rmatch ahead behind]. apply orelse_left.
    cbn [forallb] in Hq. apply andb_true_iff in Hq. destruct Hq as [Hx Ha].
    unfold is_quiet in Hx. rewrite <- negb_orb in Hx. rewrite Hx.
    replace (length a <? length (x :: a)) with true
      by (symmetry; apply Nat.ltb_lt; simpl; lia).
    apply IH; [exact Ha | | simpl in Hn; lia].
    apply negb_true_iff, orb_false_iff in Hx. destruct Hx as [_ Hx].
    apply N.eqb_neq. exact Hx.
Qed.
End Lazy.

(** At the last quote of a text that ends outside a string the pattern
    for unterminated strings matches. *)
Lemma last_quote_matches (s : qstate) (b a : str) :
  qrun s (Chr.DQUOTE :: a) = Out -> count Chr.DQUOTE a = 0 ->
  match_at Pat.unterminated (Pos b (Chr.DQUOTE :: a)) <> None.
Proof.
  intros H Hc. change (qrun (qstep s Chr.DQUOTE) a = Out) in H.
  assert (Hs : qstep s Chr.DQUOTE = Out).
  { destruct (qstep s Chr.DQUOTE) eqn:E; [reflexivity| | |];
      exfalso; (eapply (@no_quote_inside a Hc); [|exact H]); discriminate. }
  rewrite Hs in H. pose proof (@no_quote_outside a Hc H) as Hq.
  unfold match_at.
  change (star_loop
            (rmatch (Alt (Cls (fun c => negb (N.eqb c Chr.DQUOTE || N.eqb c Chr.BACKSLASH)))
                       (Seq (chr Chr.BACKSLASH) dot)))
            false
            (fun q caps' =>
               rmatch (Seq (NotBehind (only Chr.BACKSLASH)) Eol) q
                 ((1, between (Pos b (Chr.DQUOTE :: a)) q) :: caps')
                 (fun q caps => Some (q, caps)))
            (length a) (Pos (Chr.DQUOTE :: b) a) [] <> None).
  apply lazy_reaches_end; [| exact Hq | cbn; discriminate | lia].
  intros q caps Hb Hend. cbn [rmatch].
  destruct (behind q) as [|c ?].
  - destruct (ahead q) as [|d ?]; [discriminate|].
    cbn in Hend. subst d. rewrite N.eqb_refl. discriminate.
  - unfold only. destruct (N.eqb_spec Chr.BACKSLASH c) as [<-|_]; [contradiction|].
    destruct (ahead q) as [|d ?]; [discriminate|].
    cbn in Hend. subst d. rewrite N.eqb_refl. discriminate.
Qed.

Lemma pieces_text_cons_inl (repl : result -> str) (t : str)
      (l : list (str + result * str)) :
  pieces_text repl (inl t :: l) = t ++ pieces_text repl l.
Proof. reflexivity. Qed.

Lemma pieces_text_cons_inr (repl : result -> str) (res : result) (m : str)
      (l : list (str + result * str)) :
  pieces_text repl (inr (res, m) :: l) = repl res ++ pieces_text repl l.
Proof. reflexivity. Qed.

(** After the end of a line the output of the scan starts with that
    line feed. *)
Lemma scan_unterminated_line_end (b T : str) :
  line_end T ->
  line_end (pieces_text Pat.close_quote (scan Pat.unterminated 0 b T)).
Proof.
  destruct T as [|d T]; cbn [line_end].
  - intros _. cbn [scan]. rewrite unterminated_needs_quote by (intros ? ?; discriminate).
    exact I.
  - intros ->. cbn [scan].
    rewrite unterminated_needs_quote
      by (intros ? H; injection H as H _; vm_compute in H; discriminate).
    rewrite pieces_text_cons_inl. reflexivity.
Qed.

(** The first fix puts a quote at the end of a line, at a position
    outside the strings of the document. *)
Lemma first_fix (a : str) :
  forall (b : str) (s : qstate),
    qrun s a = Out -> 0 < count Chr.DQUOTE a ->
    exists P T,
      pieces_text Pat.close_quote (scan Pat.unterminated 0 b a) = P ++ Chr.DQUOTE :: T
      /\ qrun s P = Out /\ line_end T.
Proof.
  induction a as [|c a IH]; intros b s Hrun Hc; [simpl in Hc; lia|].
  destruct (match_at Pat.unterminated (Pos b (c :: a))) as [[q caps]|] eqn:E.
  - destruct (@unterminated_match _ _ _ E) as (Hend & m & Hs & Hrepl).
    rewrite (@scan_at_match _ _ _ _ _ _ _ E Hs), pieces_text_cons_inr, Hrepl.
    exists (Chr.DQUOTE :: m), (pieces_text Pat.close_quote
                                 (scan Pat.unterminated 0 (behind q) (ahead q))).
    split; [rewrite <- app_assoc; reflexivity|].
    split; [|apply scan_unterminated_line_end; exact Hend].
    destruct Hs as (Ha & _). cbn [ahead] in Ha. rewrite Ha, qrun_app in Hrun.
    apply (@line_end_out _ _ Hend Hrun).
  - cbn [scan]. rewrite E. rewrite pieces_text_cons_inl.
    destruct (count Chr.DQUOTE a) as [|k] eqn:Ek.
    + exfalso. cbn [count] in Hc. rewrite Ek in Hc.
      destruct (N.eqb_spec c Chr.DQUOTE) as [->|_]; [|lia].
      apply (@last_quote_matches s b a Hrun Ek). exact E.
    + destruct (IH (c :: b) (qstep s c) Hrun ltac:(lia)) as (P & T & HP & HrunP & HT).
      exists (c :: P), T. rewrite HP. split; [reflexivity|]. split; assumption.
Qed.

(** *** The comma fixes *)

Lemma comma_match (closing : char) (p q : pos) (caps : captures) :
  match_at (seqs [chr Chr.COMMA; ws; chr closing]) p = Some (q, caps) ->
  exists sp, steps p (Chr.COMMA :: sp ++ [closing]) q
             /\ Forall (fun c => is_space c = true) sp.
Proof.
  intros H. apply match_at_sound in H. destruct H as (w & Hw & Hs).
  destruct Hw as (u & v & -> & (x & -> & Hx) & (u' & v' & -> & Hu' & (y & -> & Hy))).
  apply N.eqb_eq in Hx, Hy. subst x y.
  apply lang_star_cls in Hu'. exists u'. split; assumption.
Qed.

Lemma space_run (sp : str) :
  Forall (fun c => is_space c = true) sp ->
  qrun Out sp = Out /\ (qrun In sp = In \/ qrun In sp = Dead).
Proof.
  induction 1 as [|c sp Hc _ (IH1 & IH2)]; [split; [reflexivity | left; reflexivity]|].
  assert (Hq : N.eqb c Chr.DQUOTE = false).
  { destruct (N.eqb_spec c Chr.DQUOTE) as [->|_]; [discriminate | reflexivity]. }
  assert (Hb : N.eqb c Chr.BACKSLASH = false).
  { destruct (N.eqb_spec c Chr.BACKSLASH) as [->|_]; [discriminate | reflexivity]. }
  split.
  - change (qrun (qstep Out c) sp = Out). cbn [qstep]. rewrite Hq, Hb. exact IH1.
  - change (qrun (qstep In c) sp = In \/ qrun (qstep In c) sp = Dead).
    cbn [qstep]. rewrite Hq, Hb. destruct (N.eqb c Chr.LF); [|exact IH2].
    right. apply qrun_dead.
Qed.

Lemma closing_step (c : char) (s : qstate) :
  is_closing c ->
  qstep s c = match s with Out => Out | Dead => Dead | _ => In end.
Proof. intros [->| ->]; destruct s; reflexivity. Qed.

(** A text matched by a comma fix leads where its closing character
    alone leads, unless it leads nowhere. *)
Lemma comma_piece (closing : char) (sp : str) (s : qstate) :
  is_closing closing ->
  Forall (fun c => is_space c = true) sp ->
  qrun s (Chr.COMMA :: sp ++ [closing]) = Dead
  \/ qrun s (Chr.COMMA :: sp ++ [closing]) = qstep s closing.
Proof.
  intros Hc Hsp. destruct (@space_run _ Hsp) as (H1 & H2).
  change (qrun (qstep s Chr.COMMA) (sp ++ [closing]) = Dead
          \/ qrun (qstep s Chr.COMMA) (sp ++ [closing]) = qstep s closing).
  rewrite qrun_app, (@closing_step _ s Hc). cbn [qrun fold_left].
  destruct s; cbn [qstep N.eqb Chr.COMMA Chr.DQUOTE Chr.BACKSLASH Chr.LF Pos.eqb].
  - rewrite H1, (@closing_step _ Out Hc). right. reflexivity.
  - destruct H2 as [-> | ->]; rewrite (@closing_step _ _ Hc); auto.
  - destruct H2 as [-> | ->]; rewrite (@closing_step _ _ Hc); auto.
  - rewrite qrun_dead, (@closing_step _ _ Hc). left. reflexivity.
Qed.

Lemma prefix_before (c : char) (w : str) :
  forall (X P T : str),
    w ++ X = P ++ c :: T -> count c w = 0 ->
    exists P2, P = w ++ P2 /\ X = P2 ++ c :: T.
Proof.
  induction w as [|x w IH]; intros X P T E Hc.
  - exists P. split; [reflexivity | exact E].
  - cbn [count] in Hc. destruct (N.eqb_spec x c) as [->|Hx]; [discriminate|].
    destruct P as [|y P]; cbn [app] in E; injection E as E1 E2.
    + contradiction.
    + subst y. destruct (IH _ _ _ E2 Hc) as (P2 & -> & ->).
      exists P2. split; reflexivity.
Qed.

Lemma comma_text_no_quote (closing : char) (sp : str) :
  is_closing closing ->
  Forall (fun c => is_space c = true) sp ->
  count Chr.DQUOTE (Chr.COMMA :: sp ++ [closing]) = 0.
Proof.
  intros Hc Hsp. cbn [count]. cbn [N.eqb Chr.COMMA Chr.DQUOTE Pos.eqb].
  rewrite count_app, (count_none Chr.DQUOTE is_space eq_refl Hsp).
  destruct Hc as [-> | ->]; reflexivity.
Qed.

(** A comma fix leaves in place a quote put at the end of a line, and
    the text before it still ends outside a string. *)
Lemma comma_fix_keeps (closing : char) (n : nat) :
  is_closing closing ->
  forall (P b T : str) (s : qstate),
    length P <= n ->
    qrun s P = Out -> line_end T ->
    exists P' T',
      pieces_text (fun _ => [closing])
        (scan (seqs [chr Chr.COMMA; ws; chr closing]) 0 b (P ++ Chr.DQUOTE :: T))
      = P' ++ Chr.DQUOTE :: T'
      /\ qrun s P' = Out /\ line_end T'.
Proof.
  intros Hcl. set (r := seqs [chr Chr.COMMA; ws; chr closing]).
  assert (Hother : forall x b rest, x <> Chr.COMMA -> match_at r (Pos b (x :: rest)) = None).
  { intros x b rest Hx. apply (@match_at_other Chr.COMMA x _ b rest Hx). }
  assert (Hnil : forall b, match_at r (Pos b []) = None) by reflexivity.
  induction n as [|n IH]; intros P b T s Hlen Hrun HT.
  - destruct P; [|simpl in Hlen; lia]. cbn [app scan].
    rewrite Hother by discriminate. rewrite pieces_text_cons_inl.
    exists [], (pieces_text (fun _ => [closing]) (scan r 0 (Chr.DQUOTE :: b) T)).
    split; [reflexivity|]. split; [exact Hrun|].
    destruct T as [|d T]; cbn [line_end] in HT |- *.
    + cbn [scan]. rewrite Hnil. exact I.
    + subst d. cbn [scan]. rewrite Hother by discriminate. reflexivity.
  - destruct P as [|c P].
    { apply IH; [simpl; lia | exact Hrun | exact HT]. }
    destruct (match_at r (Pos b ((c :: P) ++ Chr.DQUOTE :: T))) as [[q caps]|] eqn:E.
    + destruct (@comma_match _ _ _ _ E) as (sp & Hs & Hsp).
      rewrite (@scan_at_match _ _ _ _ _ _ _ E Hs), pieces_text_cons_inr.
      destruct Hs as (Ha & _). cbn [ahead] in Ha. symmetry in Ha.
      destruct (@prefix_before _ _ _ _ _ Ha (@comma_text_no_quote _ _ Hcl Hsp))
        as (P2 & HP & Hq).
      rewrite Hq. rewrite HP, qrun_app in Hrun.
      assert (Hlen2 : length P2 <= n).
      { apply (f_equal (@length _)) in HP. cbn [length] in HP.
        rewrite length_app in HP. cbn [length] in HP. simpl in Hlen. lia. }
      destruct (IH P2 (behind q) T _ Hlen2 Hrun HT) as (P' & T' & HP' & HrunP' & HT').
      exists (closing :: P'), T'. rewrite HP'. split; [reflexivity|].
      split; [|exact HT'].
      change (qrun (qstep s closing) P' = Out).
      destruct (@comma_piece _ _ s Hcl Hsp) as [Hd|Hd].
      * rewrite Hd, qrun_dead in Hrun. discriminate.
      * rewrite <- Hd. exact HrunP'.
    + cbn [app scan]. cbn [app] in E. rewrite E. rewrite pieces_text_cons_inl.
      destruct (IH P (c :: b) T (qstep s c) ltac:(simpl in Hlen; lia) Hrun HT)
        as (P' & T' & HP' & HrunP' & HT').
      exists (c :: P'), T'. rewrite HP'. split; [reflexivity|]. split; assumption.
Qed.

(** The closing characters appended at the end do not close a string. *)
Lemma close_open_stuck (opening closing : char) (s : str) :
  is_closing closing ->
  qrun Out s = In \/ qrun Out s = Dead ->
  qrun Out (close_open opening closing s) = In
  \/ qrun Out (close_open opening closing s) = Dead.
Proof.
  intros Hc H. unfold close_open.
  destruct (0 <? _)%Z; [|exact H]. rewrite qrun_app.
  generalize (Z.to_nat (Z.of_nat (count opening s) - Z.of_nat (count closing s))).
  intros k. revert H. generalize (qrun Out s). intros st H. revert st H.
  induction k as [|k IH]; intros st H; [exact H|].
  cbn [repeat]. change (qrun (qstep st closing) (repeat closing k) = In
                        \/ qrun (qstep st closing) (repeat closing k) = Dead).
  rewrite (@closing_step _ st Hc).
  destruct H as [-> | ->]; apply IH; [left | right]; reflexivity.
Qed.

(** The fixes leave a text that ends inside a string, or that has a
    line feed inside one. *)
Lemma fix_common_issues_stuck (content : str) :
  qrun Out content = Out -> 0 < count Chr.DQUOTE content ->
  qrun Out (fix_common_issues content) = In
  \/ qrun Out (fix_common_issues content) = Dead.
Proof.
  intros Hrun Hc. unfold fix_common_issues.
  apply close_open_stuck; [right; reflexivity|].
  apply close_open_stuck; [left; reflexivity|].
  assert (H : exists P T, fix_strings_and_commas content = P ++ Chr.DQUOTE :: T
                          /\ qrun Out P = Out /\ line_end T).
  { unfold fix_strings_and_commas, sub.
    destruct (@first_fix content [] Out Hrun Hc) as (P1 & T1 & E1 & H1 & HT1).
    rewrite E1.
    destruct (@comma_fix_keeps Chr.RBRACE (length P1) (or_introl eq_refl)
                P1 [] T1 Out (le_n _) H1 HT1) as (P2 & T2 & E2 & H2 & HT2).
    change (seqs [chr Chr.COMMA; ws; chr Chr.RBRACE]) with Pat.comma_brace in E2.
    rewrite E2.
    destruct (@comma_fix_keeps Chr.RBRACKET (length P2) (or_intror eq_refl)
                P2 [] T2 Out (le_n _) H2 HT2) as (P3 & T3 & E3 & H3 & HT3).
    change (seqs [chr Chr.COMMA; ws; chr Chr.RBRACKET]) with Pat.comma_bracket in E3.
    exists P3, T3. split; [exact E3|]. split; assumption. }
  destruct H as (P & T & -> & HP & HT).
  rewrite qrun_app, HP.
  change (qrun In T = In \/ qrun In T = Dead).
  destruct T as [|d T]; [left; reflexivity|].
  cbn [line_end] in HT. subst d. right. apply qrun_dead.
Qed.

(** No valid JSON text with a quote in it survives the fixes. *)
Lemma repair_breaks (content : str) :
  loads content <> None -> 0 < count Chr.DQUOTE content ->
  loads (fix_common_issues content) = None.
Proof.
  intros Hv Hc. destruct (loads content) as [v|] eqn:E; [|congruence].
  apply loads_quotes_paired in E.
  destruct (loads (fix_common_issues content)) as [v'|] eqn:E'; [|reflexivity].
  apply loads_quotes_paired in E'.
  destruct (@fix_common_issues_stuck content E Hc) as [H|H]; congruence.
Qed.

(** X23.  The fixes of methods 1 and 2 turn every valid JSON text that
    holds a double quote into a text [json.loads] rejects: the first
    substitution puts a quote at the end of a line.  So the loop of
    method 2 recovers nothing from fenced blocks that are valid JSON
    with a string in them. *)
Theorem valid_blocks_never_recovered (json_matches : list str) :
  Forall (fun m => loads m <> None /\ 0 < count Chr.DQUOTE m) json_matches ->
  first_block json_matches = None
  /\ Forall (fun m => loads (fix_common_issues m) = None) json_matches.
Proof.
  induction 1 as [|m l (Hv & Hc) _ (IH1 & IH2)]; [split; constructor|].
  pose proof (@repair_breaks m Hv Hc) as Hm.
  split; [cbn [first_block]; rewrite Hm; exact IH1 | constructor; assumption].
Qed.

Lemma valid_blocks_never_recovered_witness :
  first_block [tx "{'files': []}"; tx "['a', 1]"] = None
  /\ Forall (fun m => loads (fix_common_issues m) = None)
       [tx "{'files': []}"; tx "['a', 1]"].
Proof.
  apply valid_blocks_never_recovered.
  repeat constructor; try discriminate; vm_compute; reflexivity.
Defined.
End RepairBreaks.

(** ** The path history file *)
Module HistoryFile.
Import Json Py JsonFile FileRoundTrip ConfigFiles ConfigStore PathHistory.

Local Notation "'RP'" := (tx "recent_paths").
Local Notation "'MP'" := (tx "max_paths").

(** The list of lines 116-123 for the list [paths] and the integer [n]
    of the file. *)
Local Notation "'kept' n path paths" :=
  (ConfigManager.slice_to n
     (Str path :: (if ConfigManager.contains path paths
                   then ConfigManager.remove_first path paths else paths)))
  (at level 10, n at level 9, path at level 9, paths at level 9).

(** *** Dicts and lists *)

Lemma plain_list (l : list value) :
  Forall (fun x => plain x = true) l -> plain (Arr l) = true.
Proof.
  cbn [plain]. induction 1 as [|x l Hx _ IH]; [reflexivity|].
  rewrite Hx. exact IH.
Qed.

Lemma plain_dict_get (k : str) (v : value) (d : list (str * value)) :
  plain (Obj d) = true -> dict_get k d = Some v -> plain v = true.
Proof.
  intros H. apply plain_Obj in H. destruct H as [_ H].
  induction H as [|[k2 v2] d Hx _ IH]; cbn [dict_get]; [discriminate|].
  destruct (str_eqb k k2); [|exact IH].
  intros E. injection E as <-. exact Hx.
Qed.

Lemma plain_get (k : str) (v dflt : value) (d : list (str * value)) :
  plain (Obj d) = true -> plain dflt = true ->
  ConfigManager.get (Obj d) k dflt = Return v -> plain v = true.
Proof.
  intros Hd Hdflt. cbn [ConfigManager.get].
  destruct (dict_get k d) as [w|] eqn:E; intros H; injection H as <-.
  - exact (@plain_dict_get _ _ _ Hd E).
  - exact Hdflt.
Qed.

Lemma dict_set_again (k : str) (v w : value) (d : list (str * value)) :
  dict_set k v (dict_set k w d) = dict_set k v d.
Proof.
  induction d as [|[k2 v2] d IH]; cbn [dict_set].
  - rewrite str_eqb_refl. reflexivity.
  - destruct (str_eqb k k2) eqn:E; cbn [dict_set].
    + rewrite str_eqb_refl. reflexivity.
    + rewrite E, IH. reflexivity.
Qed.

Lemma dict_set_present (k : str) (v : value) (d : list (str * value)) :
  dict_get k d = Some v -> dict_set k v d = d.
Proof.
  induction d as [|[k2 v2] d IH]; cbn [dict_get dict_set]; [discriminate|].
  destruct (str_eqb k k2) eqn:E.
  - intros H. injection H as ->. apply str_eqb_eq in E. subst k2. reflexivity.
  - intros H. rewrite IH by exact H. reflexivity.
Qed.

Lemma get_set_same (k : str) (v dflt : value) (d : list (str * value)) :
  ConfigManager.get (Obj (dict_set k v d)) k dflt = Return v.
Proof. cbn [ConfigManager.get]. rewrite dict_get_set, str_eqb_refl. reflexivity. Qed.

Lemma get_set_other (k other : str) (v dflt : value) (d : list (str * value)) :
  other <> k ->
  ConfigManager.get (Obj (dict_set k v d)) other dflt = ConfigManager.get (Obj d) other dflt.
Proof.
  intros H. cbn [ConfigManager.get]. rewrite dict_get_set, (str_eqb_neq H). reflexivity.
Qed.

Lemma max_paths_other : MP <> RP.
Proof. discriminate. Qed.

Lemma slice_to_firstn (n : Z) (l : list value) :
  exists k, ConfigManager.slice_to n l = firstn k l.
Proof. unfold ConfigManager.slice_to. destruct (n <? 0)%Z; eexists; reflexivity. Qed.

Lemma slice_to_nonneg (n : Z) (l : list value) :
  (0 <= n)%Z -> ConfigManager.slice_to n l = firstn (Z.to_nat n) l.
Proof.
  intros H. unfold ConfigManager.slice_to.
  destruct (Z.ltb_spec n 0); [lia | reflexivity].
Qed.

Lemma eq_path_same (path : str) : ConfigManager.eq_path path (Str path) = true.
Proof. apply eq_path_true. reflexivity. Qed.

Lemma contains_head (path : str) (paths : list value) :
  ConfigManager.contains path (Str path :: paths) = true.
Proof. unfold ConfigManager.contains. cbn [existsb]. rewrite eq_path_same. reflexivity. Qed.

Lemma remove_head (path : str) (paths : list value) :
  ConfigManager.remove_first path (Str path :: paths) = paths.
Proof. cbn [ConfigManager.remove_first]. rewrite eq_path_same. reflexivity. Qed.

Lemma remove_absent (path : str) (paths : list value) :
  ConfigManager.contains path paths = false ->
  ConfigManager.remove_first path paths = paths.
Proof.
  unfold ConfigManager.contains.
  induction paths as [|w paths IH]; cbn [existsb ConfigManager.remove_first];
    [reflexivity|].
  destruct (ConfigManager.eq_path path w); cbn [orb]; [discriminate|].
  intros H. rewrite IH by assumption. reflexivity.
Qed.

Lemma filter_others (path : str) (paths : list value) :
  ~ In (Str path) paths ->
  filter (fun v => negb (ConfigManager.eq_path path v)) paths = paths.
Proof.
  induction paths as [|w paths IH]; cbn [filter]; [reflexivity|]. intros Hin.
  destruct (ConfigManager.eq_path path w) eqn:E.
  - apply eq_path_true in E. subst. cbn [In] in Hin. tauto.
  - cbn [negb]. rewrite IH; [reflexivity|]. cbn [In] in Hin. tauto.
Qed.

(** In a list without duplicates, removing the first occurrence removes
    every occurrence. *)
Lemma remove_first_filter (path : str) (paths : list value) :
  NoDup paths ->
  ConfigManager.remove_first path paths
  = filter (fun v => negb (ConfigManager.eq_path path v)) paths.
Proof.
  induction 1 as [|w paths Hw Hnd IH]; cbn [ConfigManager.remove_first filter];
    [reflexivity|].
  destruct (ConfigManager.eq_path path w) eqn:E; cbn [negb].
  - apply eq_path_true in E. subst. symmetry. apply filter_others. assumption.
  - rewrite IH. reflexivity.
Qed.

(** What the new list is made of. *)
Lemma kept_subset (n : Z) (path : str) (paths : list value) (v : value) :
  In v (kept n path paths) -> v = Str path \/ In v paths.
Proof.
  destruct (slice_to_firstn n
              (Str path :: (if ConfigManager.contains path paths
                            then ConfigManager.remove_first path paths else paths)))
    as (k & ->).
  intros H. apply firstn_subset in H. destruct H as [H|H]; [left; auto|right].
  destruct (ConfigManager.contains path paths); [|exact H].
  exact (remove_first_subset _ _ _ H).
Qed.

Lemma plain_kept (n : Z) (path : str) (paths : list value) :
  plain (Arr paths) = true -> plain (Arr (kept n path paths)) = true.
Proof.
  intros H. apply plain_Arr in H. apply plain_list. rewrite Forall_forall in *.
  intros v Hv. apply kept_subset in Hv. destruct Hv as [->|Hv]; [reflexivity|auto].
Qed.

(** The new list, for a limit of at least one path. *)
Lemma kept_head (n : Z) (path : str) (paths : list value) :
  (1 <= n)%Z ->
  kept n path paths
  = Str path :: firstn (Z.to_nat n - 1)
                  (if ConfigManager.contains path paths
                   then ConfigManager.remove_first path paths else paths).
Proof.
  intros H. rewrite slice_to_nonneg by lia.
  destruct (Z.to_nat n) as [|k] eqn:E; [lia|].
  cbn [firstn]. rewrite Nat.sub_succ, Nat.sub_0_r. reflexivity.
Qed.

(** Adding the first path of the list again gives the list. *)
Lemma kept_twice (n : Z) (path : str) (paths : list value) :
  (0 <= n)%Z -> kept n path (kept n path paths) = kept n path paths.
Proof.
  intros H. destruct (Z.eq_dec n 0) as [->|Hn].
  - reflexivity.
  - rewrite (@kept_head n path paths) by lia.
    rewrite contains_head, remove_head, slice_to_nonneg by lia.
    destruct (Z.to_nat n) as [|k] eqn:E; [lia|].
    cbn [firstn]. rewrite Nat.sub_succ, Nat.sub_0_r, firstn_firstn, Nat.min_id.
    reflexivity.
Qed.

(** *** The two calls on a file that holds a history *)

Lemma with_path_list (path : str) (d : list (str * value)) (paths : list value) (n : Z) :
  ConfigManager.get (Obj d) RP (Arr []) = Return (Arr paths) ->
  ConfigManager.get (Obj d) MP (Int 20) = Return (Int n) ->
  ConfigManager.with_path path (Obj d)
  = Return (Obj (dict_set RP (Arr (kept n path paths)) d)).
Proof.
  intros H1 H2. unfold ConfigManager.with_path. rewrite H1, H2. reflexivity.
Qed.

Lemma add_guard (f : content) :
  add_path_to_history [] f = Return (Some f)
  /\ add_path_to_history (tx "output") f = Return (Some f).
Proof. split; reflexivity. Qed.

Lemma add_returns (path : str) (f : content) (d : list (str * value))
      (paths : list value) (n : Z) :
  path <> [] -> path <> tx "output" ->
  load_json f = Obj d ->
  ConfigManager.get (Obj d) RP (Arr []) = Return (Arr paths) ->
  ConfigManager.get (Obj d) MP (Int 20) = Return (Int n) ->
  add_path_to_history path f
  = Return (written (save_json (Obj (dict_set RP (Arr (kept n path paths)) d)))).
Proof.
  intros Hne Hout Hl H1 H2. unfold add_path_to_history.
  replace (negb (truthy (Str path))) with false
    by (destruct path; [congruence | reflexivity]).
  rewrite (str_eqb_neq Hout). cbn [orb].
  rewrite Hl, (with_path_list _ H1 H2). reflexivity.
Qed.

Lemma written_text (data : value) (text : str) :
  plain data = true ->
  Return (written (save_json data)) = Return (Some (Some text)) ->
  save_json data = Some text /\ load_json (Some text) = data.
Proof.
  intros Hp H. destruct (save_json data) as [t|] eqn:E; [|discriminate].
  cbn [written] in H. injection H as ->. split; [reflexivity|].
  exact (load_saved _ Hp E).
Qed.

(** After a call that wrote the file, the file holds the dict with the
    new list. *)
Lemma add_stored (path : str) (f : content) (d : list (str * value))
      (paths : list value) (n : Z) (text : str) :
  path <> [] -> path <> tx "output" ->
  load_json f = Obj d -> plain (Obj d) = true ->
  ConfigManager.get (Obj d) RP (Arr []) = Return (Arr paths) ->
  ConfigManager.get (Obj d) MP (Int 20) = Return (Int n) ->
  add_path_to_history path f = Return (Some (Some text)) ->
  save_json (Obj (dict_set RP (Arr (kept n path paths)) d)) = Some text
  /\ load_json (Some text) = Obj (dict_set RP (Arr (kept n path paths)) d)
  /\ plain (Obj (dict_set RP (Arr (kept n path paths)) d)) = true.
Proof.
  intros Hne Hout Hl Hp H1 H2 Hadd.
  rewrite (add_returns f Hne Hout Hl H1 H2) in Hadd.
  assert (Hp' : plain (Obj (dict_set RP (Arr (kept n path paths)) d)) = true).
  { apply plain_set; [exact Hp|]. apply plain_kept.
    exact (@plain_get RP (Arr paths) (Arr []) d Hp eq_refl H1). }
  destruct (written_text _ Hp' Hadd) as [Hs Hload]. auto.
Qed.

Lemma path_history_of (f : content) (d : list (str * value)) :
  load_json f = Obj d -> path_history f = ConfigManager.get (Obj d) RP (Arr []).
Proof.
  intros H. unfold path_history, ConfigManager.get_path_history.
  change (ConfigManager.load_json (read f)) with (load_json f). rewrite H. reflexivity.
Qed.

(** Counterexample to C10: with [max_paths] 0 the stored list is empty
    and does not begin with the path added; duplicates the file already
    holds stay; and a path with a lone surrogate makes the write raise
    after the file was opened for writing. *)
Lemma add_path_to_history_not_invariant :
  (exists text,
      add_path_to_history (tx "D:/out")
        (Some (tx "{'recent_paths': ['C:/work'], 'max_paths': 0}"))
      = Return (Some (Some text))
      /\ path_history (Some text) = Return (Arr []))
  /\ (exists text,
         add_path_to_history (tx "b") (Some (tx "{'recent_paths': ['a', 'a']}"))
         = Return (Some (Some text))
         /\ path_history (Some text)
            = Return (Arr [Str (tx "b"); Str (tx "a"); Str (tx "a")]))
  /\ add_path_to_history [55296%N] (Some (dump ConfigManager.default_paths))
     = Return None.
Proof.
  split; [|split].
  - eexists. split; vm_compute; reflexivity.
  - eexists. split; vm_compute; reflexivity.
  - vm_compute. reflexivity.
Qed.

(** C10.  For a path that is neither empty nor ["output"], on a history
    file that holds a dict without a [float], whose [recent_paths] is a
    list without duplicates and whose [max_paths] is an integer [n] of
    at least 1 (20 when the key is missing), [add_path_to_history]
    returns, and when its write goes through the stored list begins
    with the path, has no duplicates and at most [n] entries, and
    [max_paths] is what it was.  With an empty path or ["output"] the
    file is not touched, whatever it holds. *)
Theorem add_path_to_history_invariant
        (path : str) (f : content) (d : list (str * value))
        (paths : list value) (n : Z) :
  load_json f = Obj d -> plain (Obj d) = true ->
  ConfigManager.get (Obj d) RP (Arr []) = Return (Arr paths) ->
  ConfigManager.get (Obj d) MP (Int 20) = Return (Int n) ->
  NoDup paths -> (1 <= n)%Z ->
  (forall g, add_path_to_history [] g = Return (Some g)
             /\ add_path_to_history (tx "output") g = Return (Some g))
  /\ (path <> [] -> path <> tx "output" ->
      exists rest,
        NoDup (Str path :: rest)
        /\ (Z.of_nat (length (Str path :: rest)) <= n)%Z
        /\ add_path_to_history path f
           = Return (written (save_json (Obj (dict_set RP (Arr (Str path :: rest)) d))))
        /\ forall text,
             add_path_to_history path f = Return (Some (Some text)) ->
             path_history (Some text) = Return (Arr (Str path :: rest))
             /\ ConfigManager.get (load_json (Some text)) MP (Int 20) = Return (Int n)).
Proof.
  intros Hl Hp H1 H2 Hnd Hn. split; [exact add_guard|].
  intros Hne Hout.
  pose proof (add_returns f Hne Hout Hl H1 H2) as Hret.
  pose proof (fun text => @add_stored path f d paths n text Hne Hout Hl Hp H1 H2) as Hst.
  rewrite (@kept_head n path paths Hn) in Hret, Hst.
  set (others := if ConfigManager.contains path paths
                 then ConfigManager.remove_first path paths else paths) in *.
  assert (Hothers : NoDup others /\ ~ In (Str path) others).
  { subst others. destruct (ConfigManager.contains path paths) eqn:E.
    - split; [apply remove_first_NoDup | apply remove_first_not_In]; assumption.
    - split; [assumption|]. intros Hin. apply contains_In in Hin. congruence. }
  destruct Hothers as [Hnd' Hnot].
  exists (firstn (Z.to_nat n - 1) others). split; [|split; [|split]].
  - constructor; [|apply firstn_NoDup; assumption].
    intros Hin. apply Hnot. eapply firstn_subset; eassumption.
  - cbn [length]. pose proof (firstn_le_length (Z.to_nat n - 1) others). lia.
  - exact Hret.
  - intros text Hadd. destruct (Hst text Hadd) as (_ & Hload & _). split.
    + rewrite (path_history_of _ Hload). apply get_set_same.
    + rewrite Hload, (get_set_other _ _ _ max_paths_other). exact H2.
Qed.

Lemma add_path_to_history_invariant_witness :
  (forall g, add_path_to_history [] g = Return (Some g)
             /\ add_path_to_history (tx "output") g = Return (Some g))
  /\ (tx "D:/out" <> [] -> tx "D:/out" <> tx "output" ->
      exists rest,
        NoDup (Str (tx "D:/out") :: rest)
        /\ (Z.of_nat (length (Str (tx "D:/out") :: rest)) <= 2)%Z
        /\ add_path_to_history (tx "D:/out")
             (Some (tx "{'max_paths': 2, 'recent_paths': ['C:/work', 'D:/out', 'E:/x']}"))
           = Return (written (save_json
                       (Obj (dict_set RP (Arr (Str (tx "D:/out") :: rest))
                               [(MP, Int 2);
                                (RP, Arr [Str (tx "C:/work"); Str (tx "D:/out");
                                          Str (tx "E:/x")])]))))
        /\ forall text,
             add_path_to_history (tx "D:/out")
               (Some (tx "{'max_paths': 2, 'recent_paths': ['C:/work', 'D:/out', 'E:/x']}"))
             = Return (Some (Some text)) ->
             path_history (Some text) = Return (Arr (Str (tx "D:/out") :: rest))
             /\ ConfigManager.get (load_json (Some text)) MP (Int 20) = Return (Int 2)).
Proof.
  apply (@add_path_to_history_invariant (tx "D:/out")
           (Some (tx "{'max_paths': 2, 'recent_paths': ['C:/work', 'D:/out', 'E:/x']}"))
           [(MP, Int 2);
            (RP, Arr [Str (tx "C:/work"); Str (tx "D:/out"); Str (tx "E:/x")])]
           [Str (tx "C:/work"); Str (tx "D:/out"); Str (tx "E:/x")] 2).
  - vm_compute. reflexivity.
  - reflexivity.
  - reflexivity.
  - reflexivity.
  - repeat constructor; cbn [In]; intuition discriminate.
  - lia.
Defined.

(** X1.  On a history file that holds a dict without a [float] whose
    [recent_paths] is a list without duplicates,
    [remove_path_from_history] returns; when the path is not in the
    list the file is not written, and when the write goes through the
    stored list is the old list without the path, every other entry in
    its place, and every other key of the file keeps its value. *)
Theorem remove_path_from_history_removes
        (path : str) (f : content) (d : list (str * value)) (paths : list value) :
  load_json f = Obj d -> plain (Obj d) = true ->
  ConfigManager.get (Obj d) RP (Arr []) = Return (Arr paths) ->
  NoDup paths ->
  exists r,
    remove_path_from_history path f = Return r
    /\ (ConfigManager.contains path paths = false -> r = Some f)
    /\ forall f', r = Some f' ->
         path_history f'
         = Return (Arr (filter (fun v => negb (ConfigManager.eq_path path v)) paths))
         /\ ~ In (Str path) (filter (fun v => negb (ConfigManager.eq_path path v)) paths)
         /\ forall other, other <> RP -> get_item other f' = get_item other f.
Proof.
  intros Hl Hp H1 Hnd.
  assert (Hnot : ~ In (Str path)
                   (filter (fun v => negb (ConfigManager.eq_path path v)) paths)).
  { rewrite filter_In. intros [_ H]. rewrite eq_path_same in H. discriminate. }
  unfold remove_path_from_history, ConfigManager.without_path. rewrite Hl, H1.
  destruct (ConfigManager.contains path paths) eqn:E.
  - cbn [ConfigManager.set_item]. eexists. split; [reflexivity|].
    split; [discriminate|]. intros f' Hf'.
    assert (Hp' : plain (Obj (dict_set RP
                                (Arr (ConfigManager.remove_first path paths)) d)) = true).
    { apply plain_set; [exact Hp|]. apply plain_list.
      pose proof (@plain_Arr _ (@plain_get RP (Arr paths) (Arr []) d Hp eq_refl H1)) as Hall.
      rewrite Forall_forall in *. intros v Hv. apply Hall.
      exact (remove_first_subset _ _ _ Hv). }
    destruct (save_json (Obj (dict_set RP
                (Arr (ConfigManager.remove_first path paths)) d))) as [text|] eqn:Es;
      [|discriminate].
    cbn [written] in Hf'. injection Hf' as <-.
    pose proof (load_saved _ Hp' Es) as Hload.
    split; [|split; [exact Hnot|]].
    + rewrite (path_history_of _ Hload), get_set_same, remove_first_filter by assumption.
      reflexivity.
    + intros other Hne. unfold get_item. rewrite Hload, Hl.
      apply get_set_other. exact Hne.
  - eexists. split; [reflexivity|]. split; [reflexivity|].
    intros f' Hf'. injection Hf' as <-.
    split; [|split; [exact Hnot | reflexivity]].
    rewrite (path_history_of _ Hl), H1, <- remove_first_filter, remove_absent
      by assumption.
    reflexivity.
Qed.

Lemma remove_path_from_history_removes_witness :
  exists r,
    remove_path_from_history (tx "C:/work")
      (Some (tx "{'recent_paths': ['C:/work', 'D:/out'], 'max_paths': 20}"))
    = Return r
    /\ (ConfigManager.contains (tx "C:/work") [Str (tx "C:/work"); Str (tx "D:/out")]
        = false
        -> r = Some (Some (tx "{'recent_paths': ['C:/work', 'D:/out'], 'max_paths': 20}")))
    /\ forall f', r = Some f' ->
         path_history f'
         = Return (Arr (filter (fun v => negb (ConfigManager.eq_path (tx "C:/work") v))
                          [Str (tx "C:/work"); Str (tx "D:/out")]))
         /\ ~ In (Str (tx "C:/work"))
                 (filter (fun v => negb (ConfigManager.eq_path (tx "C:/work") v))
                    [Str (tx "C:/work"); Str (tx "D:/out")])
         /\ forall other, other <> RP ->
              get_item other f'
              = get_item other
                  (Some (tx "{'recent_paths': ['C:/work', 'D:/out'], 'max_paths': 20}")).
Proof.
  apply (@remove_path_from_history_removes (tx "C:/work")
           (Some (tx "{'recent_paths': ['C:/work', 'D:/out'], 'max_paths': 20}"))
           [(RP, Arr [Str (tx "C:/work"); Str (tx "D:/out")]); (MP, Int 20)]
           [Str (tx "C:/work"); Str (tx "D:/out")]).
  - vm_compute. reflexivity.
  - reflexivity.
  - reflexivity.
  - repeat constructor; cbn [In]; intuition discriminate.
Defined.

(** X2.  [add_path_to_history] is idempotent on a history file that
    holds a dict without a [float] whose [recent_paths] is a list and
    whose [max_paths] is an integer that is not negative: after a call
    that wrote the file, the same call writes the same text again. *)
Theorem add_path_to_history_idempotent
        (path : str) (f : content) (d : list (str * value))
        (paths : list value) (n : Z) (text : str) :
  load_json f = Obj d -> plain (Obj d) = true ->
  ConfigManager.get (Obj d) RP (Arr []) = Return (Arr paths) ->
  ConfigManager.get (Obj d) MP (Int 20) = Return (Int n) ->
  (0 <= n)%Z ->
  path <> [] -> path <> tx "output" ->
  add_path_to_history path f = Return (Some (Some text)) ->
  add_path_to_history path (Some text) = Return (Some (Some text)).
Proof.
  intros Hl Hp H1 H2 Hn Hne Hout Hadd.
  destruct (@add_stored _ _ _ _ _ _ Hne Hout Hl Hp H1 H2 Hadd) as (Hs & Hload & Hp').
  rewrite (@add_returns path (Some text) _ (kept n path paths) n Hne Hout Hload).
  - rewrite kept_twice, dict_set_again, Hs by assumption. reflexivity.
  - apply get_set_same.
  - rewrite (get_set_other _ _ _ max_paths_other). exact H2.
Qed.

Lemma add_path_to_history_idempotent_witness :
  add_path_to_history (tx "D:/out")
    (Some (dump (Obj [(RP, Arr [Str (tx "D:/out"); Str (tx "C:/work")]); (MP, Int 20)])))
  = Return (Some (Some (dump (Obj [(RP, Arr [Str (tx "D:/out"); Str (tx "C:/work")]);
                                   (MP, Int 20)])))).
Proof.
  apply (@add_path_to_history_idempotent (tx "D:/out")
           (Some (tx "{'recent_paths': ['C:/work'], 'max_paths': 20}"))
           [(RP, Arr [Str (tx "C:/work")]); (MP, Int 20)]
           [Str (tx "C:/work")] 20).
  - vm_compute. reflexivity.
  - reflexivity.
  - reflexivity.
  - reflexivity.
  - lia.
  - discriminate.
  - discriminate.
  - vm_compute. reflexivity.
Defined.

(** X3.  On a history file that holds a dict without a [float] whose
    [recent_paths] is a list of fewer than [max_paths] paths, adding a
    path that is not in the list puts it first, and removing it again
    gives back the dict the file held, when both writes go through. *)
Theorem add_then_remove_restores
        (path : str) (f : content) (d : list (str * value))
        (paths : list value) (n : Z) (text1 text2 : str) :
  load_json f = Obj d -> plain (Obj d) = true ->
  dict_get RP d = Some (Arr paths) ->
  ConfigManager.get (Obj d) MP (Int 20) = Return (Int n) ->
  path <> [] -> path <> tx "output" ->
  ConfigManager.contains path paths = false ->
  (Z.of_nat (length paths) < n)%Z ->
  add_path_to_history path f = Return (Some (Some text1)) ->
  remove_path_from_history path (Some text1) = Return (Some (Some text2)) ->
  path_history (Some text1) = Return (Arr (Str path :: paths))
  /\ load_json (Some text2) = load_json f.
Proof.
  intros Hl Hp Hget H2 Hne Hout Hc Hlen Hadd Hrem.
  assert (H1 : ConfigManager.get (Obj d) RP (Arr []) = Return (Arr paths)).
  { cbn [ConfigManager.get]. rewrite Hget. reflexivity. }
  destruct (@add_stored _ _ _ _ _ _ Hne Hout Hl Hp H1 H2 Hadd) as (Hs & Hload & Hp').
  assert (Hk : kept n path paths = Str path :: paths).
  { rewrite Hc, slice_to_nonneg by lia. apply firstn_all2. cbn [length]. lia. }
  rewrite Hk in Hs, Hload, Hp'. split.
  - rewrite (path_history_of _ Hload). apply get_set_same.
  - unfold remove_path_from_history, ConfigManager.without_path in Hrem.
    rewrite Hload, get_set_same, contains_head, remove_head in Hrem.
    cbn [ConfigManager.set_item] in Hrem.
    rewrite dict_set_again, (dict_set_present _ _ Hget) in Hrem.
    destruct (written_text _ Hp Hrem) as [_ Hload2]. rewrite Hload2, Hl. reflexivity.
Qed.

Lemma add_then_remove_restores_witness :
  path_history
    (Some (dump (Obj [(RP, Arr [Str (tx "D:/out"); Str (tx "C:/work")]); (MP, Int 20)])))
  = Return (Arr [Str (tx "D:/out"); Str (tx "C:/work")])
  /\ load_json (Some (dump (Obj [(RP, Arr [Str (tx "C:/work")]); (MP, Int 20)])))
     = load_json (Some (tx "{'recent_paths': ['C:/work'], 'max_paths': 20}")).
Proof.
  apply (@add_then_remove_restores (tx "D:/out")
           (Some (tx "{'recent_paths': ['C:/work'], 'max_paths': 20}"))
           [(RP, Arr [Str (tx "C:/work")]); (MP, Int 20)]
           [Str (tx "C:/work")] 20).
  - vm_compute. reflexivity.
  - reflexivity.
  - reflexivity.
  - reflexivity.
  - discriminate.
  - discriminate.
  - reflexivity.
  - cbn [length]. lia.
  - vm_compute. reflexivity.
  - vm_compute. reflexivity.
Defined.

(** X4.  On a history file that holds a dict without a [float] whose
    [recent_paths] is a list and whose [max_paths] is an integer of at
    least 2, two different paths added one after the other (neither
    empty nor ["output"], both writes going through) are the first two
    entries of the history, the one added last first. *)
Theorem add_path_to_history_most_recent_first
        (p1 p2 : str) (f : content) (d : list (str * value))
        (paths : list value) (n : Z) (text1 text2 : str) :
  load_json f = Obj d -> plain (Obj d) = true ->
  ConfigManager.get (Obj d) RP (Arr []) = Return (Arr paths) ->
  ConfigManager.get (Obj d) MP (Int 20) = Return (Int n) ->
  (2 <= n)%Z ->
  p1 <> [] -> p1 <> tx "output" -> p2 <> [] -> p2 <> tx "output" -> p1 <> p2 ->
  add_path_to_history p1 f = Return (Some (Some text1)) ->
  add_path_to_history p2 (Some text1) = Return (Some (Some text2)) ->
  exists rest,
    path_history (Some text2) = Return (Arr (Str p2 :: Str p1 :: rest)).
Proof.
  intros Hl Hp H1 H2 Hn Hne1 Hout1 Hne2 Hout2 Hdiff Hadd1 Hadd2.
  destruct (@add_stored _ _ _ _ _ _ Hne1 Hout1 Hl Hp H1 H2 Hadd1) as (_ & Hload1 & Hp1).
  assert (H1' : ConfigManager.get
                  (Obj (dict_set RP (Arr (kept n p1 paths)) d)) RP (Arr [])
                = Return (Arr (kept n p1 paths))) by apply get_set_same.
  assert (H2' : ConfigManager.get
                  (Obj (dict_set RP (Arr (kept n p1 paths)) d)) MP (Int 20)
                = Return (Int n)).
  { rewrite (get_set_other _ _ _ max_paths_other). exact H2. }
  destruct (@add_stored _ _ _ _ _ _ Hne2 Hout2 Hload1 Hp1 H1' H2' Hadd2) as (_ & Hload2 & _).
  rewrite (path_history_of _ Hload2), get_set_same.
  rewrite (@kept_head n p2 (kept n p1 paths)) by lia.
  rewrite (@kept_head n p1 paths) by lia.
  set (others := firstn (Z.to_nat n - 1)
                   (if ConfigManager.contains p1 paths
                    then ConfigManager.remove_first p1 paths else paths)).
  assert (Hneq : ConfigManager.eq_path p2 (Str p1) = false).
  { cbn [ConfigManager.eq_path]. apply str_eqb_neq. exact Hdiff. }
  assert (E : exists rest,
             (if ConfigManager.contains p2 (Str p1 :: others)
              then ConfigManager.remove_first p2 (Str p1 :: others)
              else Str p1 :: others) = Str p1 :: rest).
  { destruct (ConfigManager.contains p2 (Str p1 :: others)).
    - cbn [ConfigManager.remove_first]. rewrite Hneq. eexists. reflexivity.
    - eexists. reflexivity. }
  destruct E as (rest & ->).
  destruct (Z.to_nat n - 1) as [|k] eqn:Ek; [lia|].
  cbn [firstn]. eexists. reflexivity.
Qed.

Lemma add_path_to_history_most_recent_first_witness :
  exists rest,
    path_history
      (Some (dump (Obj [(RP, Arr [Str (tx "D:/out"); Str (tx "C:/work")]); (MP, Int 20)])))
    = Return (Arr (Str (tx "D:/out") :: Str (tx "C:/work") :: rest)).
Proof.
  apply (@add_path_to_history_most_recent_first (tx "C:/work") (tx "D:/out")
           (Some (dump ConfigManager.default_paths))
           [(RP, Arr []); (MP, Int 20)] [] 20
           (dump (Obj [(RP, Arr [Str (tx "C:/work")]); (MP, Int 20)]))).
  - vm_compute. reflexivity.
  - reflexivity.
  - reflexivity.
  - reflexivity.
  - lia.
  - discriminate.
  - discriminate.
  - discriminate.
  - discriminate.
  - discriminate.
  - vm_compute. reflexivity.
  - vm_compute. reflexivity.
Defined.
End HistoryFile.

(** ** The order of the entries of a files array *)
Module ArrayOrder.
Import Json Py Fuel FileRoundTrip.

(** *** A value is read the same way whatever follows its text *)







(** What follows the text is a comma or a closing bracket. *)
Section Follow.
Variables (c : char) (x : str).
Hypothesis Hc : c = Chr.COMMA \/ c = Chr.RBRACKET.










End Follow.

(** *** The elements of an array are read in the order of the text *)





End ArrayOrder.

(** ** Method 3 on a files array, whatever surrounds it *)
Module FilesOrder.
Import Json Py OpenRouter Re ReFacts ReRun ReRunMore ReMiss Texts Recovery ArrayOrder.







End FilesOrder.
